(** * Brymen logger: the line parser and the serial reader loop

    A shallow embedding of [parse_all_measurements] and of
    [SerialReaderThread] ([run], [stop], [set_logging]) from
    [Brymen_Logger_V1.0.py], with the properties of the parsing contract
    and of the reader loop proved over it. *)

From Stdlib Require Import ZArith NArith List String Ascii.
From Stdlib Require Import Floats.SpecFloat.
From stdpp Require Import gmap strings list.

Local Open Scope N_scope.

(** ** Text

    A Python [str] is a sequence of Unicode code points.  String literals
    of the source are ASCII apart from the Greek capital omega of the unit
    class, so a literal is embedded byte by byte. *)

Abbreviation str := (list N).

Definition text (s : string) : str :=
  N_of_ascii <$> list_ascii_of_string s.

Definition dquote : str := [34].
Definition newline : str := [10].

(** [c in "+-"], [c == "."] and the like. *)
Definition one_of (cs : str) (c : N) : bool :=
  existsb (N.eqb c) cs.

(** [s.startswith(p)] *)
Fixpoint startswith (p s : str) : bool :=
  match p, s with
  | [], _ => true
  | _ :: _, [] => false
  | a :: p', b :: s' => (a =? b) && startswith p' s'
  end.

(** [s.find(sep)]: index of the leftmost occurrence. *)
Fixpoint find (sep s : str) : option nat :=
  if startswith sep s then Some 0%nat
  else match s with
       | [] => None
       | _ :: s' => S <$> find sep s'
       end.

(** [sep in s] *)
Definition contains (sep s : str) : bool :=
  match find sep s with Some _ => true | None => false end.

(** [s.split(sep, 1)] for a non-empty separator: at most one cut, at the
    leftmost occurrence. *)
Definition split1 (sep s : str) : list str :=
  match find sep s with
  | Some i => [take i s; drop (i + length sep) s]
  | None => [s]
  end.

(** [sep.join(parts)] *)
Fixpoint join (sep : str) (parts : list str) : str :=
  match parts with
  | [] => []
  | [p] => p
  | p :: ps => p ++ sep ++ join sep ps
  end.

(** ** Character classes

    [str.strip], [str.split] and the [re] classes [\s], [\d], [\w] follow
    the Unicode database.  Its ASCII rows are written out; the rows above
    U+007F are tables of the interpreter, taken as parameters. *)

Definition ascii_isspace (c : N) : bool :=
  ((9 <=? c) && (c <=? 13)) || ((28 <=? c) && (c <=? 32)).

Definition ascii_isdecimal (c : N) : bool :=
  (48 <=? c) && (c <=? 57).

Definition ascii_isalpha (c : N) : bool :=
  ((65 <=? c) && (c <=? 90)) || ((97 <=? c) && (c <=? 122)).

(** Exceptions of the interpreter and of the environment; all of them
    derive from [Exception]. *)
Inductive exn :=
| ValueError (msg : str)
| TypeError (msg : str)
| KeyError (key : string)
| UnboundLocalError (var : string)
| AttributeError (msg : str)
| OSError (msg : str)
| SerialException (msg : str).

(** [str(e)] *)
Definition exn_str (e : exn) : str :=
  match e with
  | ValueError msg | TypeError msg | AttributeError msg
  | OSError msg | SerialException msg => msg
  | KeyError key => text "'" ++ text key ++ text "'"
  | UnboundLocalError var =>
      text "cannot access local variable '" ++ text var
        ++ text "' where it is not associated with a value"
  end.

Inductive result (A : Type) :=
| Ok (a : A)
| Raise (e : exn).
Arguments Ok {A} a.
Arguments Raise {A} e.

(** ** Regular expressions

    The fragment of [re] that [main_regex] is written in, matched the way
    [re] matches: leftmost, greedy, backtracking into the last choice
    first.  The matcher is in continuation-passing style; the continuation
    receives the unread text and the groups captured so far. *)

Inductive regex :=
| Class (p : N → bool)          (* one character of a class *)
| Star (p : N → bool)           (* class*  *)
| Plus (p : N → bool)           (* class+  *)
| Opt (r : regex)               (* r?      *)
| Cat (r1 r2 : regex)           (* r1 r2   *)
| Group (n : nat) (r : regex).  (* (r), the n-th capturing group *)

(** A match object: its groups and the text after [m.end()]. *)
Record match_obj := Match { groups : gmap nat str; after : str }.

Section Matcher.
Context {A : Type}.

Fixpoint star_match (p : N → bool) (s : str) (k : str → option A) : option A :=
  match s with
  | c :: s' =>
      if p c then
        match star_match p s' k with
        | Some x => Some x
        | None => k s
        end
      else k s
  | [] => k s
  end.

Fixpoint re_match (r : regex) (s : str) (g : gmap nat str)
    (k : str → gmap nat str → option A) : option A :=
  match r with
  | Class p =>
      match s with
      | c :: s' => if p c then k s' g else None
      | [] => None
      end
  | Star p => star_match p s (λ s', k s' g)
  | Plus p =>
      match s with
      | c :: s' => if p c then star_match p s' (λ s'', k s'' g) else None
      | [] => None
      end
  | Opt r1 =>
      match re_match r1 s g k with
      | Some x => Some x
      | None => k s g
      end
  | Cat r1 r2 => re_match r1 s g (λ s' g', re_match r2 s' g' k)
  | Group n r1 =>
      re_match r1 s g
        (λ s' g', k s' (<[n := take (length s - length s') s]> g'))
  end.
End Matcher.

(** [pattern.search(s)]: the match at the leftmost position that has one. *)
Fixpoint search (r : regex) (s : str) : option match_obj :=
  match re_match r s ∅ (λ s' g, Some (Match g s')) with
  | Some m => Some m
  | None =>
      match s with
      | [] => None
      | _ :: s' => search r s'
      end
  end.

(** ** Python values and the object store *)

Inductive value :=
| VNone
| VBool (b : bool)
| VFloat (x : spec_float)
| VStr (s : str)
| VList (l : list str).

(** [m.group(n)]: [None] for a group that took no part in the match. *)
Definition group (m : match_obj) (n : nat) : value :=
  match groups m !! n with
  | Some s => VStr s
  | None => VNone
  end.

(** A dict with literal keys. *)
Abbreviation dict := (gmap string value).

(** The store of dict objects; a reference is an index into it. *)
Abbreviation heap := (list (gmap string value)).

(** Computations over a state [S] that return or raise. *)
Definition M (S A : Type) : Type := S → result A * S.

Definition ret {S A} (a : A) : M S A := λ s, (Ok a, s).

Definition raise {S A} (e : exn) : M S A := λ s, (Raise e, s).

Definition bind {S A B} (c : M S A) (f : A → M S B) : M S B :=
  λ s, match c s with
       | (Ok a, s') => f a s'
       | (Raise e, s') => (Raise e, s')
       end.

(** [try: c  except cls as e: h e], with the class [cls] given by the
    exceptions it catches. *)
Definition try_except {S A} (c : M S A) (cls : exn → bool) (h : exn → M S A) : M S A :=
  λ s, match c s with
       | (Ok a, s') => (Ok a, s')
       | (Raise e, s') => if cls e then h e s' else (Raise e, s')
       end.

Definition Exception (e : exn) : bool := true.

Definition is_ValueError (e : exn) : bool :=
  match e with ValueError _ => true | _ => false end.

(** [a, b = l] *)
Definition unpack2 {S} (l : list str) : M S (str * str) :=
  match l with
  | [a; b] => ret (a, b)
  | _ => raise (ValueError (text "wrong number of values to unpack"))
  end.

#[export] Instance M_ret {S} : MRet (M S) := λ A, ret.
#[export] Instance M_bind {S} : MBind (M S) := λ A B f c, bind c f.

(** [{}] *)
Definition new_dict : M heap nat :=
  λ h, (Ok (length h), h ++ [∅]).

(** [d[key] = v] *)
Definition setitem (d : nat) (key : string) (v : value) : M heap unit :=
  λ h, match h !! d with
       | Some o => (Ok (), <[d := <[key := v]> o]> h)
       | None => (Raise (TypeError (text "not a dict")), h)
       end.

(** [key in d] *)
Definition dict_contains (d : nat) (key : string) : M heap bool :=
  λ h, match h !! d with
       | Some o => (Ok (bool_decide (is_Some (o !! key))), h)
       | None => (Raise (TypeError (text "not a dict")), h)
       end.

(** [d[key]] *)
Definition getitem (d : nat) (key : string) : M heap value :=
  λ h, match h !! d with
       | Some o =>
           match o !! key with
           | Some v => (Ok v, h)
           | None => (Raise (KeyError key), h)
           end
       | None => (Raise (TypeError (text "not a dict")), h)
       end.

(** [d.get(key, default)] *)
Definition dict_get (d : nat) (key : string) (dflt : value) : M heap value :=
  λ h, match h !! d with
       | Some o => (Ok (default dflt (o !! key)), h)
       | None => (Raise (TypeError (text "not a dict")), h)
       end.

(** ** The program

    The parser and the reader thread, over the tables and printers of the
    interpreter that they rely on. *)

Section Program.

(** The rows of the Unicode database above U+007F: [str.isspace],
    the decimal value of a character of category Nd, and the alphabetic
    and other numeric characters. *)
Variable uni_isspace : N → bool.
Variable uni_decimal : N → option N.
Variable uni_isalpha : N → bool.

(** [str(x)] of a float and of a list, as the interpreter prints them. *)
Variable float_repr : spec_float → str.
Variable list_repr : list str → str.

(** [c.isspace()], the class [\s] *)
Definition isspace (c : N) : bool :=
  if c <? 128 then ascii_isspace c else uni_isspace c.

(** The decimal digit a character stands for, if any. *)
Definition decimal (c : N) : option N :=
  if c <? 128 then (if ascii_isdecimal c then Some (c - 48) else None)
  else uni_decimal c.

(** [c.isdecimal()], the class [\d] *)
Definition isdecimal (c : N) : bool :=
  match decimal c with Some _ => true | None => false end.

(** [c.isalnum() or c == "_"], the class [\w] *)
Definition isword (c : N) : bool :=
  (if c <? 128 then ascii_isalpha c else uni_isalpha c)
  || isdecimal c || (c =? 95).

(** The class [[\wΩ%]]; the omega is U+03A9. *)
Definition isunit (c : N) : bool :=
  isword c || (c =? 937) || (c =? 37).

(** [s.lstrip()], [s.rstrip()], [s.strip()] *)
Fixpoint lstrip (s : str) : str :=
  match s with
  | c :: s' => if isspace c then lstrip s' else s
  | [] => []
  end.

Definition rstrip (s : str) : str := reverse (lstrip (reverse s)).

Definition strip (s : str) : str := rstrip (lstrip s).

(** [s.split()]: the maximal runs of non-whitespace; [word] is the run
    being read, latest character first. *)
Fixpoint split_runs (word : str) (s : str) : list str :=
  match s with
  | c :: s' =>
      if isspace c then
        match word with
        | [] => split_runs [] s'
        | _ => reverse word :: split_runs [] s'
        end
      else split_runs (c :: word) s'
  | [] =>
      match word with
      | [] => []
      | _ => [reverse word]
      end
  end.

Definition split (s : str) : list str := split_runs [] s.

(** [re.compile(r"\s*([+-]?\d+(?:\.\d+)?)\s*([\wΩ%]+)")] *)
Definition main_regex : regex :=
  Cat (Star isspace)
 (Cat (Group 1 (Cat (Opt (Class (one_of (text "+-"))))
               (Cat (Plus isdecimal)
                    (Opt (Cat (Class (one_of (text "."))) (Plus isdecimal))))))
 (Cat (Star isspace)
      (Group 2 (Plus isunit)))).

(** *** [float]

    [float(s)] on the spellings group 1 can deliver: an optional sign,
    digits, and optionally a point and digits.  The value is the decimal
    rounded to the nearest binary64, ties to even; a zero keeps its
    sign.  ([float] also reads exponents, [inf], [nan], underscores and
    surrounding blanks; none of them can come out of group 1.) *)

Fixpoint digits (acc : N) (s : str) : option N :=
  match s with
  | [] => Some acc
  | c :: s' =>
      match decimal c with
      | Some d => digits (10 * acc + d) s'
      | None => None
      end
  end.

(** The binary64 nearest to [mant / 10 ^ scale], negated if [neg]. *)
Definition binary64_of_decimal (neg : bool) (mant : N) (scale : nat) : spec_float :=
  match mant with
  | N0 => S754_zero neg
  | Npos m =>
      SFdiv 53 1024 (S754_finite neg m 0)
        (S754_finite false (Z.to_pos (10 ^ Z.of_nat scale)) 0)
  end.

Definition not_a_float : exn :=
  ValueError (text "could not convert string to float").

Definition float_of_str (s : str) : result spec_float :=
  let '(neg, body) :=
    match s with
    | c :: s' =>
        if c =? 45 then (true, s') else if c =? 43 then (false, s') else (false, s)
    | [] => (false, s)
    end in
  let '(int_part, frac_part) :=
    match split1 (text ".") body with
    | [i; f] => (i, f)
    | _ => (body, [])
    end in
  match int_part ++ frac_part, digits 0 (int_part ++ frac_part) with
  | _ :: _, Some mant => Ok (binary64_of_decimal neg mant (length frac_part))
  | _, _ => Raise not_a_float
  end.

(** [float(v)] *)
Definition float {S} (v : value) : M S spec_float :=
  match v with
  | VStr s => λ st, (float_of_str s, st)
  | VFloat x => ret x
  | _ => raise (TypeError (text "float() argument must be a string or a real number"))
  end.

(** *** [parse_all_measurements] *)

(** The block that the source writes once for [m_main] and once for
    [m_aux], with the two keys it fills:
<<
    if m:
        try: parsed[value_key] = float(m.group(1))
        except ValueError: parsed[value_key] = None
        parsed[unit_key] = m.group(2)
    else:
        parsed[value_key] = None
        parsed[unit_key] = None
>> *)
Definition store_measurement (parsed : nat) (value_key unit_key : string)
    (m : option match_obj) : M heap unit :=
  match m with
  | Some m =>
      try_except
        (x ← float (group m 1); setitem parsed value_key (VFloat x))
        is_ValueError
        (λ _, setitem parsed value_key VNone);;
      setitem parsed unit_key (group m 2)
  | None =>
      setitem parsed value_key VNone;;
      setitem parsed unit_key VNone
  end.

Definition parse_all_measurements (message : str) : M heap nat :=
  parsed ← new_dict;
  (if contains (text "MAIN:") message then
     '(pre_main, post_main) ← unpack2 (split1 (text "MAIN:") message);
     let flags := split (strip pre_main) in
     setitem parsed "flags" (VList flags);;
     let m_main := search main_regex post_main in
     store_measurement parsed "main_value" "main_unit" m_main;;
     (if contains (text "AUX:") post_main then
        '(_, aux_part) ← unpack2 (split1 (text "AUX:") post_main);
        let m_aux := search main_regex aux_part in
        store_measurement parsed "aux_value" "aux_unit" m_aux
      else
        setitem parsed "aux_value" VNone;;
        setitem parsed "aux_unit" VNone);;
     setitem parsed "low_battery" (VBool (contains (text "LOW BAT") message))
   else
     setitem parsed "raw" (VStr message));;
  mret parsed.


(** ** The reader thread

    The state the thread's code can reach: its own attributes, the local
    variables of [run], the dict objects, the two callbacks, the standard
    output and the files. *)

(** A text file opened for appending: what was written and not yet
    flushed is in [f_buffer]. *)
Record file := File { f_name : str; f_closed : bool; f_buffer : str }.

(** The attributes [__init__] gives a [SerialReaderThread]. *)
Record thread := Thread {
  stop_event : bool;            (* self._stop_event *)
  logging_enabled : bool;       (* self.logging_enabled *)
  csv_file : option file;       (* self.csv_file *)
  csv_path : option str         (* self.csv_path *)
}.

Record world := World {
  objects : heap;
  self : thread;
  locals : gmap string value;   (* local variables of run() *)
  log_sink : list str;          (* texts passed to log_callback *)
  display_sink : list value;    (* values passed to update_callback *)
  stdout : list str;            (* lines printed *)
  disk : gmap str str           (* contents of the files, by path *)
}.

Definition set_objects (h : heap) (w : world) : world :=
  World h (self w) (locals w) (log_sink w) (display_sink w) (stdout w) (disk w).
Definition set_self (t : thread) (w : world) : world :=
  World (objects w) t (locals w) (log_sink w) (display_sink w) (stdout w) (disk w).
Definition set_locals (l : gmap string value) (w : world) : world :=
  World (objects w) (self w) l (log_sink w) (display_sink w) (stdout w) (disk w).
Definition set_log_sink (l : list str) (w : world) : world :=
  World (objects w) (self w) (locals w) l (display_sink w) (stdout w) (disk w).
Definition set_display_sink (l : list value) (w : world) : world :=
  World (objects w) (self w) (locals w) (log_sink w) l (stdout w) (disk w).
Definition set_stdout (l : list str) (w : world) : world :=
  World (objects w) (self w) (locals w) (log_sink w) (display_sink w) l (disk w).
Definition set_disk (d : gmap str str) (w : world) : world :=
  World (objects w) (self w) (locals w) (log_sink w) (display_sink w) (stdout w) d.

Definition set_stop_event (b : bool) (t : thread) : thread :=
  Thread b (logging_enabled t) (csv_file t) (csv_path t).
Definition set_logging_enabled (b : bool) (t : thread) : thread :=
  Thread (stop_event t) b (csv_file t) (csv_path t).
Definition set_csv_file (f : option file) (t : thread) : thread :=
  Thread (stop_event t) (logging_enabled t) f (csv_path t).
Definition set_csv_path (p : option str) (t : thread) : thread :=
  Thread (stop_event t) (logging_enabled t) (csv_file t) p.

(** [SerialReaderThread(ser, update_callback, log_callback)] in a world
    with the given files. *)
Definition init (files : gmap str str) : world :=
  World [] (Thread false false None None) ∅ [] [] [] files.

Definition gets {S A} (f : S → A) : M S A := λ s, (Ok (f s), s).
Definition modify {S} (f : S → S) : M S unit := λ s, (Ok (), f s).

(** A call whose result the environment decides. *)
Definition call {S A} (r : result A) : M S A := λ s, (r, s).

(** A parser-level computation run on the dict objects of the world. *)
Definition on_objects {A} (c : M heap A) : M world A :=
  λ w, let '(r, h) := c (objects w) in (r, set_objects h w).

Definition log_callback (t : str) : M world unit :=
  modify (λ w, set_log_sink (log_sink w ++ [t]) w).

Definition update_callback (v : value) : M world unit :=
  modify (λ w, set_display_sink (display_sink w ++ [v]) w).

Definition print (t : str) : M world unit :=
  modify (λ w, set_stdout (stdout w ++ [t]) w).

(** Reading and assigning a local variable of [run]. *)
Definition load (var : string) : M world value :=
  λ w, match locals w !! var with
       | Some v => (Ok v, w)
       | None => (Raise (UnboundLocalError var), w)
       end.

Definition store (var : string) (v : value) : M world unit :=
  modify (λ w, set_locals (<[var := v]> (locals w)) w).

(** Truth value of an object. *)
Definition truthy (v : value) : bool :=
  match v with
  | VNone => false
  | VBool b => b
  | VFloat (S754_zero _) => false
  | VFloat _ => true
  | VStr s => negb (bool_decide (s = []))
  | VList l => negb (bool_decide (l = []))
  end.

(** [a or b] *)
Definition or_else (a b : value) : value := if truthy a then a else b.

(** [sep.join(v)]: a list of strings, or a string taken character by
    character. *)
Definition join_value {S} (sep : str) (v : value) : M S str :=
  match v with
  | VList l => ret (join sep l)
  | VStr s => ret (join sep ((λ c, [c]) <$> s))
  | _ => raise (TypeError (text "can only join an iterable"))
  end.

(** [s + v] for a string [s] *)
Definition concat_value {S} (s : str) (v : value) : M S str :=
  match v with
  | VStr t => ret (s ++ t)
  | _ => raise (TypeError (text "can only concatenate str to str"))
  end.

(** *** The log file *)

(** [open(path, "a", encoding="utf-8")] creates the file when it is
    missing and leaves its content alone. *)
Definition create_if_missing (path : str) (d : gmap str str) : gmap str str :=
  match d !! path with
  | Some _ => d
  | None => <[path := []]> d
  end.

(** Flushing [data] to the file at [path]; an empty buffer writes
    nothing. *)
Definition append_to (path : str) (data : str) (d : gmap str str) : gmap str str :=
  match data with
  | [] => d
  | _ :: _ => <[path := default [] (d !! path) ++ data]> d
  end.

(** [self.csv_file.write(data)] *)
Definition csv_write (data : str) : M world unit :=
  λ w, match csv_file (self w) with
       | Some f =>
           if f_closed f then
             (Raise (ValueError (text "I/O operation on closed file.")), w)
           else
             (Ok (), set_self (set_csv_file
                        (Some (File (f_name f) false (f_buffer f ++ data))) (self w)) w)
       | None =>
           (Raise (AttributeError (text "'NoneType' object has no attribute 'write'")), w)
       end.

(** [self.csv_file.flush()] *)
Definition csv_flush : M world unit :=
  λ w, match csv_file (self w) with
       | Some f =>
           if f_closed f then
             (Raise (ValueError (text "I/O operation on closed file.")), w)
           else
             (Ok (), set_disk (append_to (f_name f) (f_buffer f) (disk w))
                       (set_self (set_csv_file (Some (File (f_name f) false [])) (self w)) w))
       | None =>
           (Raise (AttributeError (text "'NoneType' object has no attribute 'flush'")), w)
       end.

(** [self.csv_file.close()]: flushes, then closes; closing twice is
    allowed. *)
Definition csv_close : M world unit :=
  λ w, match csv_file (self w) with
       | Some f =>
           if f_closed f then (Ok (), w)
           else
             (Ok (), set_disk (append_to (f_name f) (f_buffer f) (disk w))
                       (set_self (set_csv_file (Some (File (f_name f) true [])) (self w)) w))
       | None =>
           (Raise (AttributeError (text "'NoneType' object has no attribute 'close'")), w)
       end.

(** *** [stop] and [set_logging] *)

Definition stop : M world unit :=
  modify (λ w, set_self (set_stop_event true (self w)) w).

Definition set_logging (enabled : bool) (path : option str) : M world unit :=
  modify (λ w, set_self (set_logging_enabled enabled (self w)) w);;
  if enabled then
    modify (λ w, set_self (set_csv_path path (self w)) w)
  else
    f ← gets (λ w, csv_file (self w));
    match f with
    | Some _ =>
        csv_close;;
        modify (λ w, set_self (set_csv_file None (self w)) w)
    | None => mret ()
    end.

(** *** [run] *)

(** What the environment answers during one pass of the loop. *)
Record env := Env {
  in_waiting : result N;          (* self.ser.in_waiting *)
  readline_decoded : result str;  (* self.ser.readline().decode(errors="replace") *)
  open_append : str → result ();  (* os.makedirs(os.path.dirname(p), exist_ok=True); open(p, "a") *)
  strftime : str                  (* time.strftime("%Y-%m-%d %H:%M:%S") *)
}.

(** [str(v)], the conversion of an f-string field. *)
Definition format_value (v : value) : str :=
  match v with
  | VNone => text "None"
  | VBool b => if b then text "True" else text "False"
  | VFloat x => float_repr x
  | VStr s => s
  | VList l => list_repr l
  end.

(** [f"{v if v is not None else ''}"] *)
Definition format_unless_none (v : value) : str :=
  match v with
  | VNone => []
  | _ => format_value v
  end.

(** The part of the loop body that opens the file on demand:
<<
    if self.csv_file is None and self.csv_path:
        try:
            os.makedirs(os.path.dirname(self.csv_path), exist_ok=True)
            self.csv_file = open(self.csv_path, "a", encoding="utf-8")
        except Exception as e:
            self.log_callback(f"CSV Open Error: {e}")
>> *)
Definition open_on_demand (ev : env) : M world unit :=
  f ← gets (λ w, csv_file (self w));
  p ← gets (λ w, csv_path (self w));
  match f, p with
  | None, Some (c :: path) =>
      try_except
        (call (open_append ev (c :: path));;
         modify (λ w, set_disk (create_if_missing (c :: path) (disk w)) w);;
         modify (λ w, set_self (set_csv_file (Some (File (c :: path) false [])) (self w)) w))
        Exception
        (λ e, log_callback (text "CSV Open Error: " ++ exn_str e))
  | _, _ => mret ()
  end.

(** The row of the CSV file, from the local variables of [run]. *)
Definition write_csv_line (ev : env) : M world unit :=
  let ts := strftime ev in
  flags_str ← load "flags_str";
  main_val ← load "main_val";
  main_unit ← load "main_unit";
  aux_val ← load "aux_val";
  aux_unit ← load "aux_unit";
  battery_str ← load "battery_str";
  let csv_line :=
    ts ++ text "," ++ dquote ++ format_value flags_str ++ dquote ++ text ","
       ++ format_unless_none main_val ++ text ","
       ++ dquote ++ format_value main_unit ++ dquote ++ text ","
       ++ format_unless_none aux_val ++ text ","
       ++ dquote ++ format_value aux_unit ++ dquote ++ text ","
       ++ format_value battery_str ++ newline in
  csv_write csv_line;;
  csv_flush.

(** The summary of a structured reading; assigns the six locals that the
    CSV row reads later. *)
Definition summarize (parsed_data : nat) : M world str :=
  flags ← on_objects (dict_get parsed_data "flags" (VList []));
  flags_str ← join_value (text " ") flags;
  store "flags_str" (VStr flags_str);;
  main_val ← on_objects (dict_get parsed_data "main_value" VNone);
  store "main_val" main_val;;
  main_unit ← on_objects (dict_get parsed_data "main_unit" VNone);
  let main_unit := or_else main_unit (VStr []) in
  store "main_unit" main_unit;;
  aux_val ← on_objects (dict_get parsed_data "aux_value" VNone);
  store "aux_val" aux_val;;
  aux_unit ← on_objects (dict_get parsed_data "aux_unit" VNone);
  let aux_unit := or_else aux_unit (VStr []) in
  store "aux_unit" aux_unit;;
  low_battery ← on_objects (dict_get parsed_data "low_battery" VNone);
  let battery_str := if truthy low_battery then text "LOW BAT" else text "OK" in
  store "battery_str" (VStr battery_str);;
  mret (text "Flags: [" ++ flags_str ++ text "] | "
          ++ text "MAIN: " ++ format_value main_val ++ text " " ++ format_value main_unit ++ text " | "
          ++ text "AUX: " ++ format_value aux_val ++ text " " ++ format_value aux_unit ++ text " | "
          ++ text "Battery: " ++ battery_str).

(** What the loop does with one non-empty line, up to the CSV part: the
    line is logged, parsed, summarized, shown and the summary logged. *)
Definition report (line : str) : M world unit :=
  log_callback (text "RAW: " ++ line);;
  parsed_data ← on_objects (parse_all_measurements line);
  is_raw ← on_objects (dict_contains parsed_data "raw");
  log_str ← (if is_raw : bool then
               raw ← on_objects (getitem parsed_data "raw");
               concat_value (text "Raw Data: ") raw
             else summarize parsed_data);
  has_main ← on_objects (dict_contains parsed_data "main_value");
  (if has_main : bool then
     v ← on_objects (getitem parsed_data "main_value");
     match v with
     | VNone => mret ()
     | _ => update_callback v
     end
   else mret ());;
  log_callback log_str.

(** The CSV part:
<<
    if self.logging_enabled:
        if self.csv_file is None and self.csv_path: ...
        if self.csv_file: ...
>> *)
Definition log_to_csv (ev : env) : M world unit :=
  enabled ← gets (λ w, logging_enabled (self w));
  if enabled : bool then
    open_on_demand ev;;
    f ← gets (λ w, csv_file (self w));
    match f with
    | Some _ => write_csv_line ev
    | None => mret ()
    end
  else mret ().

Definition handle_line (ev : env) (line : str) : M world unit :=
  report line;;
  log_to_csv ev.

(** The statements under [try:] in the loop. *)
Definition poll (ev : env) : M world unit :=
  n ← call (in_waiting ev);
  if 0 <? n then
    decoded ← call (readline_decoded ev);
    let line := strip decoded in
    match line with
    | [] => mret ()
    | _ :: _ => handle_line ev line
    end
  else mret ().

(** One pass: [try: ... except Exception as e: print(...)], then the
    sleep. *)
Definition pass (ev : env) : M world unit :=
  try_except (poll ev) Exception
    (λ e, print (text "Error in serial reading: " ++ exn_str e)).

(** The statements after the loop. *)
Definition finish : M world unit :=
  f ← gets (λ w, csv_file (self w));
  match f with
  | Some _ => csv_close
  | None => mret ()
  end.

(** What the other thread does to the reader between two passes. *)
Inductive request :=
| Stop
| SetLogging (enabled : bool) (path : option str).

Definition serve (q : request) : M world unit :=
  match q with
  | Stop => stop
  | SetLogging enabled path => set_logging enabled path
  end.

Fixpoint serve_all (qs : list request) (w : world) : world :=
  match qs with
  | [] => w
  | q :: qs' => serve_all qs' (snd (serve q w))
  end.

(** One turn of the schedule: the requests that arrive before the loop
    tests its condition, and the environment of the pass that follows. *)
Record tick := Tick { requests : list request; environment : env }.

(** How [run] stands when the schedule ends: returned (normally or by an
    exception that escaped), or still in the loop. *)
Inductive outcome :=
| Returned (r : result ()) (w : world)
| Looping (w : world).

Fixpoint run (schedule : list tick) (w : world) : outcome :=
  match schedule with
  | [] => Looping w
  | t :: schedule' =>
      let w := serve_all (requests t) w in
      if stop_event (self w) then
        let '(r, w') := finish w in Returned r w'
      else
        match pass (environment t) w with
        | (Ok _, w') => run schedule' w'
        | (Raise e, w') => Returned (Raise e) w'
        end
  end.

(** ** The reading a call returns, in closed form

    Definitions used to state the properties below: the value and the
    unit that the block for one measurement stores, the cut a separator
    makes, and the dict that [parse_all_measurements] leaves behind. *)

Definition measured_value (s : str) : value :=
  match search main_regex s with
  | Some m =>
      match groups m !! 1%nat with
      | Some g =>
          match float_of_str g with
          | Ok x => VFloat x
          | Raise _ => VNone
          end
      | None => VNone
      end
  | None => VNone
  end.

Definition measured_unit (s : str) : value :=
  match search main_regex s with
  | Some m => group m 2
  | None => VNone
  end.

(** [s] is [pre ++ sep ++ post] and [sep] occurs at no earlier position. *)
Definition first_cut (sep s pre post : str) : Prop :=
  s = pre ++ sep ++ post ∧
  ∀ j, (j < length pre)%nat → startswith sep (drop j s) = false.

Definition reading (message : str) : gmap string value :=
  match split1 (text "MAIN:") message with
  | [pre_main; post_main] =>
      let aux_part :=
        match split1 (text "AUX:") post_main with
        | [_; aux_part] => Some aux_part
        | _ => None
        end in
      <["low_battery" := VBool (contains (text "LOW BAT") message)]>
      (<["aux_unit" := from_option measured_unit VNone aux_part]>
      (<["aux_value" := from_option measured_value VNone aux_part]>
      (<["main_unit" := measured_unit post_main]>
      (<["main_value" := measured_value post_main]>
      (<["flags" := VList (split (strip pre_main))]> ∅)))))
  | _ => {["raw" := VStr message]}
  end.

(** ** The serial ports

    [list_com_ports] and [extract_device_from_selection]. *)

(** [s.split(sep)] for a non-empty separator: a cut at every occurrence,
    left to right.  [n] bounds the number of cuts; the length of the text
    is enough, each cut taking at least one character. *)
Fixpoint split_cuts (n : nat) (sep s : str) : list str :=
  match n with
  | O => [s]
  | S n' =>
      match find sep s with
      | Some i => take i s :: split_cuts n' sep (drop (i + length sep) s)
      | None => [s]
      end
  end.

Definition split_on (sep s : str) : list str := split_cuts (length s) sep s.

(** What [serial.tools.list_ports.comports()] tells of a port. *)
Record port_info := PortInfo { device : str; description : str; hwid : str }.

(** [list_com_ports()], given the ports that [comports()] returns. *)
Definition list_com_ports (ports : list port_info) : list str :=
  (λ port, device port ++ text " - " ++ description port) <$> ports.

(** [extract_device_from_selection(selection)]; [None] stands for the
    [IndexError] of [[0]] on an empty list. *)
Definition extract_device_from_selection (selection : str) : option str :=
  split_on (text " - ") selection !! 0%nat.

(** ** The window

    [SerialGUI]: the attributes its methods read and assign, the texts
    and states they give to the widgets, the dialogs they show, and the
    rest of the process ([process]): the reader thread's attributes and
    locals, the two callbacks ([append_log] and [update_measurement] post
    to [log_sink] and [display_sink]), the standard output and the
    files. *)

Inductive widget_state := normal | disabled.

Inductive dialog :=
| showerror (title message : str)
| showinfo (title message : str).

(** A [serial.Serial] object: how it was opened, whether it is open and
    the texts whose encoding was written to it. *)
Record serial_port := Serial {
  port : str;
  baudrate : N;
  timeout : N;
  is_open : bool;
  written : list str
}.

Record gui := Gui {
  com_var : str;                        (* self.com_var *)
  combobox_values : list str;           (* self.combobox['values'] *)
  csv_path_var : str;                   (* self.csv_path_var *)
  command_entry : str;                  (* self.command_entry *)
  connect_button_text : str;
  logging_button_text : str;
  logging_button_state : widget_state;
  send_button_state : widget_state;
  serial_conn : option serial_port;     (* self.serial_conn *)
  reader_thread : bool;                 (* self.reader_thread is not None *)
  connected : bool;                     (* self.connected *)
  logging_active : bool;                (* self.logging_active *)
  dialogs : list dialog;                (* messagebox calls, oldest first *)
  destroyed : bool;                     (* self.root.destroy() was called *)
  process : world
}.

Definition set_com_var (x : str) (g : gui) : gui :=
  Gui x (combobox_values g) (csv_path_var g) (command_entry g)
    (connect_button_text g) (logging_button_text g) (logging_button_state g)
    (send_button_state g) (serial_conn g) (reader_thread g) (connected g)
    (logging_active g) (dialogs g) (destroyed g) (process g).
Definition set_combobox_values (x : list str) (g : gui) : gui :=
  Gui (com_var g) x (csv_path_var g) (command_entry g)
    (connect_button_text g) (logging_button_text g) (logging_button_state g)
    (send_button_state g) (serial_conn g) (reader_thread g) (connected g)
    (logging_active g) (dialogs g) (destroyed g) (process g).
Definition set_csv_path_var (x : str) (g : gui) : gui :=
  Gui (com_var g) (combobox_values g) x (command_entry g)
    (connect_button_text g) (logging_button_text g) (logging_button_state g)
    (send_button_state g) (serial_conn g) (reader_thread g) (connected g)
    (logging_active g) (dialogs g) (destroyed g) (process g).
Definition set_command_entry (x : str) (g : gui) : gui :=
  Gui (com_var g) (combobox_values g) (csv_path_var g) x
    (connect_button_text g) (logging_button_text g) (logging_button_state g)
    (send_button_state g) (serial_conn g) (reader_thread g) (connected g)
    (logging_active g) (dialogs g) (destroyed g) (process g).
Definition set_connect_button_text (x : str) (g : gui) : gui :=
  Gui (com_var g) (combobox_values g) (csv_path_var g) (command_entry g)
    x (logging_button_text g) (logging_button_state g)
    (send_button_state g) (serial_conn g) (reader_thread g) (connected g)
    (logging_active g) (dialogs g) (destroyed g) (process g).
Definition set_logging_button_text (x : str) (g : gui) : gui :=
  Gui (com_var g) (combobox_values g) (csv_path_var g) (command_entry g)
    (connect_button_text g) x (logging_button_state g)
    (send_button_state g) (serial_conn g) (reader_thread g) (connected g)
    (logging_active g) (dialogs g) (destroyed g) (process g).
Definition set_logging_button_state (x : widget_state) (g : gui) : gui :=
  Gui (com_var g) (combobox_values g) (csv_path_var g) (command_entry g)
    (connect_button_text g) (logging_button_text g) x
    (send_button_state g) (serial_conn g) (reader_thread g) (connected g)
    (logging_active g) (dialogs g) (destroyed g) (process g).
Definition set_send_button_state (x : widget_state) (g : gui) : gui :=
  Gui (com_var g) (combobox_values g) (csv_path_var g) (command_entry g)
    (connect_button_text g) (logging_button_text g) (logging_button_state g)
    x (serial_conn g) (reader_thread g) (connected g)
    (logging_active g) (dialogs g) (destroyed g) (process g).
Definition set_serial_conn (x : option serial_port) (g : gui) : gui :=
  Gui (com_var g) (combobox_values g) (csv_path_var g) (command_entry g)
    (connect_button_text g) (logging_button_text g) (logging_button_state g)
    (send_button_state g) x (reader_thread g) (connected g)
    (logging_active g) (dialogs g) (destroyed g) (process g).
Definition set_reader_thread (x : bool) (g : gui) : gui :=
  Gui (com_var g) (combobox_values g) (csv_path_var g) (command_entry g)
    (connect_button_text g) (logging_button_text g) (logging_button_state g)
    (send_button_state g) (serial_conn g) x (connected g)
    (logging_active g) (dialogs g) (destroyed g) (process g).
Definition set_connected (x : bool) (g : gui) : gui :=
  Gui (com_var g) (combobox_values g) (csv_path_var g) (command_entry g)
    (connect_button_text g) (logging_button_text g) (logging_button_state g)
    (send_button_state g) (serial_conn g) (reader_thread g) x
    (logging_active g) (dialogs g) (destroyed g) (process g).
Definition set_logging_active (x : bool) (g : gui) : gui :=
  Gui (com_var g) (combobox_values g) (csv_path_var g) (command_entry g)
    (connect_button_text g) (logging_button_text g) (logging_button_state g)
    (send_button_state g) (serial_conn g) (reader_thread g) (connected g)
    x (dialogs g) (destroyed g) (process g).
Definition set_dialogs (x : list dialog) (g : gui) : gui :=
  Gui (com_var g) (combobox_values g) (csv_path_var g) (command_entry g)
    (connect_button_text g) (logging_button_text g) (logging_button_state g)
    (send_button_state g) (serial_conn g) (reader_thread g) (connected g)
    (logging_active g) x (destroyed g) (process g).
Definition set_destroyed (x : bool) (g : gui) : gui :=
  Gui (com_var g) (combobox_values g) (csv_path_var g) (command_entry g)
    (connect_button_text g) (logging_button_text g) (logging_button_state g)
    (send_button_state g) (serial_conn g) (reader_thread g) (connected g)
    (logging_active g) (dialogs g) x (process g).
Definition set_process (x : world) (g : gui) : gui :=
  Gui (com_var g) (combobox_values g) (csv_path_var g) (command_entry g)
    (connect_button_text g) (logging_button_text g) (logging_button_state g)
    (send_button_state g) (serial_conn g) (reader_thread g) (connected g)
    (logging_active g) (dialogs g) (destroyed g) x.

(** A computation of the reader thread's side, run from the window. *)
Definition on_process {A} (c : M world A) : M gui A :=
  λ g, let '(r, w) := c (process g) in (r, set_process w g).

Definition messagebox (d : dialog) : M gui unit :=
  modify (λ g, set_dialogs (dialogs g ++ [d]) g).

(** [self.append_log(text)] posts the text to the log window. *)
Definition append_log (t : str) : M gui unit :=
  on_process (log_callback t).

(** [SerialGUI(root)], with the ports that [comports()] returns and the
    files that exist. *)
Definition SerialGUI (ports : list port_info) (files : gmap str str) : gui :=
  Gui (default [] (list_com_ports ports !! 0%nat)) (list_com_ports ports) [] []
    (text "Connect") (text "Start Logging") disabled disabled
    None false false false [] false (init files).

Definition refresh_com_ports (ports : list port_info) : M gui unit :=
  let ports := list_com_ports ports in
  modify (set_combobox_values ports);;
  match ports with
  | first :: _ => modify (set_com_var first)
  | [] => modify (set_com_var [])
  end.

(** [browse_csv], with the path the file dialog returns (empty when it
    is cancelled). *)
Definition browse_csv (file_path : str) : M gui unit :=
  match file_path with
  | _ :: _ => modify (set_csv_path_var file_path)
  | [] => mret ()
  end.

Definition stop_logging : M gui unit :=
  has_thread ← gets reader_thread;
  (if has_thread : bool then on_process (set_logging false None) else mret ());;
  modify (set_logging_active false);;
  modify (set_logging_button_text (text "Start Logging")).

Definition start_logging : M gui unit :=
  is_connected ← gets connected;
  conn ← gets serial_conn;
  if negb is_connected || bool_decide (conn = None) then
    messagebox (showerror (text "Not Connected")
                  (text "Please connect to a serial port first."))
  else
    csv_path ← gets (λ g, strip (csv_path_var g));
    match csv_path with
    | [] =>
        messagebox (showerror (text "Input Error")
                      (text "Please select a CSV file destination."))
    | _ :: _ =>
        modify (set_logging_active true);;
        modify (set_logging_button_text (text "Stop Logging"));;
        has_thread ← gets reader_thread;
        if has_thread : bool then on_process (set_logging true (Some csv_path))
        else mret ()
    end.

Definition toggle_logging : M gui unit :=
  active ← gets logging_active;
  if active : bool then stop_logging else start_logging.

(** [connect]; [opened] is what [serial.Serial(com_port, 115200,
    timeout=1)] answers.  The thread it starts is a new object: its
    attributes are those of [__init__] and [run] has no local yet.  An
    [IndexError] from [extract_device_from_selection], which a split never
    gives, is stood for by the [KeyError] of the same family. *)
Definition connect (opened : result ()) : M gui unit :=
  selection ← gets com_var;
  match selection with
  | [] =>
      messagebox (showerror (text "Input Error") (text "Please select a COM port."))
  | _ :: _ =>
      match extract_device_from_selection selection with
      | None => raise (KeyError "0")
      | Some com_port =>
          match opened with
          | Raise e =>
              messagebox (showerror (text "Serial Error")
                            (text "Could not open " ++ com_port ++ text ":"
                               ++ newline ++ exn_str e))
          | Ok _ =>
              modify (set_serial_conn (Some (Serial com_port 115200 1 true [])));;
              modify (set_connected true);;
              modify (set_connect_button_text (text "Disconnect"));;
              modify (set_send_button_state normal);;
              modify (set_logging_button_state normal);;
              messagebox (showinfo (text "Connected")
                            (text "Connected to " ++ com_port));;
              on_process (modify (λ w,
                set_locals ∅ (set_self (Thread false false None None) w)));;
              modify (set_reader_thread true)
          end
      end
  end.

(** [disconnect]; [join()] returns once the thread, which tests its flag
    before every pass, has left the loop and run the statements after
    it. *)
Definition disconnect : M gui unit :=
  active ← gets logging_active;
  (if active : bool then stop_logging else mret ());;
  has_thread ← gets reader_thread;
  (if has_thread : bool then
     on_process stop;;
     on_process finish;;
     modify (set_reader_thread false)
   else mret ());;
  conn ← gets serial_conn;
  (match conn with
   | Some c =>
       if is_open c then
         modify (set_serial_conn
                   (Some (Serial (port c) (baudrate c) (timeout c) false (written c))))
       else mret ()
   | None => mret ()
   end);;
  modify (set_serial_conn None);;
  modify (set_connected false);;
  modify (set_connect_button_text (text "Connect"));;
  modify (set_logging_button_state disabled);;
  modify (set_send_button_state disabled);;
  messagebox (showinfo (text "Disconnected") (text "Serial connection closed.")).

Definition toggle_connection (opened : result ()) : M gui unit :=
  is_connected ← gets connected;
  if is_connected : bool then disconnect else connect opened.

(** [send_command]; [sent] is what [serial_conn.write] answers when it is
    called. *)
Definition send_command (sent : result ()) : M gui unit :=
  command ← gets (λ g, strip (command_entry g));
  match command with
  | [] =>
      messagebox (showerror (text "Input Error")
                    (text "Please enter a command to send."))
  | _ :: _ =>
      conn ← gets serial_conn;
      (match conn with
       | Some c =>
           if is_open c then
             try_except
               (call sent;;
                modify (set_serial_conn
                          (Some (Serial (port c) (baudrate c) (timeout c) true
                                   (written c ++ [command ++ newline])))))
               Exception
               (λ e, on_process (print (text "Error sending command: " ++ exn_str e)))
           else
             messagebox (showerror (text "Not Connected")
                           (text "Serial connection is not active."))
       | None =>
           messagebox (showerror (text "Not Connected")
                         (text "Serial connection is not active."))
       end);;
      append_log (text "Sent: " ++ command);;
      modify (set_command_entry [])
  end.

Definition on_closing : M gui unit :=
  active ← gets logging_active;
  (if active : bool then stop_logging else mret ());;
  is_connected ← gets connected;
  (if is_connected : bool then disconnect else mret ());;
  modify (set_destroyed true).

(** What happens to the window and to the thread it started: the user's
    actions, with the answers of the environment they need, and the
    passes of the reader thread. *)
Inductive action :=
| ToggleConnection (opened : result ())
| ToggleLogging
| SendCommand (sent : result ())
| RefreshComPorts (ports : list port_info)
| BrowseCsv (file_path : str)
| OnClosing
| SelectPort (i : nat)
| TypeCsvPath (s : str)
| TypeCommand (s : str)
| ReaderPass (ev : env).

Definition perform (a : action) : M gui unit :=
  match a with
  | ToggleConnection opened => toggle_connection opened
  | ToggleLogging => toggle_logging
  | SendCommand sent => send_command sent
  | RefreshComPorts ports => refresh_com_ports ports
  | BrowseCsv file_path => browse_csv file_path
  | OnClosing => on_closing
  | SelectPort i =>
      values ← gets combobox_values;
      match values !! i with
      | Some s => modify (set_com_var s)
      | None => mret ()
      end
  | TypeCsvPath s => modify (set_csv_path_var s)
  | TypeCommand s => modify (set_command_entry s)
  | ReaderPass ev =>
      has_thread ← gets reader_thread;
      if has_thread : bool then on_process (pass ev) else mret ()
  end.

(** The window after a sequence of actions. *)
Fixpoint session (actions : list action) (g : gui) : gui :=
  match actions with
  | [] => g
  | a :: actions' => session actions' (snd (perform a g))
  end.

(** ** Notions used in the statements *)

(** The two shapes of a reading. *)
Definition structured (d : gmap string value) : Prop :=
  is_Some (d !! "flags") ∧ is_Some (d !! "main_value") ∧ d !! "raw" = None.

Definition raw_only (d : gmap string value) : Prop :=
  is_Some (d !! "raw") ∧ ∀ key, key ≠ "raw" → d !! key = None.

(** The text left after the match of the main value and unit. *)
Definition remaining_after_main (post_main : str) : str :=
  match search main_regex post_main with
  | Some m => after m
  | None => post_main
  end.

(** C2 as the specification words it: the auxiliary fields are decided by
    the text that remains after the main match. *)
Definition aux_from_remaining (message : str) : Prop :=
  ∀ pre post d h,
    first_cut (text "MAIN:") message pre post →
    parse_all_measurements message h = (Ok (length h), h ++ [d]) →
    let rest := remaining_after_main post in
    (contains (text "AUX:") rest = false →
       d !! "aux_value" = Some VNone ∧ d !! "aux_unit" = Some VNone) ∧
    (∀ skipped aux_part, first_cut (text "AUX:") rest skipped aux_part →
       d !! "aux_value" = Some (measured_value aux_part) ∧
       d !! "aux_unit" = Some (measured_unit aux_part)).


(** The groups every match of [r] sets. *)
Fixpoint sets_group (r : regex) (n : nat) : bool :=
  match r with
  | Class _ | Star _ | Plus _ | Opt _ => false
  | Cat r1 r2 => sets_group r1 n || sets_group r2 n
  | Group m r1 => bool_decide (m = n) || sets_group r1 n
  end.

(** The row the specification describes for a reading taken at [ts]:
    timestamp, quoted flags, main value, quoted main unit, aux value,
    quoted aux unit, battery status; a missing value is an empty field. *)
Definition flags_field (d : gmap string value) : str :=
  match d !! "flags" with
  | Some (VList l) => join (text " ") l
  | _ => []
  end.

Definition number_field (v : option value) : str :=
  match v with
  | Some (VFloat x) => float_repr x
  | _ => []
  end.

Definition unit_field (v : option value) : str :=
  match v with
  | Some (VStr s) => s
  | _ => []
  end.

Definition battery_field (d : gmap string value) : str :=
  match d !! "low_battery" with
  | Some (VBool true) => text "LOW BAT"
  | _ => text "OK"
  end.

Definition csv_row (ts : str) (d : gmap string value) : str :=
  ts ++ text "," ++ dquote ++ flags_field d ++ dquote ++ text ","
     ++ number_field (d !! "main_value") ++ text ","
     ++ dquote ++ unit_field (d !! "main_unit") ++ dquote ++ text ","
     ++ number_field (d !! "aux_value") ++ text ","
     ++ dquote ++ unit_field (d !! "aux_unit") ++ dquote ++ text ","
     ++ battery_field d ++ newline.

(** The six locals of [run] after a structured reading [d]. *)
Definition line_locals (d l : gmap string value) : gmap string value :=
  <["battery_str" :=
      VStr (if truthy (default VNone (d !! "low_battery"))
            then text "LOW BAT" else text "OK")]>
  (<["aux_unit" := or_else (default VNone (d !! "aux_unit")) (VStr [])]>
  (<["aux_val" := default VNone (d !! "aux_value")]>
  (<["main_unit" := or_else (default VNone (d !! "main_unit")) (VStr [])]>
  (<["main_val" := default VNone (d !! "main_value")]>
  (<["flags_str" := VStr (flags_field d)]> l))))).

(** The log file is open with nothing unflushed, or absent. *)
Definition file_settled (w : world) : Prop :=
  match csv_file (self w) with
  | Some f => f_closed f = false ∧ f_buffer f = []
  | None => True
  end.

(** A file at [path] is open with nothing unflushed, or none is open, a
    non-empty path is stored and the environment lets it be opened. *)
Definition log_file_ready (ev : env) (w : world) (path : str) : Prop :=
  csv_file (self w) = Some (File path false []) ∨
  (csv_file (self w) = None ∧ csv_path (self w) = Some path ∧
   path ≠ [] ∧ open_append ev path = Ok ()).

(** A computation keeps a property of the world, whether it returns or
    raises. *)
Definition preserves {A} (P : world → Prop) (c : M world A) : Prop :=
  ∀ w, P w → P (snd (c w)).

(** [runs c s a s']: from [s] the computation returns [a] and leaves [s']. *)
Definition runs {S A} (c : M S A) (s : S) (a : A) (s' : S) : Prop :=
  c s = (Ok a, s').


(** C1 as the specification words it: with logging enabled, every
    non-empty line has its own row appended to a log file. *)
Definition every_line_logged (ev : env) (w : world) : Prop :=
  ∀ n decoded,
    in_waiting ev = Ok n → (0 <? n) = true →
    readline_decoded ev = Ok decoded → strip decoded ≠ [] →
    logging_enabled (self w) = true →
    ∃ w' path d,
      pass ev w = (Ok (), w') ∧
      parse_all_measurements (strip decoded) (objects w)
        = (Ok (length (objects w)), objects w ++ [d]) ∧
      disk w' = append_to path (csv_row (strftime ev) d) (disk w).

(** The other thread calls [stop] during this turn. *)
Definition stop_requested (t : tick) : bool :=
  existsb (λ q, match q with Stop => true | SetLogging _ _ => false end)
    (requests t).

(** A turn in which the other thread at most calls [set_logging(True, _)]. *)
Definition logging_left_on (t : tick) : bool :=
  forallb (λ q, match q with SetLogging true _ => true | _ => false end)
    (requests t).

(** The flags and the stored path are out of reach of a pass: it only
    ever assigns [self.csv_file]. *)
Definition same_flags (t : thread) (w : world) : Prop :=
  stop_event (self w) = stop_event t ∧
  logging_enabled (self w) = logging_enabled t ∧
  csv_path (self w) = csv_path t.


(** No unit token follows: the text is blanks and then nothing or a
    character that is neither a blank nor of the unit class, and it does
    not begin with a point and a digit (which would make the number a
    decimal one).  No blank is of the unit class, in Unicode. *)
Definition no_unit_follows (rest : str) : Prop :=
  (∃ blanks tail,
     rest = blanks ++ tail ∧
     Forall (λ c, isspace c = true ∧ isunit c = false) blanks ∧
     match tail with
     | [] => True
     | c :: _ => isspace c = false ∧ isunit c = false
     end) ∧
  ¬ (∃ c t, rest = 46%N :: c :: t ∧ isdecimal c = true).

(** A sign as the pattern allows it: none, [+] or [-]. *)
Definition optional_sign (sign : str) : Prop :=
  sign = [] ∨ sign = text "+" ∨ sign = text "-".


(** ** Sample inputs

    Tables of an interpreter that classifies no character above U+007F,
    stand-ins for the two printers, and a few worlds and environments,
    for the worked examples. *)

Definition no_class : N → bool := λ _, false.
Definition no_digit : N → option N := λ _, None.
Definition sample_float_repr : spec_float → str := λ _, text "<float>".
Definition sample_list_repr : list str → str := λ _, text "<list>".

Definition sample_time : str := text "2024-05-01 10:00:00".
Definition sample_path : str := text "/tmp/log.csv".

(** Logging was switched on with [sample_path]; no file is open yet. *)
Definition world_enabled : world :=
  World [] (Thread false true None (Some sample_path)) ∅ [] [] [] ∅.

(** Logging is on and the file at [sample_path] is open. *)
Definition world_open : world :=
  World [] (Thread false true (Some (File sample_path false [])) (Some sample_path))
    ∅ [] [] [] {[ sample_path := [] ]}.

(** A line arrives; the file system lets any file be opened. *)
Definition env_line (line : string) : env :=
  Env (Ok 1) (Ok (text line)) (λ _, Ok ()) sample_time.

(** A line arrives; opening a file is refused. *)
Definition env_line_denied (line : string) : env :=
  Env (Ok 1) (Ok (text line)) (λ _, Raise (OSError (text "Permission denied")))
    sample_time.

(** The serial port fails. *)
Definition env_port_error : env :=
  Env (Raise (SerialException (text "device disconnected")))
    (Raise (SerialException (text "device disconnected"))) (λ _, Ok ()) sample_time.

(** ** Notions used in the further properties *)

(** The language of a pattern, the groups it mentions and the body of a
    group that every match sets. *)
Fixpoint lang (r : regex) (t : str) : Prop :=
  match r with
  | Class p => ∃ c, t = [c] ∧ p c = true
  | Star p => Forall (λ c, p c = true) t
  | Plus p => t ≠ [] ∧ Forall (λ c, p c = true) t
  | Opt r1 => t = [] ∨ lang r1 t
  | Cat r1 r2 => ∃ t1 t2, t = t1 ++ t2 ∧ lang r1 t1 ∧ lang r2 t2
  | Group _ r1 => lang r1 t
  end.

Fixpoint mentions (r : regex) (n : nat) : bool :=
  match r with
  | Class _ | Star _ | Plus _ => false
  | Opt r1 => mentions r1 n
  | Cat r1 r2 => mentions r1 n || mentions r2 n
  | Group m r1 => bool_decide (m = n) || mentions r1 n
  end.

Fixpoint group_body (r : regex) (n : nat) : option regex :=
  match r with
  | Class _ | Star _ | Plus _ | Opt _ => None
  | Cat r1 r2 =>
      match group_body r2 n with
      | Some b => Some b
      | None => if mentions r2 n then None else group_body r1 n
      end
  | Group m r1 => if bool_decide (m = n) then Some r1 else group_body r1 n
  end.

(** A value and its unit as a reading holds them: both missing, or a
    float with a non-empty unit made of unit characters. *)
Definition measurement_shape (v u : option value) : Prop :=
  (v = Some VNone ∧ u = Some VNone) ∨
  (∃ x t, v = Some (VFloat x) ∧ u = Some (VStr t) ∧
          t ≠ [] ∧ Forall (λ c, isunit c = true) t).

(** A flag: a non-empty text without whitespace. *)
Definition token (t : str) : Prop :=
  t ≠ [] ∧ Forall (λ c, isspace c = false) t.

(** The summary that the loop gives to [log_callback] for a line: a
    missing value reads [None], a missing unit is empty. *)
Definition summary (line : str) : str :=
  if contains (text "MAIN:") line then
    let d := reading line in
    text "Flags: [" ++ flags_field d ++ text "] | "
      ++ text "MAIN: " ++ format_value (default VNone (d !! "main_value"))
      ++ text " " ++ unit_field (d !! "main_unit") ++ text " | "
      ++ text "AUX: " ++ format_value (default VNone (d !! "aux_value"))
      ++ text " " ++ unit_field (d !! "aux_unit") ++ text " | "
      ++ text "Battery: " ++ battery_field d
  else text "Raw Data: " ++ line.

(** What the loop passes to [update_callback] for a line. *)
Definition shown (line : str) : list value :=
  match reading line !! "main_value" with
  | Some (VFloat x) => [VFloat x]
  | _ => []
  end.

(** What a pass prints when an exception reaches its handler. *)
Definition reading_error (e : exn) : str :=
  text "Error in serial reading: " ++ exn_str e.

(** Every file of [d0] is still there in [d], with its old content as a
    prefix of the new one. *)
Definition extends (d0 d : gmap str str) : Prop :=
  ∀ p old, d0 !! p = Some old → ∃ more, d !! p = Some (old ++ more).

(** The world in which a run stands at the end of the schedule. *)
Definition final_world (o : outcome) : world :=
  match o with
  | Returned _ w => w
  | Looping w => w
  end.

(** The parts of the world that the CSV part of a pass never assigns. *)
Definition same_rest (w0 w : world) : Prop :=
  objects w = objects w0 ∧ locals w = locals w0 ∧
  display_sink w = display_sink w0 ∧ stdout w = stdout w0.

(** What the CSV part tells [log_callback]: the error of an open that
    was tried and refused, nothing otherwise. *)
Definition open_errors (ev : env) (w : world) : list str :=
  match logging_enabled (self w), csv_file (self w), csv_path (self w) with
  | true, None, Some (c :: path) =>
      match open_append ev (c :: path) with
      | Raise e => [text "CSV Open Error: " ++ exn_str e]
      | Ok _ => []
      end
  | _, _, _ => []
  end.

(** A request that names [p] as the path of the log file. *)
Definition names_path (p : str) (q : request) : bool :=
  match q with
  | SetLogging true (Some p') => bool_decide (p' = p)
  | _ => false
  end.


(** ** Notions about the window *)

(** The buttons show the state: the texts follow [connected] and
    [logging_active], and the two buttons that need a connection are
    enabled exactly while there is one. *)
Definition widgets_agree (g : gui) : Prop :=
  connect_button_text g
    = (if connected g then text "Disconnect" else text "Connect") ∧
  logging_button_text g
    = (if logging_active g then text "Stop Logging" else text "Start Logging") ∧
  logging_button_state g = (if connected g then normal else disabled) ∧
  send_button_state g = (if connected g then normal else disabled).

(** [connected] means: a port opened at 115200 baud with a timeout of one
    second, still open, and a reader thread; logging is active only while
    connected. *)
Definition connection_agrees (g : gui) : Prop :=
  reader_thread g = connected g ∧
  (if connected g then
     ∃ c, serial_conn g = Some c ∧ is_open c = true ∧
          baudrate c = 115200%N ∧ timeout c = 1%N
   else serial_conn g = None) ∧
  (logging_active g = true → connected g = true).

(** The thread's flags follow the window: it is not asked to stop, it
    logs exactly while [logging_active], and then to a non-empty path. *)
Definition thread_agrees (g : gui) : Prop :=
  reader_thread g = true →
  stop_event (self (process g)) = false ∧
  logging_enabled (self (process g)) = logging_active g ∧
  (logging_active g = true →
   ∃ p, csv_path (self (process g)) = Some p ∧ p ≠ []).

(** An open log file is the one at the stored path, with nothing
    unflushed. *)
Definition file_at_path (w : world) : Prop :=
  match csv_file (self w) with
  | Some f =>
      f_closed f = false ∧ f_buffer f = [] ∧ csv_path (self w) = Some (f_name f)
  | None => True
  end.

(** A log file is held only by a running thread while logging is active,
    and then it is the file at the stored path. *)
Definition log_file_agrees (g : gui) : Prop :=
  file_at_path (process g) ∧
  (csv_file (self (process g)) ≠ None →
   reader_thread g = true ∧ logging_active g = true).

Definition window_invariant (g : gui) : Prop :=
  widgets_agree g ∧ connection_agrees g ∧ thread_agrees g ∧ log_file_agrees g.

(** The window after [on_closing]: nothing connected, nothing logging,
    no thread, no open file. *)
Definition closed_down (g : gui) : Prop :=
  destroyed g = true ∧ connected g = false ∧ logging_active g = false ∧
  reader_thread g = false ∧ serial_conn g = None ∧
  csv_file (self (process g)) = None.

(** The texts written to the port so far. *)
Definition sent_so_far (g : gui) : list str :=
  match serial_conn g with
  | Some c => written c
  | None => []
  end.

(** The device a selection names: the text before its first [" - "]. *)
Definition selected_device (selection : str) : str :=
  match find (text " - ") selection with
  | Some i => take i selection
  | None => selection
  end.

(** The dialog with which [start_logging] refuses. *)
Definition logging_refusal (g : gui) : dialog :=
  match connected g, serial_conn g with
  | true, Some _ =>
      showerror (text "Input Error") (text "Please select a CSV file destination.")
  | _, _ =>
      showerror (text "Not Connected") (text "Please connect to a serial port first.")
  end.

(** ** Further sample inputs *)

Definition sample_line : str := text "AUTO MAIN: -3.2 mV AUX: 100 Hz LOW BAT".

Definition sample_port_info : port_info :=
  PortInfo (text "COM3") (text "USB Serial Port") (text "USB VID:PID=0403:6001").

(** Nothing waits on the port. *)
Definition env_idle : env := Env (Ok 0) (Ok []) (λ _, Ok ()) sample_time.

(** Logging was switched on without a path. *)
Definition world_no_path : world :=
  World [] (Thread false true None None) ∅ [] [] [] ∅.

(** One turn of the loop in which a structured line arrives and the other
    thread asks for nothing. *)
Definition quiet_turn : list tick := [Tick [] (env_line "MAIN: 12.5 V DC")].

(** The user connects and types a path, with blanks around it. *)
Definition actions_ready : list action :=
  [ToggleConnection (Ok ()); TypeCsvPath (text " /tmp/log.csv ")].

(** A window that is not connected, with a command typed. *)
Definition window_with_command : gui :=
  set_command_entry (text " READ? ") (SerialGUI [sample_port_info] ∅).

(** The same with an open port. *)
Definition window_with_port : gui :=
  set_serial_conn (Some (Serial (text "COM3") 115200 1 true []))
    (set_connected true window_with_command).

(** ** Text lemmas *)

Lemma startswith_app (p t : str) : startswith p (p ++ t) = true.
Proof.
  induction p as [|a p IH]; simpl; [done|].
  by rewrite N.eqb_refl, IH.
Qed.

Lemma startswith_inv (p s : str) :
  startswith p s = true → ∃ t, s = p ++ t.
Proof.
  revert s. induction p as [|a p IH]; intros s H; simpl in *.
  - by exists s.
  - destruct s as [|b s]; [done|].
    apply andb_true_iff in H as [Hab H].
    apply N.eqb_eq in Hab as ->.
    destruct (IH _ H) as [t ->]. by exists t.
Qed.

Lemma find_first_cut (sep s : str) (i : nat) :
  find sep s = Some i →
  first_cut sep s (take i s) (drop (i + length sep) s).
Proof.
  revert i. induction s as [|c s IH]; intros i; simpl.
  - destruct (startswith sep []) eqn:E; [|done].
    intros [= <-]. destruct sep; [|done]. split; [done|]. simpl. lia.
  - destruct (startswith sep (c :: s)) eqn:E.
    + intros [= <-]. simpl. split; [|simpl; lia].
      destruct (startswith_inv _ _ E) as [t Ht]. rewrite Ht.
      by rewrite drop_app_length.
    + destruct (find sep s) as [i'|] eqn:F; [|done].
      intros [= <-]. destruct (IH i' eq_refl) as [Hs Hj].
      split.
      * simpl. by rewrite <- Hs.
      * intros [|j] Hlt; simpl in *; [done|]. apply Hj. lia.
Qed.

Lemma find_here (sep s : str) :
  startswith sep s = true → find sep s = Some 0%nat.
Proof. intros H. destruct s; simpl; by rewrite H. Qed.

Lemma first_cut_find (sep s pre post : str) :
  first_cut sep s pre post → find sep s = Some (length pre).
Proof.
  intros [-> Hj]. induction pre as [|c pre IH]; simpl.
  - apply find_here, startswith_app.
  - pose proof (Hj 0%nat ltac:(simpl; lia)) as H0. simpl in H0.
    rewrite H0, IH; [done|].
    intros j Hlt. apply (Hj (S j)). simpl. lia.
Qed.

Lemma split1_first_cut (sep s pre post : str) :
  first_cut sep s pre post → split1 sep s = [pre; post].
Proof.
  intros H. unfold split1. rewrite (first_cut_find _ _ _ _ H).
  destruct H as [-> _].
  rewrite take_app_length. rewrite app_assoc, <- length_app.
  by rewrite drop_app_length.
Qed.

Lemma contains_split1 (sep s : str) :
  contains sep s = true →
  ∃ pre post, first_cut sep s pre post ∧ split1 sep s = [pre; post].
Proof.
  unfold contains, split1. destruct (find sep s) as [i|] eqn:F; [|done].
  intros _. eexists _, _. split; [by apply find_first_cut|done].
Qed.

Lemma not_contains_split1 (sep s : str) :
  contains sep s = false → split1 sep s = [s].
Proof.
  unfold contains, split1. by destruct (find sep s).
Qed.

(** ** The matcher sets its groups *)

Lemma star_match_inv {A} (p : N → bool) (s : str) (k : str → option A) (x : A) :
  star_match p s k = Some x → ∃ s', k s' = Some x.
Proof.
  induction s as [|c s IH]; simpl; [by eauto|].
  destruct (p c); [|by eauto].
  destruct (star_match p s k) eqn:E; [|by eauto].
  intros [= <-]. by apply IH.
Qed.

Lemma re_match_inv {A} (r : regex) (s : str) (g : gmap nat str)
    (k : str → gmap nat str → option A) (x : A) :
  re_match r s g k = Some x →
  ∃ s' g', k s' g' = Some x ∧
    (∀ n, is_Some (g !! n) → is_Some (g' !! n)) ∧
    (∀ n, sets_group r n = true → is_Some (g' !! n)).
Proof.
  revert s g k. induction r as [p|p|p|r IH|r1 IH1 r2 IH2|m r IH]; intros s g k; simpl.
  - destruct s as [|c s]; [done|]. destruct (p c); [|done].
    intros H. by exists s, g.
  - intros H. apply star_match_inv in H as [s' H]. by exists s', g.
  - destruct s as [|c s]; [done|]. destruct (p c); [|done].
    intros H. apply star_match_inv in H as [s' H]. by exists s', g.
  - destruct (re_match r s g k) eqn:E.
    + intros [= <-]. apply IH in E as (s' & g' & ? & ? & _). by exists s', g'.
    + intros H. by exists s, g.
  - intros H. apply IH1 in H as (s1 & g1 & H & Hg1 & Hr1).
    apply IH2 in H as (s2 & g2 & H & Hg2 & Hr2).
    exists s2, g2. split_and!; [done|by auto|].
    intros n [?|?]%orb_true_iff; by auto.
  - intros H. apply IH in H as (s1 & g1 & H & Hg1 & Hr1).
    eexists _, _. split; [exact H|]. split.
    + intros n Hn. destruct (decide (m = n)) as [->|Hne].
      * rewrite lookup_insert_eq. by eauto.
      * rewrite lookup_insert_ne by done. by auto.
    + intros n [Hn|Hn]%orb_true_iff.
      * apply bool_decide_eq_true in Hn as ->. rewrite lookup_insert_eq. by eauto.
      * destruct (decide (m = n)) as [->|Hne].
        -- rewrite lookup_insert_eq. by eauto.
        -- rewrite lookup_insert_ne by done. by auto.
Qed.

Lemma search_groups (r : regex) (s : str) (m : match_obj) (n : nat) :
  search r s = Some m → sets_group r n = true → is_Some (groups m !! n).
Proof.
  induction s as [|c s IH]; simpl.
  - destruct (re_match r [] ∅ _) eqn:E; [|done].
    intros [= <-] Hn. apply re_match_inv in E as (s' & g' & [= <-] & _ & H).
    by apply H.
  - destruct (re_match r (c :: s) ∅ _) eqn:E; [|by auto].
    intros [= <-] Hn. apply re_match_inv in E as (s' & g' & [= <-] & _ & H).
    by apply H.
Qed.

(** ** The parser, run on any store *)

Lemma setitem_last (h : heap) (d : gmap string value) (key : string) (v : value) :
  setitem (length h) key v (h ++ [d]) = (Ok (), h ++ [<[key := v]> d]).
Proof.
  unfold setitem. rewrite list_lookup_middle by done.
  f_equal. rewrite <- (Nat.add_0_r (length h)) at 1.
  by rewrite insert_app_r.
Qed.

Lemma store_measurement_last (h : heap) (d : gmap string value)
    (value_key unit_key : string) (s : str) :
  store_measurement (length h) value_key unit_key (search main_regex s) (h ++ [d])
  = (Ok (), h ++ [<[unit_key := measured_unit s]> (<[value_key := measured_value s]> d)]).
Proof.
  unfold store_measurement, measured_unit, measured_value.
  destruct (search main_regex s) as [m|] eqn:E.
  - destruct (search_groups _ _ _ 1%nat E eq_refl) as [g1 Hg1].
    unfold mbind, M_bind, bind, try_except, float, group. rewrite Hg1.
    destruct (float_of_str g1) as [x|e] eqn:F.
    + by rewrite !setitem_last.
    + assert (is_ValueError e = true) as ->.
      { unfold float_of_str in F. repeat case_match; by simplify_eq. }
      by rewrite !setitem_last.
  - unfold mbind, M_bind, bind. by rewrite !setitem_last.
Qed.

(** A call allocates one dict, fills it with [reading message] and returns
    it; nothing else in the store changes and nothing is raised. *)
Lemma parse_reading (message : str) (h : heap) :
  parse_all_measurements message h = (Ok (length h), h ++ [reading message]).
Proof.
  unfold parse_all_measurements, reading, new_dict, mbind, M_bind, bind, mret, M_ret, ret.
  destruct (contains (text "MAIN:") message) eqn:C.
  - destruct (contains_split1 _ _ C) as (pre & post & _ & ->). simpl.
    rewrite setitem_last, store_measurement_last.
    destruct (contains (text "AUX:") post) eqn:C2.
    + destruct (contains_split1 _ _ C2) as (skipped & aux_part & _ & ->). simpl.
      by rewrite store_measurement_last, setitem_last.
    + rewrite (not_contains_split1 _ _ C2). simpl.
      by rewrite !setitem_last.
  - rewrite (not_contains_split1 _ _ C). by rewrite setitem_last.
Qed.

(** ** Properties of the parser *)

Lemma reading_structured (message : str) :
  contains (text "MAIN:") message = true → structured (reading message).
Proof.
  intros C. unfold reading.
  destruct (contains_split1 _ _ C) as (pre & post & _ & ->).
  split_and!; by simplify_map_eq.
Qed.

Lemma reading_raw (message : str) :
  contains (text "MAIN:") message = false →
  reading message = {["raw" := VStr message]}.
Proof. intros C. unfold reading. by rewrite (not_contains_split1 _ _ C). Qed.

(** C4: whatever the line, the dict a call returns is structured (the
    keys [flags] and [main_value] present, [raw] absent) or raw ([raw]
    present, every other key absent), and never both. *)
Theorem parsed_is_structured_or_raw (message : str) (h : heap) :
  ∃ d, parse_all_measurements message h = (Ok (length h), h ++ [d]) ∧
       (structured d ∨ raw_only d) ∧ ¬ (structured d ∧ raw_only d).
Proof.
  exists (reading message). split; [apply parse_reading|]. split.
  - destruct (contains (text "MAIN:") message) eqn:C.
    + left. by apply reading_structured.
    + right. rewrite (reading_raw _ C). split.
      * rewrite lookup_singleton_eq. by eauto.
      * intros key Hkey. by rewrite lookup_singleton_ne.
  - intros [(_ & _ & Hraw) [[v Hv] _]]. congruence.
Qed.

(** C7: a line without the token [MAIN:] comes back as a dict whose [raw]
    entry is the line itself, unchanged, and which has no other entry. *)
Theorem no_main_gives_raw (message : str) (h : heap) :
  contains (text "MAIN:") message = false →
  ∃ d, parse_all_measurements message h = (Ok (length h), h ++ [d]) ∧
       d !! "raw" = Some (VStr message) ∧
       ∀ key, key ≠ "raw" → d !! key = None.
Proof.
  intros C. exists (reading message). split; [apply parse_reading|].
  rewrite (reading_raw _ C). split.
  - apply lookup_singleton_eq.
  - intros key Hkey. by apply lookup_singleton_ne.
Qed.

(** C8: the outcome of a call is a function of the line alone.  From any
    two stores the call returns a dict with the same content; called
    twice in a row it returns two dicts, both holding that content after
    the second call. *)
Theorem parse_twice_identical (message : str) (h h' : heap) :
  ∃ d r1 h1 r2 h2,
    parse_all_measurements message h = (Ok r1, h1) ∧
    parse_all_measurements message h1 = (Ok r2, h2) ∧
    r1 ≠ r2 ∧ h2 !! r1 = Some d ∧ h2 !! r2 = Some d ∧
    ∃ r' h1', parse_all_measurements message h' = (Ok r', h1') ∧ h1' !! r' = Some d.
Proof.
  exists (reading message), (length h), (h ++ [reading message]),
    (length (h ++ [reading message])), ((h ++ [reading message]) ++ [reading message]).
  split_and!; try apply parse_reading.
  - rewrite length_app. simpl. lia.
  - rewrite lookup_app_l by (rewrite length_app; simpl; lia).
    by apply list_lookup_middle.
  - by apply list_lookup_middle.
  - eexists _, _. split; [apply parse_reading|]. by apply list_lookup_middle.
Qed.

(** C6: the worked example with flags, both channels and the battery
    marker.  [-3.2] is the binary64 [-7205759403792794 * 2^-51] and [100]
    is [7036874417766400 * 2^-46]. *)
Theorem parse_example_full (h : heap) :
  ∃ d, parse_all_measurements (text "AUTO MAIN: -3.2 mV AUX: 100 Hz LOW BAT") h
         = (Ok (length h), h ++ [d]) ∧
       d !! "flags" = Some (VList [text "AUTO"]) ∧
       d !! "main_value" = Some (VFloat (S754_finite true 7205759403792794 (-51))) ∧
       d !! "main_unit" = Some (VStr (text "mV")) ∧
       d !! "aux_value" = Some (VFloat (S754_finite false 7036874417766400 (-46))) ∧
       d !! "aux_unit" = Some (VStr (text "Hz")) ∧
       d !! "low_battery" = Some (VBool true).
Proof.
  eexists. split; [apply parse_reading|].
  split_and!; by vm_compute.
Qed.

(** The two floats of the example are the doubles of [-3.2] and [100]:
    the first is within half a unit in the last place of [-32/10], the
    second is exact. *)
Lemma example_floats :
  binary64_of_decimal true 32 1 = S754_finite true 7205759403792794 (-51) ∧
  (2 * Z.abs (10 * 7205759403792794 - 32 * 2 ^ 51) ≤ 10)%Z ∧
  binary64_of_decimal false 100 0 = S754_finite false 7036874417766400 (-46) ∧
  (7036874417766400 = 100 * 2 ^ 46)%Z.
Proof. split_and!; by vm_compute. Qed.

(** C2, amended: for a line that contains [MAIN:], with [post] the text
    after its first [MAIN:], the main fields are the extraction on [post];
    the auxiliary fields are the same extraction on the text after the
    first [AUX:] of [post] when [post] contains [AUX:], and [None]
    otherwise. *)
Theorem aux_from_text_after_main (message : str) (h : heap) :
  contains (text "MAIN:") message = true →
  ∃ pre post d,
    first_cut (text "MAIN:") message pre post ∧
    parse_all_measurements message h = (Ok (length h), h ++ [d]) ∧
    d !! "main_value" = Some (measured_value post) ∧
    d !! "main_unit" = Some (measured_unit post) ∧
    (contains (text "AUX:") post = false →
       d !! "aux_value" = Some VNone ∧ d !! "aux_unit" = Some VNone) ∧
    (∀ skipped aux_part, first_cut (text "AUX:") post skipped aux_part →
       d !! "aux_value" = Some (measured_value aux_part) ∧
       d !! "aux_unit" = Some (measured_unit aux_part)).
Proof.
  intros C. destruct (contains_split1 _ _ C) as (pre & post & Hcut & Hsplit).
  exists pre, post, (reading message). split; [done|].
  split; [apply parse_reading|].
  unfold reading. rewrite Hsplit. split_and!.
  - by simplify_map_eq.
  - by simplify_map_eq.
  - intros C2. rewrite (not_contains_split1 _ _ C2). by simplify_map_eq.
  - intros skipped aux_part Haux. rewrite (split1_first_cut _ _ _ _ Haux).
    by simplify_map_eq.
Qed.

(** ** Backtracking over a run of digits *)

Lemma star_match_skip {A} (p : N → bool) (l rest : str) (k : str → option A) (x : A) :
  Forall (λ c, p c = true) l →
  star_match p rest k = Some x →
  star_match p (l ++ rest) k = Some x.
Proof.
  intros Hl Hrest. induction Hl as [|c l Hc _ IH]; simpl; [done|].
  by rewrite Hc, IH.
Qed.

Lemma star_match_stop {A} (p : N → bool) (c : N) (s : str) (k : str → option A) :
  p c = false → star_match p (c :: s) k = k (c :: s).
Proof. intros Hc. simpl. by rewrite Hc. Qed.

(** The greedy run took everything, the rest of the pattern failed at the
    end of the text, and giving back the last character lets it match. *)
Lemma star_match_give_back {A} (p : N → bool) (l : str) (c : N)
    (k : str → option A) (x : A) :
  Forall (λ c, p c = true) l → p c = true →
  k [] = None → k [c] = Some x →
  star_match p (l ++ [c]) k = Some x.
Proof.
  intros Hl Hc Hend Hback. apply star_match_skip; [done|].
  simpl. by rewrite Hc, Hend.
Qed.

Lemma search_here (r : regex) (s : str) (m : match_obj) :
  re_match r s ∅ (λ s' g, Some (Match g s')) = Some m → search r s = Some m.
Proof. intros H. destruct s; simpl; by rewrite H. Qed.

Lemma ascii_digit_classes (c : N) :
  ascii_isdecimal c = true →
  isspace c = false ∧ isdecimal c = true ∧ isunit c = true ∧
  decimal c = Some (c - 48) ∧
  one_of (text "+-") c = false ∧ one_of (text ".") c = false ∧
  (c =? 45) = false ∧ (c =? 43) = false ∧ (c =? 46) = false.
Proof.
  unfold ascii_isdecimal. intros [H1 H2]%andb_true_iff.
  apply N.leb_le in H1, H2.
  assert (c = 48 ∨ c = 49 ∨ c = 50 ∨ c = 51 ∨ c = 52 ∨ c = 53 ∨ c = 54
          ∨ c = 55 ∨ c = 56 ∨ c = 57) as Hc by lia.
  destruct Hc as [->|[->|[->|[->|[->|[->|[->|[->|[->| ->]]]]]]]]];
    by vm_compute.
Qed.

Lemma digits_ascii (ds : str) (acc : N) :
  Forall (λ c, ascii_isdecimal c = true) ds → ∃ n, digits acc ds = Some n.
Proof.
  intros H. revert acc. induction H as [|c ds Hc _ IH]; intros acc; simpl.
  - by eauto.
  - destruct (ascii_digit_classes c Hc) as (_ & _ & _ & -> & _). apply IH.
Qed.

Lemma find_point_digits (ds : str) :
  Forall (λ c, ascii_isdecimal c = true) ds → find (text ".") ds = None.
Proof.
  induction 1 as [|c ds Hc _ IH]; [done|].
  destruct (ascii_digit_classes c Hc) as (_ & _ & _ & _ & _ & _ & _ & _ & Hp).
  change (find (text ".") (c :: ds))
    with (if (46 =? c) && true then Some 0%nat else S <$> find (text ".") ds).
  rewrite N.eqb_sym, Hp, IH. done.
Qed.

Lemma float_of_ascii_digits (c : N) (ds : str) (n : N) :
  Forall (λ c, ascii_isdecimal c = true) (c :: ds) →
  digits 0 (c :: ds) = Some n →
  float_of_str (c :: ds) = Ok (binary64_of_decimal false n 0).
Proof.
  intros Hds Hn. unfold float_of_str.
  destruct (ascii_digit_classes c (Forall_inv Hds)) as (_ & _ & _ & _ & _ & _ & -> & -> & _).
  unfold split1. rewrite (find_point_digits _ Hds).
  rewrite app_nil_r. rewrite Hn. done.
Qed.

(** The same when text follows: the run stops at a character outside the
    class, the rest of the pattern fails there, and succeeds one
    character earlier. *)
Lemma star_match_give_back_before {A} (p : N → bool) (l rest : str) (c : N)
    (k : str → option A) (x : A) :
  Forall (λ c, p c = true) l → p c = true →
  match rest with [] => True | r :: _ => p r = false end →
  k rest = None → k (c :: rest) = Some x →
  star_match p (l ++ c :: rest) k = Some x.
Proof.
  intros Hl Hc Hrest Hend Hback. apply star_match_skip; [done|].
  cbn [star_match]. rewrite Hc.
  assert (star_match p rest k = k rest) as ->.
  { destruct rest as [|r rest]; [done|]. by apply star_match_stop. }
  by rewrite Hend.
Qed.

(** A run of characters at none of which the continuation succeeds, up
    to a place where it does not succeed either. *)
Lemma star_match_nowhere {A} (p : N → bool) (blanks tail : str)
    (k : str → option A) :
  Forall (λ c, ∀ s, k (c :: s) = None) blanks →
  match tail with [] => True | c :: _ => p c = false end →
  k tail = None →
  star_match p (blanks ++ tail) k = None.
Proof.
  intros Hk Htail Hend.
  induction Hk as [|c blanks Hc _ IH]; cbn [app].
  - destruct tail as [|c tail]; [done|]. by rewrite star_match_stop.
  - cbn [star_match]. rewrite IH, Hc. by destruct (p c).
Qed.

Lemma isdecimal_isunit (c : N) : isdecimal c = true → isunit c = true.
Proof. intros H. unfold isunit, isword. rewrite H. by rewrite orb_true_r. Qed.

Lemma no_unit_follows_head (rest : str) :
  no_unit_follows rest →
  match rest with [] => True | r :: _ => isunit r = false end.
Proof.
  intros [(blanks & tail & -> & Hblanks & Htail) _].
  destruct blanks as [|c blanks]; cbn [app].
  - destruct tail; [done|]. by destruct Htail.
  - by destruct (Forall_inv Hblanks).
Qed.

Lemma float_of_signed_ascii_digits (sign : str) (c : N) (ds : str) (n : N) :
  optional_sign sign →
  Forall (λ c, ascii_isdecimal c = true) (c :: ds) →
  digits 0 (c :: ds) = Some n →
  float_of_str (sign ++ c :: ds)
  = Ok (binary64_of_decimal (bool_decide (sign = text "-")) n 0).
Proof.
  intros [-> | [-> | ->]] Hds Hn.
  - by apply float_of_ascii_digits.
  - change (float_of_str (text "+" ++ c :: ds))
      with (match
              (let '(int_part, frac_part) :=
                 match split1 (text ".") (c :: ds) with
                 | [i; f] => (i, f)
                 | _ => (c :: ds, [])
                 end in
               match int_part ++ frac_part, digits 0 (int_part ++ frac_part) with
               | _ :: _, Some mant =>
                   Ok (binary64_of_decimal false mant (length frac_part))
               | _, _ => Raise not_a_float
               end)
            with r => r end).
    unfold split1. rewrite (find_point_digits _ Hds).
    rewrite app_nil_r, Hn. done.
  - change (float_of_str (text "-" ++ c :: ds))
      with (match
              (let '(int_part, frac_part) :=
                 match split1 (text ".") (c :: ds) with
                 | [i; f] => (i, f)
                 | _ => (c :: ds, [])
                 end in
               match int_part ++ frac_part, digits 0 (int_part ++ frac_part) with
               | _ :: _, Some mant =>
                   Ok (binary64_of_decimal true mant (length frac_part))
               | _, _ => Raise not_a_float
               end)
            with r => r end).
    unfold split1. rewrite (find_point_digits _ Hds).
    rewrite app_nil_r, Hn. done.
Qed.

Lemma first_choice {A} (o z : option A) (y : A) :
  o = Some y → match o with Some x => Some x | None => z end = Some y.
Proof. by intros ->. Qed.

(** The match on a text that is blanks, an optional sign, digits, one
    more digit and then no unit token: the greedy run of digits takes the
    last digit too, the rest of the pattern fails behind it, and giving
    that digit back to the unit group lets the pattern match. *)
Lemma search_digit_run (sp sign ds rest : str) (c0 d : N) :
  Forall (λ c, isspace c = true) sp →
  optional_sign sign →
  Forall (λ c, ascii_isdecimal c = true) (c0 :: ds) →
  ascii_isdecimal d = true →
  no_unit_follows rest →
  search main_regex (sp ++ sign ++ (c0 :: ds) ++ d :: rest)
  = Some (Match (<[2%nat := [d]]> (<[1%nat := sign ++ c0 :: ds]> ∅)) rest).
Proof.
  intros Hsp Hsign Hds Hd Hrest. apply search_here.
  pose proof (no_unit_follows_head rest Hrest) as Hhead.
  destruct Hrest as [(blanks & tail & Hsplit & Hblanks & Htail) Hpoint].
  destruct (ascii_digit_classes d Hd) as (Hd1 & Hd2 & Hd3 & _ & _ & Hd4 & _).
  destruct (ascii_digit_classes c0 (Forall_inv Hds)) as (Hc1 & Hc2 & _ & _ & Hc3 & _).
  assert (Forall (λ c, isdecimal c = true) ds) as Hdec.
  { eapply Forall_impl; [exact (Forall_inv_tail Hds)|].
    intros c Hc. by destruct (ascii_digit_classes c Hc) as (_ & ? & _). }
  assert (match rest with [] => True | r :: _ => isdecimal r = false end) as Hstop.
  { destruct rest as [|r rest']; [done|].
    destruct (isdecimal r) eqn:E; [|done].
    by rewrite (isdecimal_isunit r E) in Hhead. }
  assert (match rest with [] => True | r :: _ => isunit r = false end) as Hstop2
    by exact Hhead.
  (* the digits *)
  assert (∀ (s0 : str) (g : gmap nat str),
            length s0 = length (sign ++ (c0 :: ds) ++ d :: rest) →
            take (length sign + length (c0 :: ds)) s0 = sign ++ c0 :: ds →
            re_match (Cat (Plus isdecimal)
                        (Opt (Cat (Class (one_of (text "."))) (Plus isdecimal))))
              ((c0 :: ds) ++ d :: rest) g
              (λ s' g',
                 re_match (Cat (Star isspace) (Group 2 (Plus isunit))) s'
                   (<[1%nat := take (length s0 - length s') s0]> g')
                   (λ s'' g'', Some (Match g'' s'')))
            = Some (Match (<[2%nat := [d]]> (<[1%nat := sign ++ c0 :: ds]> g)) rest))
    as Hrun.
  { intros s0 g Hlen Htake.
    cbn [re_match app]. rewrite Hc2.
    apply star_match_give_back_before; [done|done|done| |].
    - (* behind the last digit *)
      assert (match rest with
              | c :: s' =>
                  if one_of (text ".") c
                  then match s' with
                       | c' :: s'' =>
                           if isdecimal c'
                           then star_match isdecimal s''
                                  (λ s3,
                                     star_match isspace s3
                                       (λ s4,
                                          match s4 with
                                          | c4 :: s5 =>
                                              if isunit c4
                                              then star_match isunit s5
                                                     (λ s6,
                                                        Some
                                                          (Match
                                                             (<[2%nat:=
                                                                take (length s4 - length s6) s4]>
                                                                (<[1%nat:=
                                                                   take (length s0 - length s3) s0]> g))
                                                             s6))
                                              else None
                                          | [] => None
                                          end))
                           else None
                       | [] => None
                       end
                  else None
              | [] => None
              end = None) as ->.
      { destruct rest as [|r [|r' rest']]; [done| |].
        - by destruct (one_of (text ".") r).
        - destruct (one_of (text ".") r) eqn:Er; [|done].
          destruct (isdecimal r') eqn:Er'; [|done].
          exfalso. apply Hpoint. exists r', rest'. split; [|done].
          unfold one_of in Er. cbn in Er. rewrite orb_false_r in Er.
          apply N.eqb_eq in Er. by subst. }
      rewrite Hsplit. apply star_match_nowhere.
      + eapply Forall_impl; [exact Hblanks|].
        intros c [_ Hc] s. by rewrite Hc.
      + destruct tail; [done|]. by destruct Htail.
      + destruct tail as [|c tail']; [done|]. destruct Htail as [_ Hc].
        by rewrite Hc.
    - (* one digit earlier *)
      rewrite Hd4. rewrite star_match_stop by done. rewrite Hd3.
      assert (star_match isunit rest
                (λ s6, Some (Match
                               (<[2%nat := take (length (d :: rest) - length s6)
                                             (d :: rest)]>
                                  (<[1%nat := take (length s0 - length (d :: rest)) s0]> g))
                               s6))
              = Some (Match
                        (<[2%nat := take (length (d :: rest) - length rest)
                                      (d :: rest)]>
                           (<[1%nat := take (length s0 - length (d :: rest)) s0]> g))
                        rest)) as ->.
      { destruct rest as [|r rest']; [done|]. by rewrite star_match_stop. }
      do 3 f_equal.
      + cbn [length]. replace (S (length rest) - length rest)%nat with 1%nat by lia.
        done.
      + rewrite Hlen. rewrite !length_app.
        replace (length sign + (length (c0 :: ds) + length (d :: rest))
                 - length (d :: rest))%nat
          with (length sign + length (c0 :: ds))%nat by lia.
        by rewrite Htake. }
  cbn [re_match main_regex].
  apply star_match_skip; [done|].
  destruct Hsign as [-> | [-> | ->]].
  - cbn [app]. rewrite star_match_stop by done. rewrite Hc3.
    apply (Hrun ((c0 :: ds) ++ d :: rest) ∅); [done|].
    change (length [] + length (c0 :: ds))%nat with (length (c0 :: ds)).
    apply take_app_length.
  - change (text "+") with [43%N]. cbn [app].
    rewrite star_match_stop by done.
    change (one_of (text "+-") 43) with true. cbn iota.
    apply first_choice.
    apply (Hrun (43%N :: (c0 :: ds) ++ d :: rest) ∅); [done|].
    change (43%N :: (c0 :: ds) ++ d :: rest)
      with (([43%N] ++ c0 :: ds) ++ d :: rest).
    rewrite <- length_app. apply take_app_length.
  - change (text "-") with [45%N]. cbn [app].
    rewrite star_match_stop by done.
    change (one_of (text "+-") 45) with true. cbn iota.
    apply first_choice.
    apply (Hrun (45%N :: (c0 :: ds) ++ d :: rest) ∅); [done|].
    change (45%N :: (c0 :: ds) ++ d :: rest)
      with (([45%N] ++ c0 :: ds) ++ d :: rest).
    rewrite <- length_app. apply take_app_length.
Qed.

(** C9: after [MAIN:], blanks, an optional sign and a run of at least two
    ASCII digits that no unit token follows (the line ends there, or
    blanks and then nothing or a character outside the unit class come
    next), the match keeps all digits but the last, with the sign, as the
    value and the last digit as the unit. *)
Theorem last_digit_becomes_unit (message pre sp sign ds rest : str) (c0 d : N)
    (h : heap) :
  first_cut (text "MAIN:") message pre (sp ++ sign ++ (c0 :: ds) ++ d :: rest) →
  Forall (λ c, isspace c = true) sp →
  optional_sign sign →
  Forall (λ c, ascii_isdecimal c = true) (c0 :: ds) →
  ascii_isdecimal d = true →
  no_unit_follows rest →
  ∃ n dict,
    digits 0 (c0 :: ds) = Some n ∧
    parse_all_measurements message h = (Ok (length h), h ++ [dict]) ∧
    dict !! "main_value"
    = Some (VFloat (binary64_of_decimal (bool_decide (sign = text "-")) n 0)) ∧
    dict !! "main_unit" = Some (VStr [d]).
Proof.
  intros Hcut Hsp Hsign Hds Hd Hrest.
  destruct (digits_ascii (c0 :: ds) 0 Hds) as [n Hn].
  exists n, (reading message). split; [done|]. split; [apply parse_reading|].
  unfold reading. rewrite (split1_first_cut _ _ _ _ Hcut).
  unfold measured_value, measured_unit, group.
  rewrite (search_digit_run sp sign ds rest c0 d Hsp Hsign Hds Hd Hrest).
  cbn [groups].
  split.
  - simplify_map_eq.
    by rewrite (float_of_signed_ascii_digits sign c0 ds n Hsign Hds Hn).
  - by simplify_map_eq.
Qed.

(** ** The reader loop, step by step *)

Lemma bind_ok {S A B} (c : M S A) (f : A → M S B) (s s' : S) (a : A) :
  c s = (Ok a, s') → (c ≫= f) s = f a s'.
Proof. intros H. unfold mbind, M_bind, bind. by rewrite H. Qed.

Lemma bind_raise {S A B} (c : M S A) (f : A → M S B) (s s' : S) (e : exn) :
  c s = (Raise e, s') → (c ≫= f) s = (Raise e, s').
Proof. intros H. unfold mbind, M_bind, bind. by rewrite H. Qed.

Arguments text : simpl never.

Lemma reading_flags (line : str) :
  contains (text "MAIN:") line = true →
  reading line !! "raw" = None ∧
  (∃ fl, reading line !! "flags" = Some (VList fl)) ∧
  is_Some (reading line !! "main_value").
Proof.
  intros C. unfold reading.
  destruct (contains_split1 _ _ C) as (pre & post & _ & ->).
  split_and!; simplify_map_eq; by eauto.
Qed.

Lemma runs_bind {S A B} (c : M S A) (f : A → M S B) (s s1 s2 : S) (a : A) (b : B) :
  runs c s a s1 → runs (f a) s1 b s2 → runs (c ≫= f) s b s2.
Proof. unfold runs. intros H1 H2. by rewrite (bind_ok _ _ _ _ _ H1). Qed.

Lemma runs_ret {S A} (a : A) (s : S) : runs (mret a) s a s.
Proof. done. Qed.

Lemma runs_gets {S A} (f : S → A) (s : S) : runs (gets f) s (f s) s.
Proof. done. Qed.

Lemma runs_modify {S} (f : S → S) (s : S) : runs (modify f) s () (f s).
Proof. done. Qed.

Lemma runs_call {S A} (a : A) (s : S) : runs (call (Ok a)) s a s.
Proof. done. Qed.

Lemma runs_log_callback (t : str) (w : world) :
  runs (log_callback t) w () (set_log_sink (log_sink w ++ [t]) w).
Proof. done. Qed.

Lemma runs_update_callback (v : value) (w : world) :
  runs (update_callback v) w () (set_display_sink (display_sink w ++ [v]) w).
Proof. done. Qed.

Lemma runs_store (var : string) (v : value) (w : world) :
  runs (store var v) w () (set_locals (<[var := v]> (locals w)) w).
Proof. done. Qed.

Lemma runs_load (var : string) (v : value) (w : world) :
  locals w !! var = Some v → runs (load var) w v w.
Proof. intros H. unfold runs, load. by rewrite H. Qed.

Lemma set_objects_same (w : world) : set_objects (objects w) w = w.
Proof. by destruct w. Qed.

Lemma runs_parse (line : str) (w : world) :
  runs (on_objects (parse_all_measurements line)) w
    (length (objects w)) (set_objects (objects w ++ [reading line]) w).
Proof. unfold runs, on_objects. by rewrite parse_reading. Qed.

Lemma runs_dict_contains (r : nat) (key : string) (d : gmap string value) (w : world) :
  objects w !! r = Some d →
  runs (on_objects (dict_contains r key)) w (bool_decide (is_Some (d !! key))) w.
Proof.
  intros H. unfold runs, on_objects, dict_contains. rewrite H.
  by rewrite set_objects_same.
Qed.

Lemma runs_dict_get (r : nat) (key : string) (dflt : value)
    (d : gmap string value) (w : world) :
  objects w !! r = Some d →
  runs (on_objects (dict_get r key dflt)) w (default dflt (d !! key)) w.
Proof.
  intros H. unfold runs, on_objects, dict_get. rewrite H.
  by rewrite set_objects_same.
Qed.

Lemma runs_getitem (r : nat) (key : string) (v : value)
    (d : gmap string value) (w : world) :
  objects w !! r = Some d → d !! key = Some v →
  runs (on_objects (getitem r key)) w v w.
Proof.
  intros H Hv. unfold runs, on_objects, getitem. rewrite H, Hv.
  by rewrite set_objects_same.
Qed.

Ltac newest_dict := simpl; first [eassumption | by apply list_lookup_middle].

Ltac run_one :=
  first
    [ apply runs_ret
    | apply runs_log_callback
    | apply runs_update_callback
    | apply runs_store
    | apply runs_gets
    | apply runs_modify
    | apply runs_call
    | apply runs_parse
    | eapply runs_dict_get; newest_dict
    | eapply runs_dict_contains; newest_dict ].

Ltac run_seq := repeat (eapply runs_bind; [run_one|cbn beta]).

Lemma summarize_run (r : nat) (d : gmap string value) (fl : list str) (w : world) :
  objects w !! r = Some d →
  d !! "flags" = Some (VList fl) →
  ∃ log_str w',
    runs (summarize r) w log_str w' ∧
    objects w' = objects w ∧ self w' = self w ∧ disk w' = disk w ∧
    stdout w' = stdout w ∧ log_sink w' = log_sink w ∧
    display_sink w' = display_sink w ∧
    locals w' = line_locals d (locals w).
Proof.
  intros Hd Hfl. eexists _, _. split.
  - unfold summarize. run_seq. rewrite Hfl. cbn [default join_value].
    run_seq. run_one.
  - unfold line_locals, flags_field. rewrite Hfl. by split_and!.
Qed.

Lemma report_structured (line : str) (w : world) :
  contains (text "MAIN:") line = true →
  ∃ w', report line w = (Ok (), w') ∧
        self w' = self w ∧ disk w' = disk w ∧ stdout w' = stdout w ∧
        objects w' = objects w ++ [reading line] ∧
        locals w' = line_locals (reading line) (locals w).
Proof.
  intros C. destruct (reading_flags line C) as (Hraw & [fl Hfl] & [v Hv]).
  set (w0 := set_log_sink (log_sink w ++ [text "RAW: " ++ line]) w).
  set (w1 := set_objects (objects w0 ++ [reading line]) w0).
  destruct (summarize_run (length (objects w0)) (reading line) fl w1)
    as (log_str & w2 & Hsum & Hobj & Hself & Hdisk & Hout & _ & _ & Hloc);
    [by apply list_lookup_middle|done|].
  assert (objects w2 !! length (objects w0) = Some (reading line)) as Hlook.
  { rewrite Hobj. by apply list_lookup_middle. }
  assert (∃ w3, runs (v' ← on_objects (getitem (length (objects w0)) "main_value");
                      match v' with VNone => mret () | _ => update_callback v' end)
                  w2 () w3 ∧
                objects w3 = objects w2 ∧ self w3 = self w2 ∧ disk w3 = disk w2 ∧
                stdout w3 = stdout w2 ∧ locals w3 = locals w2)
    as (w3 & Hshow & Hobj3 & Hself3 & Hdisk3 & Hout3 & Hloc3).
  { destruct v; eexists; (split;
      [eapply runs_bind; [by eapply runs_getitem|]; cbn beta iota; run_one|done]). }
  eexists. split.
  - unfold report. eapply runs_bind; [apply runs_log_callback|]. cbn beta.
    eapply runs_bind; [apply runs_parse|]. cbn beta.
    eapply runs_bind; [eapply runs_dict_contains; by apply list_lookup_middle|].
    cbn beta. rewrite Hraw.
    change (bool_decide (is_Some (@None value))) with false. cbn iota.
    eapply runs_bind; [exact Hsum|]. cbn beta.
    eapply runs_bind; [by eapply runs_dict_contains|]. cbn beta.
    rewrite Hv. change (bool_decide (is_Some (Some v))) with true. cbn iota.
    eapply runs_bind; [exact Hshow|]. cbn beta.
    apply runs_log_callback.
  - simpl. rewrite Hobj3, Hself3, Hdisk3, Hout3, Hloc3.
    rewrite Hobj, Hself, Hdisk, Hout, Hloc. by split_and!.
Qed.

Lemma report_raw (line : str) (w : world) :
  contains (text "MAIN:") line = false →
  ∃ w', report line w = (Ok (), w') ∧
        self w' = self w ∧ disk w' = disk w ∧ stdout w' = stdout w ∧
        locals w' = locals w ∧
        log_sink w' = log_sink w ++ [text "RAW: " ++ line; text "Raw Data: " ++ line].
Proof.
  intros C. pose proof (reading_raw line C) as Hd.
  eexists. split.
  - unfold report. eapply runs_bind; [apply runs_log_callback|]. cbn beta.
    eapply runs_bind; [apply runs_parse|]. cbn beta.
    eapply runs_bind; [eapply runs_dict_contains; by apply list_lookup_middle|].
    cbn beta. rewrite Hd. rewrite lookup_singleton_eq.
    change (bool_decide (is_Some (Some (VStr line)))) with true. cbn iota.
    eapply runs_bind.
    { eapply runs_bind;
        [eapply runs_getitem; [by apply list_lookup_middle|apply lookup_singleton_eq]|].
      cbn beta. apply runs_ret. }
    cbn beta.
    eapply runs_bind;
      [eapply runs_dict_contains; simpl; by apply list_lookup_middle|].
    cbn beta. rewrite lookup_singleton_ne by done.
    change (bool_decide (is_Some (@None value))) with false. cbn iota.
    eapply runs_bind; [apply runs_ret|]. cbn beta.
    apply runs_log_callback.
  - simpl. split_and!; try done. by rewrite <- app_assoc.
Qed.

(** ** The CSV part *)

Ltac fields :=
  cbn [objects self locals log_sink display_sink stdout disk
       set_objects set_self set_locals set_log_sink set_display_sink
       set_stdout set_disk
       stop_event logging_enabled csv_file csv_path
       set_stop_event set_logging_enabled set_csv_file set_csv_path
       f_name f_closed f_buffer].

Lemma set_csv_file_same (t : thread) (f : option file) :
  csv_file t = f → set_csv_file f t = t.
Proof. intros <-. by destruct t. Qed.

Lemma set_self_same (w : world) : set_self (self w) w = w.
Proof. by destruct w. Qed.

Lemma append_to_created (path data : str) (d : gmap str str) :
  data ≠ [] →
  append_to path data (create_if_missing path d) = append_to path data d.
Proof.
  intros Hdata. unfold append_to, create_if_missing.
  destruct data as [|c data]; [done|].
  destruct (d !! path) eqn:E; [by rewrite E|].
  by rewrite lookup_insert_eq, insert_insert_eq.
Qed.

Lemma append_to_other (path data p : str) (d : gmap str str) :
  p ≠ path → append_to path data d !! p = d !! p.
Proof.
  intros H. unfold append_to. destruct data; [done|].
  by rewrite lookup_insert_ne.
Qed.

Lemma append_to_changes (path data : str) (d : gmap str str) :
  data ≠ [] → append_to path data d ≠ d.
Proof.
  intros Hdata Heq. apply (f_equal (λ m, m !! path)) in Heq.
  unfold append_to in Heq. destruct data as [|c data]; [done|].
  rewrite lookup_insert_eq in Heq.
  destruct (d !! path) as [old|]; [|done]. simpl in Heq.
  injection Heq as Heq. apply (f_equal length) in Heq.
  rewrite length_app in Heq. simpl in Heq. lia.
Qed.

Lemma csv_row_nonempty (ts : str) (d : gmap string value) : csv_row ts d ≠ [].
Proof.
  unfold csv_row. intros H.
  apply app_eq_nil in H as [_ H]. by apply app_eq_nil in H as [H _].
Qed.

Lemma runs_csv_write (data path buf : str) (w : world) :
  csv_file (self w) = Some (File path false buf) →
  runs (csv_write data) w ()
    (set_self (set_csv_file (Some (File path false (buf ++ data))) (self w)) w).
Proof. intros H. unfold runs, csv_write. by rewrite H. Qed.

Lemma runs_csv_flush (path buf : str) (w : world) :
  csv_file (self w) = Some (File path false buf) →
  runs csv_flush w ()
    (set_disk (append_to path buf (disk w))
       (set_self (set_csv_file (Some (File path false [])) (self w)) w)).
Proof. intros H. unfold runs, csv_flush. by rewrite H. Qed.

(** The fields of the row, read back from the locals, are the fields the
    specification describes. *)
Lemma reading_fields (line : str) :
  contains (text "MAIN:") line = true →
  let d := reading line in
  format_unless_none (default VNone (d !! "main_value")) = number_field (d !! "main_value") ∧
  format_value (or_else (default VNone (d !! "main_unit")) (VStr [])) = unit_field (d !! "main_unit") ∧
  format_unless_none (default VNone (d !! "aux_value")) = number_field (d !! "aux_value") ∧
  format_value (or_else (default VNone (d !! "aux_unit")) (VStr [])) = unit_field (d !! "aux_unit") ∧
  (if truthy (default VNone (d !! "low_battery")) then text "LOW BAT" else text "OK")
    = battery_field d.
Proof.
  intros C. unfold reading, battery_field.
  destruct (contains_split1 _ _ C) as (pre & post & _ & ->).
  simplify_map_eq.
  assert (∀ s, format_unless_none (measured_value s) = number_field (Some (measured_value s))) as Hval.
  { intros s. unfold measured_value. by repeat case_match. }
  assert (∀ s, format_value (or_else (measured_unit s) (VStr [])) = unit_field (Some (measured_unit s))) as Hunit.
  { intros s. unfold measured_unit, group. repeat case_match; try done.
    unfold or_else. simpl. by case_bool_decide. }
  split_and!; try done;
    destruct (split1 (text "AUX:") post) as [|? [|? [|? ?]]]; by simpl.
Qed.

Lemma write_csv_line_run (ev : env) (line path : str) (l : gmap string value) (w : world) :
  contains (text "MAIN:") line = true →
  csv_file (self w) = Some (File path false []) →
  locals w = line_locals (reading line) l →
  ∃ w', write_csv_line ev w = (Ok (), w') ∧
        self w' = self w ∧ stdout w' = stdout w ∧
        disk w' = append_to path (csv_row (strftime ev) (reading line)) (disk w).
Proof.
  intros C Hfile Hloc.
  destruct (reading_fields line C) as (H1 & H2 & H3 & H4 & H5).
  eexists. split.
  - unfold write_csv_line.
    do 6 (eapply runs_bind;
            [apply runs_load; rewrite Hloc; unfold line_locals; by simplify_map_eq|];
          cbn beta).
    eapply runs_bind; [by eapply runs_csv_write|]. cbn beta.
    by eapply runs_csv_flush.
  - fields. split_and!.
    + transitivity (set_csv_file (Some (File path false [])) (self w)); [done|].
      by apply set_csv_file_same.
    + done.
    + unfold csv_row. cbn [format_value app]. by rewrite H1, H2, H3, H4, H5.
Qed.

Lemma open_on_demand_open (ev : env) (f : file) (w : world) :
  csv_file (self w) = Some f → runs (open_on_demand ev) w () w.
Proof.
  intros H. unfold open_on_demand.
  eapply runs_bind; [apply runs_gets|]. cbn beta.
  eapply runs_bind; [apply runs_gets|]. cbn beta.
  rewrite H. apply runs_ret.
Qed.

Lemma open_on_demand_opens (ev : env) (path : str) (w : world) :
  csv_file (self w) = None → csv_path (self w) = Some path → path ≠ [] →
  open_append ev path = Ok () →
  runs (open_on_demand ev) w ()
    (set_self (set_csv_file (Some (File path false [])) (self w))
       (set_disk (create_if_missing path (disk w)) w)).
Proof.
  intros Hf Hp Hne Hopen. unfold open_on_demand.
  eapply runs_bind; [apply runs_gets|]. cbn beta.
  eapply runs_bind; [apply runs_gets|]. cbn beta.
  rewrite Hf, Hp. destruct path as [|c path]; [done|].
  unfold runs, try_except, mbind, M_bind, bind, call. by rewrite Hopen.
Qed.

Lemma open_on_demand_fails (ev : env) (path : str) (e : exn) (w : world) :
  csv_file (self w) = None → csv_path (self w) = Some path → path ≠ [] →
  open_append ev path = Raise e →
  runs (open_on_demand ev) w ()
    (set_log_sink (log_sink w ++ [text "CSV Open Error: " ++ exn_str e]) w).
Proof.
  intros Hf Hp Hne Hopen. unfold open_on_demand.
  eapply runs_bind; [apply runs_gets|]. cbn beta.
  eapply runs_bind; [apply runs_gets|]. cbn beta.
  rewrite Hf, Hp. destruct path as [|c path]; [done|].
  unfold runs, try_except, mbind, M_bind, bind, call. by rewrite Hopen.
Qed.

(** One structured line with logging on and the file ready: exactly the
    row of that line is appended and flushed. *)
Lemma log_to_csv_structured (ev : env) (line path : str) (l : gmap string value) (w : world) :
  contains (text "MAIN:") line = true →
  logging_enabled (self w) = true →
  log_file_ready ev w path →
  locals w = line_locals (reading line) l →
  ∃ w', log_to_csv ev w = (Ok (), w') ∧
        self w' = set_csv_file (Some (File path false [])) (self w) ∧
        stdout w' = stdout w ∧
        disk w' = append_to path (csv_row (strftime ev) (reading line)) (disk w).
Proof.
  intros C Hen Hready Hloc.
  destruct Hready as [Hf|(Hf & Hp & Hne & Hopen)].
  - destruct (write_csv_line_run ev line path l w C Hf Hloc)
      as (w' & Hrun & Hself & Hout & Hdisk).
    exists w'. split.
    + unfold log_to_csv. eapply runs_bind; [apply runs_gets|]. cbn beta.
      rewrite Hen. eapply runs_bind; [by eapply open_on_demand_open|]. cbn beta.
      eapply runs_bind; [apply runs_gets|]. cbn beta. by rewrite Hf.
    + rewrite Hself. by rewrite set_csv_file_same.
  - set (w1 := set_self (set_csv_file (Some (File path false [])) (self w))
                 (set_disk (create_if_missing path (disk w)) w)).
    destruct (write_csv_line_run ev line path l w1 C eq_refl Hloc)
      as (w' & Hrun & Hself & Hout & Hdisk).
    exists w'. split.
    + unfold log_to_csv. eapply runs_bind; [apply runs_gets|]. cbn beta.
      rewrite Hen. eapply runs_bind; [by eapply open_on_demand_opens|]. cbn beta.
      eapply runs_bind; [apply runs_gets|]. by cbn.
    + rewrite Hself, Hout, Hdisk. subst w1. fields.
      by rewrite append_to_created by apply csv_row_nonempty.
Qed.

Lemma try_except_ok {S A} (c : M S A) (cls : exn → bool) (h : exn → M S A)
    (s s' : S) (a : A) :
  c s = (Ok a, s') → try_except c cls h s = (Ok a, s').
Proof. intros H. unfold try_except. by rewrite H. Qed.

(** A pass that receives a line hands its stripped text to [handle_line]. *)
Lemma pass_line (ev : env) (n : N) (decoded : str) (w w' : world) :
  in_waiting ev = Ok n → (0 <? n) = true →
  readline_decoded ev = Ok decoded → strip decoded ≠ [] →
  handle_line ev (strip decoded) w = (Ok (), w') →
  pass ev w = (Ok (), w').
Proof.
  intros Hn Hpos Hline Hne Hrun. unfold pass. apply try_except_ok.
  unfold poll. rewrite Hn. eapply runs_bind; [apply runs_call|]. cbn beta.
  rewrite Hpos, Hline. eapply runs_bind; [apply runs_call|]. cbn beta zeta.
  destruct (strip decoded); done.
Qed.

(** ** Properties of the reader loop *)

Lemma contains_nonempty (sep s : str) :
  sep ≠ [] → contains sep s = true → s ≠ [].
Proof. intros Hsep H ->. destruct sep; [done|]. by vm_compute in H. Qed.

(** A structured line, logging on, the file ready: what the pass does. *)
Lemma pass_structured (ev : env) (w : world) (n : N) (decoded path : str) :
  in_waiting ev = Ok n → (0 <? n) = true →
  readline_decoded ev = Ok decoded →
  contains (text "MAIN:") (strip decoded) = true →
  logging_enabled (self w) = true →
  log_file_ready ev w path →
  ∃ w',
    pass ev w = (Ok (), w') ∧
    disk w' = append_to path (csv_row (strftime ev) (reading (strip decoded))) (disk w) ∧
    csv_file (self w') = Some (File path false []) ∧
    stdout w' = stdout w.
Proof.
  intros Hn Hpos Hline C Hen Hready.
  destruct (report_structured _ w C) as (w1 & Hrep & Hself1 & Hdisk1 & Hout1 & _ & Hloc1).
  destruct (log_to_csv_structured ev _ path (locals w) w1 C) as (w2 & Hlog & Hself2 & Hout2 & Hdisk2).
  { by rewrite Hself1. }
  { unfold log_file_ready. rewrite Hself1. exact Hready. }
  { done. }
  exists w2. split_and!.
  - eapply pass_line; try done.
    + by apply (contains_nonempty (text "MAIN:")).
    + unfold handle_line. by rewrite (bind_ok _ _ _ _ _ Hrep).
  - by rewrite Hdisk2, Hdisk1.
  - by rewrite Hself2.
  - by rewrite Hout2, Hout1.
Qed.

(** X29: logging is enabled, a log file is open or can be opened
    from the stored path, and the line that arrives contains [MAIN:].
    Then the pass appends exactly the row of that line (timestamp, quoted
    flags, main value, quoted main unit, aux value, quoted aux unit,
    battery status, newline, a missing value being empty) to that file
    and flushes it; nothing is reported on the standard output. *)
Theorem structured_line_logged (ev : env) (w : world) (n : N) (decoded path : str) :
  in_waiting ev = Ok n → (0 <? n) = true →
  readline_decoded ev = Ok decoded →
  contains (text "MAIN:") (strip decoded) = true →
  logging_enabled (self w) = true →
  log_file_ready ev w path →
  ∃ w' d,
    pass ev w = (Ok (), w') ∧
    parse_all_measurements (strip decoded) (objects w)
      = (Ok (length (objects w)), objects w ++ [d]) ∧
    disk w' = append_to path (csv_row (strftime ev) d) (disk w) ∧
    csv_file (self w') = Some (File path false []) ∧
    stdout w' = stdout w.
Proof.
  intros Hn Hpos Hline C Hen Hready.
  destruct (pass_structured ev w n decoded path) as (w' & ? & ? & ? & ?); try done.
  exists w', (reading (strip decoded)). split_and!; try done. apply parse_reading.
Qed.

Lemma report_frame (line : str) (w : world) :
  ∃ w', report line w = (Ok (), w') ∧
        self w' = self w ∧ disk w' = disk w ∧ stdout w' = stdout w.
Proof.
  destruct (contains (text "MAIN:") line) eqn:C.
  - destruct (report_structured line w C) as (w' & ? & ? & ? & ? & _). by exists w'.
  - destruct (report_raw line w C) as (w' & ? & ? & ? & ? & _). by exists w'.
Qed.

(** C3: a line arrives while logging is enabled, no file is open and the
    stored path cannot be opened.  The pass ends normally; the last text
    given to the logging callback is the error as text; no file changes
    and none is open afterwards; the loop goes on with the next pass. *)
Theorem open_failure_reported (ev : env) (w : world) (n : N) (decoded path : str) (e : exn) :
  in_waiting ev = Ok n → (0 <? n) = true →
  readline_decoded ev = Ok decoded → strip decoded ≠ [] →
  logging_enabled (self w) = true →
  csv_file (self w) = None → csv_path (self w) = Some path → path ≠ [] →
  open_append ev path = Raise e →
  stop_event (self w) = false →
  ∃ w',
    pass ev w = (Ok (), w') ∧
    last (log_sink w') = Some (text "CSV Open Error: " ++ exn_str e) ∧
    disk w' = disk w ∧
    csv_file (self w') = None ∧
    stdout w' = stdout w ∧
    ∀ schedule, run (Tick [] ev :: schedule) w = run schedule w'.
Proof.
  intros Hn Hpos Hline Hne Hen Hf Hp Hpath Hopen Hstop.
  destruct (report_frame (strip decoded) w) as (w1 & Hrep & Hself1 & Hdisk1 & Hout1).
  set (w2 := set_log_sink (log_sink w1 ++ [text "CSV Open Error: " ++ exn_str e]) w1).
  assert (pass ev w = (Ok (), w2)) as Hpass.
  { eapply pass_line; try done.
    unfold handle_line. rewrite (bind_ok _ _ _ _ _ Hrep).
    unfold log_to_csv. eapply runs_bind; [apply runs_gets|]. cbn beta.
    rewrite Hself1, Hen.
    eapply runs_bind.
    { eapply open_on_demand_fails; by rewrite ?Hself1. }
    cbn beta. eapply runs_bind; [apply runs_gets|]. cbn beta.
    fields. rewrite Hself1, Hf. apply runs_ret. }
  exists w2. split_and!; try done.
  - subst w2. fields. by rewrite last_snoc.
  - subst w2. fields. by rewrite Hself1.
  - intros schedule. cbn [run requests environment serve_all]. by rewrite Hstop, Hpass.
Qed.

(** ** What a pass keeps *)

Lemma preserves_bind {A B} (P : world → Prop) (c : M world A) (f : A → M world B) :
  preserves P c → (∀ a, preserves P (f a)) → preserves P (c ≫= f).
Proof.
  intros Hc Hf w HP. specialize (Hc w HP).
  unfold mbind, M_bind, bind. destruct (c w) as [[a|e] w1]; simpl in *; [|done].
  by apply Hf.
Qed.

Lemma preserves_try {A} (P : world → Prop) (c : M world A) (cls : exn → bool)
    (h : exn → M world A) :
  preserves P c → (∀ e, preserves P (h e)) → preserves P (try_except c cls h).
Proof.
  intros Hc Hh w HP. specialize (Hc w HP).
  unfold try_except. destruct (c w) as [[a|e] w1]; simpl in *; [done|].
  destruct (cls e); [by apply Hh|done].
Qed.

Lemma preserves_same {A} (P : world → Prop) (c : M world A) :
  (∀ w, snd (c w) = w) → preserves P c.
Proof. intros H w HP. by rewrite H. Qed.

Lemma preserves_ret {A} (P : world → Prop) (a : A) : preserves P (mret a).
Proof. by apply preserves_same. Qed.

Lemma preserves_gets {A} (P : world → Prop) (f : world → A) : preserves P (gets f).
Proof. by apply preserves_same. Qed.

Lemma preserves_call {A} (P : world → Prop) (r : result A) : preserves P (call r).
Proof. by apply preserves_same. Qed.

Lemma preserves_load (P : world → Prop) (var : string) : preserves P (load var).
Proof. apply preserves_same. intros w. unfold load. by destruct (locals w !! var). Qed.

Section Invariant.
Variable P : world → Prop.

(** [P] looks at the thread's attributes and at the files only. *)
Hypothesis P_local : ∀ w w', self w' = self w → disk w' = disk w → P w → P w'.
Hypothesis P_open : ∀ ev, preserves P (open_on_demand ev).
Hypothesis P_write : ∀ ev, preserves P (write_csv_line ev).

Lemma preserves_log_callback (t : str) : preserves P (log_callback t).
Proof. intros w. by apply P_local. Qed.

Lemma preserves_print (t : str) : preserves P (print t).
Proof. intros w. by apply P_local. Qed.

Lemma preserves_report (line : str) : preserves P (report line).
Proof.
  intros w. destruct (report_frame line w) as (w' & -> & ? & ? & _).
  by apply P_local.
Qed.

Lemma preserves_log_to_csv (ev : env) : preserves P (log_to_csv ev).
Proof.
  unfold log_to_csv. apply preserves_bind; [apply preserves_gets|].
  intros [|]; [|apply preserves_ret].
  apply preserves_bind; [apply P_open|]. intros _.
  apply preserves_bind; [apply preserves_gets|].
  intros [f|]; [apply P_write|apply preserves_ret].
Qed.

Lemma preserves_poll (ev : env) : preserves P (poll ev).
Proof.
  unfold poll. apply preserves_bind; [apply preserves_call|].
  intros n. destruct (0 <? n); [|apply preserves_ret].
  apply preserves_bind; [apply preserves_call|].
  intros decoded. cbn zeta. destruct (strip decoded); [apply preserves_ret|].
  unfold handle_line. apply preserves_bind; [apply preserves_report|].
  intros _. apply preserves_log_to_csv.
Qed.

Lemma preserves_pass (ev : env) : preserves P (pass ev).
Proof.
  unfold pass. apply preserves_try; [apply preserves_poll|].
  intros e. apply preserves_print.
Qed.

End Invariant.

Lemma pass_ok (ev : env) (w : world) : ∃ w', pass ev w = (Ok (), w').
Proof.
  unfold pass, try_except. destruct (poll ev w) as [[[]|e] w1]; by eauto.
Qed.

Lemma pass_same_flags (ev : env) (w : world) :
  same_flags (self w) (snd (pass ev w)).
Proof.
  apply (preserves_pass (same_flags (self w))); [| | |done].
  - intros w1 w2 Hself _. unfold same_flags. by rewrite Hself.
  - intros ev'. unfold open_on_demand.
    apply preserves_bind; [apply preserves_gets|]. intros f.
    apply preserves_bind; [apply preserves_gets|]. intros p.
    destruct f, p as [[|c path]|]; try apply preserves_ret.
    apply preserves_try.
    + apply preserves_bind; [apply preserves_call|]. intros _.
      apply preserves_bind; [by intros w1|]. intros _. by intros w1.
    + intros e. by intros w1.
  - intros ev'. unfold write_csv_line. cbn zeta.
    do 6 (apply preserves_bind; [apply preserves_load|]; intros ?).
    apply preserves_bind.
    + intros w1 H1. unfold csv_write.
      destruct (csv_file (self w1)) as [f|]; [|done]. by destruct (f_closed f).
    + intros _ w1 H1. unfold csv_flush.
      destruct (csv_file (self w1)) as [f|]; [|done]. by destruct (f_closed f).
Qed.

(** ** Requests of the other thread *)

Ltac by_cases_on_file w :=
  destruct w as [? [? ? [[? [|] ?]|] ?] ? ? ? ? ?]; cbn.

Lemma serve_ok (q : request) (w : world) : ∃ w', serve q w = (Ok (), w').
Proof. destruct q as [|[|] path]; by_cases_on_file w; by eauto. Qed.

Lemma serve_stop_event (q : request) (w : world) :
  stop_event (self (snd (serve q w)))
  = match q with Stop => true | SetLogging _ _ => stop_event (self w) end.
Proof. destruct q as [|[|] path]; by by_cases_on_file w. Qed.

Lemma serve_settled (q : request) (w : world) :
  file_settled w → file_settled (snd (serve q w)).
Proof.
  unfold file_settled. destruct q as [|[|] path]; by by_cases_on_file w.
Qed.

Lemma serve_all_stop_kept (qs : list request) (w : world) :
  stop_event (self w) = true → stop_event (self (serve_all qs w)) = true.
Proof.
  revert w. induction qs as [|q qs IH]; intros w H; simpl; [done|].
  apply IH. rewrite serve_stop_event. by destruct q.
Qed.

Lemma serve_all_stop_event (t : tick) (w : world) :
  stop_event (self (serve_all (requests t) w))
  = stop_requested t || stop_event (self w).
Proof.
  unfold stop_requested. generalize (requests t). intros qs.
  revert w. induction qs as [|q qs IH]; intros w; simpl; [done|].
  rewrite IH, serve_stop_event. destruct q; simpl; [|done].
  by rewrite orb_true_r.
Qed.

Lemma serve_all_settled (qs : list request) (w : world) :
  file_settled w → file_settled (serve_all qs w).
Proof.
  revert w. induction qs as [|q qs IH]; intros w H; simpl; [done|].
  by apply IH, serve_settled.
Qed.

(** ** Leaving the loop *)

Lemma finish_run (w : world) :
  ∃ w', finish w = (Ok (), w') ∧
        stop_event (self w') = stop_event (self w) ∧
        (∀ f, csv_file (self w') = Some f → f_closed f = true) ∧
        (file_settled w → disk w' = disk w).
Proof.
  unfold finish, mbind, M_bind, bind, gets, file_settled. cbn.
  destruct (csv_file (self w)) as [f|] eqn:Hf.
  - unfold csv_close. rewrite Hf. destruct (f_closed f) eqn:Hc.
    + eexists. split; [done|]. split_and!; [done| |done].
      intros f'. rewrite Hf. by intros [= <-].
    + eexists. split; [done|]. fields. split_and!; [done| |].
      * by intros f' [= <-].
      * by intros [_ ->].
  - eexists. split; [done|]. split_and!; [done| |done].
    intros f. by rewrite Hf.
Qed.

Lemma write_flush_settled (data path : str) (w : world) :
  csv_file (self w) = Some (File path false []) →
  (csv_write data;; csv_flush) w
  = (Ok (), set_disk (append_to path data (disk w)) w).
Proof.
  intros Hf. destruct w as [h [s l f p] lo ls ds so dk].
  simpl in Hf. by subst f.
Qed.

(** A predicate that holds only when the open file has nothing unflushed
    is kept by the CSV row as soon as it is kept by an append to that
    file. *)
Lemma preserves_write_csv_line (P : world → Prop) (ev : env) :
  (∀ w, P w → file_settled w) →
  (∀ w path data, csv_file (self w) = Some (File path false []) → P w →
     P (set_disk (append_to path data (disk w)) w)) →
  preserves P (write_csv_line ev).
Proof.
  intros Hsettled Happend. unfold write_csv_line. cbn zeta.
  do 6 (apply preserves_bind; [apply preserves_load|]; intros ?).
  intros w HP. pose proof (Hsettled w HP) as Hs. unfold file_settled in Hs.
  destruct (csv_file (self w)) as [[path closed buf]|] eqn:Hf.
  - simpl in Hs. destruct Hs as [-> ->].
    rewrite (write_flush_settled _ path w Hf). by apply Happend.
  - unfold mbind, M_bind, bind, csv_write. by rewrite Hf.
Qed.

Lemma preserves_open_on_demand (P : world → Prop) (ev : env) :
  (∀ w w', self w' = self w → disk w' = disk w → P w → P w') →
  (∀ w path, csv_file (self w) = None → P w →
     P (set_self (set_csv_file (Some (File path false [])) (self w))
          (set_disk (create_if_missing path (disk w)) w))) →
  preserves P (open_on_demand ev).
Proof.
  intros Hlocal Hopen w HP. unfold open_on_demand, mbind, M_bind, bind, gets. cbn.
  destruct (csv_file (self w)) as [f|] eqn:Hf; [done|].
  destruct (csv_path (self w)) as [[|c path]|]; [done| |done].
  unfold try_except, call, modify. cbn.
  destruct (open_append ev (c :: path)) as [[]|e]; cbn.
  - by apply Hopen.
  - by apply (Hlocal w).
Qed.

Lemma pass_settled (ev : env) (w : world) :
  file_settled w → file_settled (snd (pass ev w)).
Proof.
  apply (preserves_pass file_settled).
  - intros w1 w2 Hself _. unfold file_settled. by rewrite Hself.
  - intros ev'. apply preserves_open_on_demand.
    + intros w1 w2 Hself _. unfold file_settled. by rewrite Hself.
    + by intros w1 path _ _.
  - intros ev'. apply preserves_write_csv_line; [done|].
    intros w1 path data Hf _. unfold file_settled. fields. by rewrite Hf.
Qed.

(** The file stays settled as long as the loop runs. *)
Lemma run_settled (schedule : list tick) (w w' : world) :
  file_settled w → run schedule w = Looping w' → file_settled w'.
Proof.
  revert w. induction schedule as [|t schedule IH]; intros w Hw; simpl.
  - by intros [= <-].
  - destruct (stop_event (self (serve_all (requests t) w))).
    + by destruct (finish _).
    + destruct (pass_ok (environment t) (serve_all (requests t) w)) as [w1 Hpass].
      rewrite Hpass. apply IH.
      replace w1 with (snd (pass (environment t) (serve_all (requests t) w)))
        by (by rewrite Hpass).
      by apply pass_settled, serve_all_settled.
Qed.

(** C5: [run] returns only through the loop test, with the stop signal
    set and with the log file, if there is one, closed; what the
    environment does during a pass, exceptions included, never makes it
    return; what is scheduled after the return has no effect.  Without
    the signal the loop is still running at the end of any schedule; with
    the signal it returns; and the return itself writes nothing. *)
Theorem loop_ends_only_on_stop (schedule : list tick) (w : world) :
  (∀ r w', run schedule w = Returned r w' →
     r = Ok () ∧ stop_event (self w') = true ∧
     (∀ f, csv_file (self w') = Some f → f_closed f = true) ∧
     ∀ more, run (schedule ++ more) w = Returned r w') ∧
  (stop_event (self w) = false →
   Forall (λ t, stop_requested t = false) schedule →
     ∃ w', run schedule w = Looping w' ∧ stop_event (self w') = false) ∧
  (Exists (λ t, stop_requested t = true) schedule →
     ∃ w', run schedule w = Returned (Ok ()) w') ∧
  (stop_event (self w) = true → file_settled w →
     ∀ ev more, ∃ w', run (Tick [] ev :: more) w = Returned (Ok ()) w' ∧
                      disk w' = disk w).
Proof.
  split_and!.
  - revert w. induction schedule as [|t schedule IH]; intros w r w'; simpl; [done|].
    destruct (stop_event (self (serve_all (requests t) w))) eqn:Hstop.
    + destruct (finish_run (serve_all (requests t) w)) as (w1 & -> & Hs & Hclosed & _).
      intros [= <- <-]. split_and!; try done. by rewrite Hs.
    + destruct (pass_ok (environment t) (serve_all (requests t) w)) as [w1 ->].
      apply IH.
  - revert w. induction schedule as [|t schedule IH]; intros w Hw Hno; simpl.
    + by eauto.
    + apply Forall_cons in Hno as [Ht Hno].
      rewrite serve_all_stop_event, Ht, Hw. simpl.
      destruct (pass_ok (environment t) (serve_all (requests t) w)) as [w1 Hpass].
      rewrite Hpass. apply IH; [|done].
      destruct (pass_same_flags (environment t) (serve_all (requests t) w)) as (Hs & _).
      rewrite Hpass in Hs. simpl in Hs. rewrite Hs.
      by rewrite serve_all_stop_event, Ht, Hw.
  - revert w. induction schedule as [|t schedule IH]; intros w Hex; simpl.
    + by apply Exists_nil in Hex.
    + destruct (stop_event (self (serve_all (requests t) w))) eqn:Hstop.
      * destruct (finish_run (serve_all (requests t) w)) as (w1 & -> & _). by eauto.
      * destruct (pass_ok (environment t) (serve_all (requests t) w)) as [w1 ->].
        apply IH. apply Exists_cons in Hex as [Ht|Hex]; [|done].
        rewrite serve_all_stop_event, Ht in Hstop. done.
  - intros Hw Hs ev more. simpl. rewrite Hw.
    destruct (finish_run w) as (w1 & -> & _ & _ & Hdisk). by eauto.
Qed.

(** ** Changing the path while a file is open *)

Lemma serve_all_left_on (P : world → Prop) (qs : list request) (w : world) :
  (∀ w path, P w → P (snd (set_logging true path w))) →
  forallb (λ q, match q with SetLogging true _ => true | _ => false end) qs = true →
  P w → P (serve_all qs w).
Proof.
  intros HP. revert w. induction qs as [|q qs IH]; intros w Hqs Hw; simpl; [done|].
  simpl in Hqs. apply andb_true_iff in Hqs as [Hq Hqs].
  apply IH; [done|]. destruct q as [|[|] p]; try done. by apply HP.
Qed.

(** C10: logging is enabled and a file is open when [set_logging(True,
    new_path)] is called.  The call changes the stored path and nothing
    else; the open file is neither closed nor replaced.  As long as the
    other thread does not switch logging off, the same file stays open,
    no other file changes, and the row of a structured line is appended to
    that file, not to the new path. *)
Theorem set_logging_keeps_open_file (w : world) (path new_path : str) :
  logging_enabled (self w) = true →
  csv_file (self w) = Some (File path false []) →
  stop_event (self w) = false →
  ∃ w1,
    set_logging true (Some new_path) w = (Ok (), w1) ∧
    w1 = set_self (set_csv_path (Some new_path) (self w)) w ∧
    csv_file (self w1) = Some (File path false []) ∧
    ∀ schedule, Forall (λ t, logging_left_on t = true) schedule →
      ∃ w2,
        run schedule w1 = Looping w2 ∧
        csv_file (self w2) = Some (File path false []) ∧
        (∀ p, p ≠ path → disk w2 !! p = disk w !! p) ∧
        ∀ ev n decoded,
          in_waiting ev = Ok n → (0 <? n) = true →
          readline_decoded ev = Ok decoded →
          contains (text "MAIN:") (strip decoded) = true →
          ∃ w3 d,
            pass ev w2 = (Ok (), w3) ∧
            parse_all_measurements (strip decoded) (objects w2)
              = (Ok (length (objects w2)), objects w2 ++ [d]) ∧
            disk w3 = append_to path (csv_row (strftime ev) d) (disk w2).
Proof.
  intros Hen Hf Hstop.
  set (P := λ w' : world,
         csv_file (self w') = Some (File path false []) ∧
         logging_enabled (self w') = true ∧
         stop_event (self w') = false ∧
         ∀ p, p ≠ path → disk w' !! p = disk w !! p).
  assert (P_local : ∀ w1 w2, self w2 = self w1 → disk w2 = disk w1 → P w1 → P w2).
  { intros w1 w2 Hs Hd. unfold P. by rewrite Hs, Hd. }
  assert (P_pass : ∀ ev, preserves P (pass ev)).
  { apply preserves_pass; [done| |].
    - intros ev. apply preserves_open_on_demand; [done|].
      intros w1 p Hnone (Hsome & _). congruence.
    - intros ev. apply preserves_write_csv_line.
      + intros w1 (Hsome & _). unfold file_settled. by rewrite Hsome.
      + intros w1 p data Hp (Hsome & ? & ? & Hdisk). unfold P. fields.
        split_and!; try done. intros p' Hp'.
        assert (p = path) as -> by congruence.
        rewrite append_to_other by done. by apply Hdisk. }
  assert (P_on : ∀ w1 p, P w1 → P (snd (set_logging true p w1))).
  { intros w1 p (? & ? & ? & ?). unfold P. cbn. by split_and!. }
  exists (set_self (set_csv_path (Some new_path) (self w)) w).
  split_and!.
  - clear P P_local P_pass P_on.
    destruct w as [h [s l f p] lo ls ds so dk]. simpl in *. by subst.
  - done.
  - done.
  - intros schedule Hsched.
    assert (P (set_self (set_csv_path (Some new_path) (self w)) w)) as Hw1.
    { unfold P. by fields. }
    revert Hw1. generalize (set_self (set_csv_path (Some new_path) (self w)) w).
    induction Hsched as [|t schedule Ht _ IH]; intros w1 Hw1.
    + exists w1. simpl. destruct Hw1 as (Hsome & Hon & _ & Hdisk).
      split_and!; try done.
      intros ev n decoded Hn Hpos Hline C.
      destruct (pass_structured ev w1 n decoded path) as (w3 & ? & ? & _);
        try done; [by left|].
      exists w3, (reading (strip decoded)). split_and!; try done.
      apply parse_reading.
    + simpl.
      pose proof (serve_all_left_on P (requests t) w1 P_on Ht Hw1) as Hw2.
      destruct Hw2 as (Hsome & Hon & Hstop2 & Hdisk). rewrite Hstop2.
      destruct (pass_ok (environment t) (serve_all (requests t) w1)) as [w2 Hpass].
      rewrite Hpass. apply IH.
      replace w2 with (snd (pass (environment t) (serve_all (requests t) w1)))
        by (by rewrite Hpass).
      by apply P_pass.
Qed.

(** ** What a match captures *)

Lemma star_match_lang {A} (p : N → bool) (s : str) (k : str → option A) (x : A) :
  star_match p s k = Some x →
  ∃ t s', s = t ++ s' ∧ Forall (λ c, p c = true) t ∧ k s' = Some x.
Proof.
  induction s as [|c s IH]; simpl.
  - intros H. by exists [], [].
  - destruct (p c) eqn:Hc; [|intros H; by exists [], (c :: s)].
    destruct (star_match p s k) eqn:E.
    + intros [= <-]. destruct (IH eq_refl) as (t & s' & -> & Ht & Hk).
      exists (c :: t), s'. split_and!; [done| |done]. by constructor.
    + intros H. by exists [], (c :: s).
Qed.

Lemma re_match_lang {A} (r : regex) (s : str) (g : gmap nat str)
    (k : str → gmap nat str → option A) (x : A) :
  re_match r s g k = Some x →
  ∃ t s' g',
    s = t ++ s' ∧ lang r t ∧ k s' g' = Some x ∧
    (∀ n, mentions r n = false → g' !! n = g !! n) ∧
    (∀ n b, group_body r n = Some b → ∃ tn, g' !! n = Some tn ∧ lang b tn).
Proof.
  revert s g k. induction r as [p|p|p|r IH|r1 IH1 r2 IH2|m r IH]; intros s g k; simpl.
  - destruct s as [|c s]; [done|]. destruct (p c) eqn:Hc; [|done].
    intros H. exists [c], s, g. split_and!; by eauto.
  - intros H. apply star_match_lang in H as (t & s' & -> & Ht & Hk).
    exists t, s', g. by split_and!.
  - destruct s as [|c s]; [done|]. destruct (p c) eqn:Hc; [|done].
    intros H. apply star_match_lang in H as (t & s' & -> & Ht & Hk).
    exists (c :: t), s', g. split_and!; try done. by constructor.
  - destruct (re_match r s g k) eqn:E.
    + intros [= <-]. apply IH in E as (t & s' & g' & -> & Ht & Hk & Hg & _).
      exists t, s', g'. split_and!; by eauto.
    + intros H. exists [], s, g. split_and!; by eauto.
  - intros H. apply IH1 in H as (t1 & s1 & g1 & -> & Ht1 & H & Hg1 & Hb1).
    apply IH2 in H as (t2 & s2 & g2 & -> & Ht2 & H & Hg2 & Hb2).
    exists (t1 ++ t2), s2, g2. split_and!.
    + by rewrite app_assoc.
    + by eauto.
    + done.
    + intros n [H1 H2]%orb_false_iff. by rewrite Hg2, Hg1.
    + intros n b. destruct (group_body r2 n) as [b2|] eqn:E2.
      * intros [= <-]. by apply Hb2.
      * destruct (mentions r2 n) eqn:M2; [done|].
        intros Hb. rewrite (Hg2 n M2). by apply Hb1.
  - intros H. apply IH in H as (t & s' & g' & -> & Ht & Hk & Hg & Hb).
    eexists t, s', _. split_and!; [done|done|exact Hk| |].
    + intros n [H1 H2]%orb_false_iff. apply bool_decide_eq_false in H1.
      rewrite lookup_insert_ne by done. by apply Hg.
    + intros n b. rewrite length_app, Nat.add_sub, take_app_length.
      case_bool_decide as Hmn.
      * intros [= <-]. subst n. rewrite lookup_insert_eq. by eauto.
      * intros Hn. rewrite lookup_insert_ne by done. by apply Hb.
Qed.

Lemma search_lang (r : regex) (s : str) (m : match_obj) (n : nat) (b : regex) :
  search r s = Some m → group_body r n = Some b →
  ∃ tn, groups m !! n = Some tn ∧ lang b tn.
Proof.
  intros Hs Hb. induction s as [|c s IH]; simpl in Hs.
  - destruct (re_match r [] ∅ _) eqn:E; [|done]. injection Hs as <-.
    apply re_match_lang in E as (t & s' & g' & _ & _ & [= <-] & _ & H).
    by apply H.
  - destruct (re_match r (c :: s) ∅ _) eqn:E; [|by auto]. injection Hs as <-.
    apply re_match_lang in E as (t & s' & g' & _ & _ & [= <-] & _ & H).
    by apply H.
Qed.

(** ** [float] reads whatever group 1 holds *)

Lemma isdecimal_plain (c : N) :
  isdecimal c = true →
  (∃ d, decimal c = Some d) ∧
  (c =? 45) = false ∧ (c =? 43) = false ∧ (46 =? c) = false.
Proof.
  unfold isdecimal, decimal. destruct (c <? 128) eqn:Hc.
  - unfold ascii_isdecimal.
    destruct ((48 <=? c) && (c <=? 57)) eqn:Hd; [|done].
    apply andb_true_iff in Hd as [H1%N.leb_le H2%N.leb_le].
    intros _. split; [by eauto|].
    split_and!; apply N.eqb_neq; lia.
  - apply N.ltb_ge in Hc. destruct (uni_decimal c); [|done].
    intros _. split; [by eauto|].
    split_and!; apply N.eqb_neq; lia.
Qed.

Lemma digits_decimal (l : str) (acc : N) :
  Forall (λ c, isdecimal c = true) l → ∃ n, digits acc l = Some n.
Proof.
  intros H. revert acc. induction H as [|c l Hc _ IH]; intros acc; simpl.
  - by eauto.
  - destruct (isdecimal_plain c Hc) as ([d ->] & _). apply IH.
Qed.

Lemma find_point_after_digits (ds rest : str) :
  Forall (λ c, isdecimal c = true) ds →
  find (text ".") (ds ++ 46 :: rest) = Some (length ds).
Proof.
  induction 1 as [|c ds Hc _ IH]; [done|].
  destruct (isdecimal_plain c Hc) as (_ & _ & _ & Hp).
  change (find (text ".") ((c :: ds) ++ 46 :: rest))
    with (if (46 =? c) && true then Some 0%nat
          else S <$> find (text ".") (ds ++ 46 :: rest)).
  by rewrite Hp, IH.
Qed.

Lemma find_point_in_digits (ds : str) :
  Forall (λ c, isdecimal c = true) ds → find (text ".") ds = None.
Proof.
  induction 1 as [|c ds Hc _ IH]; [done|].
  destruct (isdecimal_plain c Hc) as (_ & _ & _ & Hp).
  change (find (text ".") (c :: ds))
    with (if (46 =? c) && true then Some 0%nat else S <$> find (text ".") ds).
  by rewrite Hp, IH.
Qed.

(** A digit run, with or without a fraction, and no sign. *)
Lemma float_of_unsigned (neg : bool) (ds frac : str) :
  ds ≠ [] → Forall (λ c, isdecimal c = true) ds →
  lang (Opt (Cat (Class (one_of (text "."))) (Plus isdecimal))) frac →
  ∃ x, match
         (let '(int_part, frac_part) :=
            match split1 (text ".") (ds ++ frac) with
            | [i; f] => (i, f)
            | _ => (ds ++ frac, [])
            end in
          match int_part ++ frac_part, digits 0 (int_part ++ frac_part) with
          | _ :: _, Some mant => Ok (binary64_of_decimal neg mant (length frac_part))
          | _, _ => Raise not_a_float
          end)
       with Ok y => y = x | Raise _ => False end.
Proof.
  intros Hne Hds [->|(t1 & fs & -> & [c [-> Hc]] & Hfs & Hdec)].
  - rewrite app_nil_r. unfold split1. rewrite (find_point_in_digits _ Hds).
    rewrite app_nil_r. destruct (digits_decimal ds 0 Hds) as [n ->].
    destruct ds; [done|]. by eauto.
  - assert (c = 46) as ->.
    { unfold one_of in Hc. simpl in Hc. rewrite orb_false_r in Hc.
      by apply N.eqb_eq in Hc. }
    unfold split1. cbn [app]. rewrite (find_point_after_digits _ _ Hds).
    rewrite take_app_length.
    replace (length ds + length (text "."))%nat with (length (ds ++ [46]))
      by (by rewrite length_app).
    change (ds ++ 46 :: fs) with (ds ++ [46] ++ fs).
    rewrite app_assoc, drop_app_length.
    destruct (digits_decimal (ds ++ fs) 0) as [n ->].
    { by apply Forall_app. }
    destruct ds; [done|]. simpl. by eauto.
Qed.

Lemma float_of_group1 (t : str) :
  lang (Cat (Opt (Class (one_of (text "+-"))))
         (Cat (Plus isdecimal)
              (Opt (Cat (Class (one_of (text "."))) (Plus isdecimal))))) t →
  ∃ x, float_of_str t = Ok x.
Proof.
  intros (sg & rest & -> & Hsg & ds & frac & -> & [Hne Hds] & Hfrac).
  destruct ds as [|d0 ds]; [done|].
  destruct (isdecimal_plain d0 (Forall_inv Hds)) as (_ & Hm & Hp & _).
  unfold float_of_str.
  destruct Hsg as [->|[c [-> Hc]]].
  - cbn [app]. rewrite Hm, Hp.
    destruct (float_of_unsigned false (d0 :: ds) frac) as [x Hx]; [done..|].
    cbn [app] in Hx. destruct (let '(_, _) := _ in _) as [y|]; [|done].
    subst. by eauto.
  - unfold one_of in Hc. simpl in Hc. rewrite orb_false_r in Hc.
    apply orb_true_iff in Hc as [->%N.eqb_eq| ->%N.eqb_eq]; cbn [app N.eqb Pos.eqb].
    + destruct (float_of_unsigned false (d0 :: ds) frac) as [x Hx]; [done..|].
      cbn [app] in Hx. destruct (let '(_, _) := _ in _) as [y|]; [|done].
      subst. by eauto.
    + destruct (float_of_unsigned true (d0 :: ds) frac) as [x Hx]; [done..|].
      cbn [app] in Hx. destruct (let '(_, _) := _ in _) as [y|]; [|done].
      subst. by eauto.
Qed.

(** The pair that one measurement block stores. *)
Lemma measured_shape (s : str) :
  measurement_shape (Some (measured_value s)) (Some (measured_unit s)).
Proof.
  unfold measurement_shape, measured_value, measured_unit, group.
  destruct (search main_regex s) as [m|] eqn:E; [|by left].
  right.
  destruct (search_lang _ _ _ 1%nat _ E eq_refl) as (t1 & -> & Ht1).
  destruct (search_lang _ _ _ 2%nat _ E eq_refl) as (t2 & -> & Hne & Ht2).
  destruct (float_of_group1 t1 Ht1) as [x ->].
  by exists x, t2.
Qed.

(** ** Further properties of the parser *)

(** X1: in a structured reading each channel is either missing altogether
    (value and unit both [None]) or complete: the value is a float and the
    unit a non-empty text of unit characters.  The [ValueError] handler is
    never taken. *)
Theorem channels_complete_or_missing (message : str) (h : heap) :
  contains (text "MAIN:") message = true →
  ∃ d, parse_all_measurements message h = (Ok (length h), h ++ [d]) ∧
       measurement_shape (d !! "main_value") (d !! "main_unit") ∧
       measurement_shape (d !! "aux_value") (d !! "aux_unit").
Proof.
  intros C. exists (reading message). split; [apply parse_reading|].
  unfold reading. destruct (contains_split1 _ _ C) as (pre & post & _ & ->).
  simplify_map_eq. split; [apply measured_shape|].
  destruct (split1 (text "AUX:") post) as [|? [|aux [|? ?]]]; simpl;
    try (by left). apply measured_shape.
Qed.

(** X2: a structured reading has exactly the six keys [flags],
    [main_value], [main_unit], [aux_value], [aux_unit] and [low_battery],
    and [low_battery] holds a boolean. *)
Theorem structured_reading_keys (message : str) (h : heap) :
  contains (text "MAIN:") message = true →
  ∃ d, parse_all_measurements message h = (Ok (length h), h ++ [d]) ∧
       (∀ key, is_Some (d !! key) ↔
               key ∈ ["flags"; "main_value"; "main_unit";
                      "aux_value"; "aux_unit"; "low_battery"]) ∧
       ∃ b, d !! "low_battery" = Some (VBool b).
Proof.
  intros C. exists (reading message). split; [apply parse_reading|].
  unfold reading. destruct (contains_split1 _ _ C) as (pre & post & _ & ->).
  split; [|by simplify_map_eq; eauto].
  intros key. rewrite <- elem_of_dom. rewrite !dom_insert_L, dom_empty_L.
  rewrite !elem_of_union, !elem_of_singleton, elem_of_empty.
  rewrite !elem_of_cons, elem_of_nil. tauto.
Qed.

Lemma split_runs_tokens (word s : str) :
  Forall (λ c, isspace c = false) word →
  Forall token (split_runs word s).
Proof.
  revert word. induction s as [|c s IH]; intros word Hw; simpl.
  - destruct word as [|c0 word]; [done|]. constructor; [|done]. split.
    + intros H%(f_equal length). rewrite length_reverse in H. done.
    + by apply Forall_reverse.
  - destruct (isspace c) eqn:Hc.
    + destruct word as [|c0 word]; [by apply IH|].
      constructor; [|by apply IH]. split.
      * intros H%(f_equal length). rewrite length_reverse in H. done.
      * by apply Forall_reverse.
    + apply IH. by constructor.
Qed.

Lemma split_runs_word (t word rest : str) :
  Forall (λ c, isspace c = false) t →
  split_runs word (t ++ rest) = split_runs (reverse t ++ word) rest.
Proof.
  intros Ht. revert word. induction Ht as [|c t Hc _ IH]; intros word; [done|].
  simpl. rewrite Hc, IH. by rewrite reverse_cons, <- app_assoc.
Qed.

Lemma split_join (l : list str) :
  Forall token l → split (join (text " ") l) = l.
Proof.
  unfold split. induction 1 as [|t l [Hne Ht] Hl IH]; [done|].
  assert (reverse t ≠ []) as Hrev.
  { intros H%(f_equal length). rewrite length_reverse in H. by destruct t. }
  destruct l as [|t' l].
  - simpl. rewrite <- (app_nil_r t) at 1. rewrite split_runs_word by done.
    rewrite app_nil_r. simpl. destruct (reverse t) eqn:E; [done|].
    by rewrite <- E, reverse_involutive.
  - change (join (text " ") (t :: t' :: l))
      with (t ++ 32 :: join (text " ") (t' :: l)).
    rewrite split_runs_word by done. rewrite app_nil_r.
    change (split_runs (reverse t) (32 :: join (text " ") (t' :: l)))
      with (match reverse t with
            | [] => split_runs [] (join (text " ") (t' :: l))
            | _ => reverse (reverse t) :: split_runs [] (join (text " ") (t' :: l))
            end).
    destruct (reverse t) eqn:E; [done|].
    by rewrite <- E, reverse_involutive, IH.
Qed.

(** X3: the flags of a structured reading are the whitespace-separated
    words before the first [MAIN:]; each is non-empty and free of
    whitespace, so joining them with single blanks (as the summary and the
    CSV row do) and splitting again gives the same flags. *)
Theorem flags_are_words (message : str) (h : heap) :
  contains (text "MAIN:") message = true →
  ∃ pre post d fl,
    first_cut (text "MAIN:") message pre post ∧
    parse_all_measurements message h = (Ok (length h), h ++ [d]) ∧
    d !! "flags" = Some (VList fl) ∧
    fl = split (strip pre) ∧
    Forall token fl ∧
    split (join (text " ") fl) = fl.
Proof.
  intros C. destruct (contains_split1 _ _ C) as (pre & post & Hcut & Hsplit).
  exists pre, post, (reading message), (split (strip pre)).
  assert (Forall token (split (strip pre))) as Htok by (by apply split_runs_tokens).
  split_and!; try done.
  - apply parse_reading.
  - unfold reading. rewrite Hsplit. by simplify_map_eq.
  - by apply split_join.
Qed.

(** ** The port list and the selection *)

Lemma find_None_nowhere (sep s : str) (j : nat) :
  find sep s = None → startswith sep (drop j s) = false.
Proof.
  revert j. induction s as [|c s IH]; intros j; simpl.
  - destruct (startswith sep []) eqn:E; [done|]. intros _. by destruct j.
  - destruct (startswith sep (c :: s)) eqn:E; [done|].
    destruct (find sep s) eqn:F; [done|]. intros _.
    destruct j; [done|]. by apply IH.
Qed.

Lemma startswith_app_longer (sep a b : str) :
  (length sep ≤ length a)%nat → startswith sep (a ++ b) = startswith sep a.
Proof.
  revert a. induction sep as [|x sep IH]; intros a Hlen; [by destruct a|].
  destruct a as [|y a]; simpl in *; [lia|].
  rewrite IH by lia. done.
Qed.

Lemma startswith_drop_take (sep s : str) (i j : nat) :
  startswith sep (drop j (take i s)) = true → startswith sep (drop j s) = true.
Proof.
  intros [t Ht]%startswith_inv.
  rewrite <- (take_drop i s) at 1.
  destruct (decide (j ≤ length (take i s))%nat) as [Hj|Hj].
  - rewrite drop_app_le by done. rewrite Ht, <- app_assoc. apply startswith_app.
  - rewrite drop_ge in Ht by lia. destruct sep; [|done]. by destruct (drop j _).
Qed.

Lemma split_on_head (sep s : str) :
  split_on sep s !! 0%nat
  = Some (match find sep s with Some i => take i s | None => s end).
Proof.
  unfold split_on. destruct s as [|c s].
  - cbn [length split_cuts]. destruct (find sep []) as [i|]; [|done].
    by rewrite take_nil.
  - cbn [length split_cuts]. by destruct (find sep (c :: s)).
Qed.

Lemma extract_listed_entry (port : port_info) :
  contains (text " - ") (device port ++ text " -") = false →
  extract_device_from_selection
    (device port ++ text " - " ++ description port) = Some (device port).
Proof.
  intros Hport.
  unfold extract_device_from_selection. rewrite split_on_head.
  assert (find (text " - ") (device port ++ text " - " ++ description port)
          = Some (length (device port))) as ->.
  { apply (first_cut_find _ _ _ (description port)). split; [done|].
    intros j Hj. rewrite drop_app_le by lia.
    change (text " - " ++ description port)
      with (text " -" ++ (text " " ++ description port)).
    rewrite app_assoc. rewrite startswith_app_longer.
    - rewrite <- drop_app_le by lia. apply find_None_nowhere.
      unfold contains in Hport. by destruct (find _ _).
    - rewrite length_app, length_drop.
      change (length (text " - ")) with 3%nat.
      change (length (text " -")) with 2%nat. lia. }
  by rewrite take_app_length.
Qed.

(** X4: an entry of the port list gives its device back, provided no
    [" - "] starts inside the device name (the name followed by [" -"]
    does not contain it).  So the selections that [list_com_ports] offers
    lead to the devices that [comports()] reported. *)
Theorem device_of_listed_port (ports : list port_info) :
  Forall (λ port, contains (text " - ") (device port ++ text " -") = false) ports →
  extract_device_from_selection <$> list_com_ports ports
  = (λ port, Some (device port)) <$> ports.
Proof.
  induction 1 as [|port ports Hport _ IH]; [done|].
  unfold list_com_ports. rewrite !fmap_cons. f_equal; [|exact IH].
  by apply extract_listed_entry.
Qed.

(** X5: [extract_device_from_selection] always returns a text; the text
    contains no [" - "], so extracting again changes nothing; and a
    selection without [" - "] is returned whole. *)
Theorem extracted_device_has_no_separator (selection : str) :
  ∃ dev,
    extract_device_from_selection selection = Some dev ∧
    contains (text " - ") dev = false ∧
    extract_device_from_selection dev = Some dev ∧
    (contains (text " - ") selection = false → dev = selection).
Proof.
  unfold extract_device_from_selection. rewrite split_on_head.
  eexists. split; [done|].
  assert (contains (text " - ")
            match find (text " - ") selection with
            | Some i => take i selection
            | None => selection
            end = false) as Hnone.
  { unfold contains at 1.
    destruct (find (text " - ") selection) as [i|] eqn:F; [|by rewrite F].
    destruct (find (text " - ") (take i selection)) as [j|] eqn:G; [|done].
    exfalso.
    destruct (find_first_cut _ _ _ F) as [Hs Hearlier].
    destruct (find_first_cut _ _ _ G) as [Ht _].
    assert (j < length (take i selection))%nat as Hj.
    { revert Ht. generalize (take i selection). intros X HX.
      apply (f_equal length) in HX. rewrite !length_app, length_take in HX.
      change (length (text " - ")) with 3%nat in HX. lia. }
    specialize (Hearlier j Hj).
    assert (startswith (text " - ") (drop j selection) = true); [|congruence].
    apply (startswith_drop_take _ _ i).
    rewrite Ht at 1. rewrite drop_app_length'; [apply startswith_app|].
    rewrite length_take. lia. }
  split_and!.
  - exact Hnone.
  - rewrite split_on_head. unfold contains in Hnone.
    by destruct (find (text " - ") _) eqn:E in Hnone; rewrite E.
  - unfold contains. by destruct (find (text " - ") selection).
Qed.

(** ** What one pass does, case by case *)

Lemma pass_idle_none (ev : env) (w : world) :
  in_waiting ev = Ok 0 → pass ev w = (Ok (), w).
Proof.
  intros H. unfold pass, try_except, poll, mbind, M_bind, bind, call.
  by rewrite H.
Qed.

Lemma pass_idle_blank (ev : env) (n : N) (decoded : str) (w : world) :
  in_waiting ev = Ok n → readline_decoded ev = Ok decoded →
  strip decoded = [] → pass ev w = (Ok (), w).
Proof.
  intros H1 H2 H3. unfold pass, try_except, poll, mbind, M_bind, bind, call.
  rewrite H1. destruct (0 <? n); [|done]. by rewrite H2, H3.
Qed.

Lemma pass_port_error (ev : env) (e : exn) (w : world) :
  in_waiting ev = Raise e ∨
  (∃ n, in_waiting ev = Ok n ∧ (0 <? n) = true ∧ readline_decoded ev = Raise e) →
  pass ev w = (Ok (), set_stdout (stdout w ++ [reading_error e]) w).
Proof.
  unfold pass, try_except, poll, mbind, M_bind, bind, call.
  intros [H|(n & H1 & H2 & H3)].
  - by rewrite H.
  - by rewrite H1, H2, H3.
Qed.

(** A pass that receives a non-empty line runs [handle_line] under the
    handler. *)
Lemma pass_handles (ev : env) (n : N) (decoded : str) (w : world) :
  in_waiting ev = Ok n → (0 <? n) = true →
  readline_decoded ev = Ok decoded → strip decoded ≠ [] →
  pass ev w
  = try_except (handle_line ev (strip decoded)) Exception
      (λ e, print (reading_error e)) w.
Proof.
  intros H1 H2 H3 H4. unfold pass, try_except, poll, mbind, M_bind, bind, call.
  rewrite H1, H2, H3. by destruct (strip decoded).
Qed.

(** X6: a pass that finds no bytes waiting, or a line that is blank once
    stripped, changes nothing at all. *)
Theorem idle_pass_changes_nothing (ev : env) (w : world) :
  in_waiting ev = Ok 0 ∨
  (∃ n decoded, in_waiting ev = Ok n ∧ readline_decoded ev = Ok decoded ∧
                strip decoded = []) →
  pass ev w = (Ok (), w).
Proof.
  intros [H|(n & decoded & H1 & H2 & H3)].
  - by apply pass_idle_none.
  - by eapply pass_idle_blank.
Qed.

(** X7: when the serial port raises, on [in_waiting] or on [readline],
    the pass prints ["Error in serial reading: "] followed by the error
    and changes nothing else; it does not raise. *)
Theorem port_error_only_printed (ev : env) (e : exn) (w : world) :
  in_waiting ev = Raise e ∨
  (∃ n, in_waiting ev = Ok n ∧ (0 <? n) = true ∧ readline_decoded ev = Raise e) →
  ∃ w', pass ev w = (Ok (), w') ∧
        stdout w' = stdout w ++ [text "Error in serial reading: " ++ exn_str e] ∧
        objects w' = objects w ∧ self w' = self w ∧ locals w' = locals w ∧
        log_sink w' = log_sink w ∧ display_sink w' = display_sink w ∧
        disk w' = disk w.
Proof.
  intros H. eexists. split; [by apply pass_port_error|]. by split_and!.
Qed.

(** ** The sinks *)

Lemma summarize_text (r : nat) (line : str) (w : world) :
  contains (text "MAIN:") line = true →
  objects w !! r = Some (reading line) →
  ∃ w',
    runs (summarize r) w (summary line) w' ∧
    objects w' = objects w ∧ self w' = self w ∧ disk w' = disk w ∧
    stdout w' = stdout w ∧ log_sink w' = log_sink w ∧
    display_sink w' = display_sink w ∧
    locals w' = line_locals (reading line) (locals w).
Proof.
  intros C Hd. destruct (reading_flags line C) as (_ & [fl Hfl] & _).
  destruct (reading_fields line C) as (_ & H2 & _ & H4 & H5).
  eexists. split.
  - unfold summarize. run_seq. rewrite Hfl. cbn [default join_value].
    run_seq.
    unfold summary, flags_field. rewrite C. cbn zeta.
    rewrite Hfl, <- H2, <- H4, <- H5. apply runs_ret.
  - unfold line_locals, flags_field. rewrite Hfl. by split_and!.
Qed.

Lemma report_sinks (line : str) (w : world) :
  ∃ w', report line w = (Ok (), w') ∧
        self w' = self w ∧ disk w' = disk w ∧ stdout w' = stdout w ∧
        display_sink w' = display_sink w ++ shown line ∧
        log_sink w' = log_sink w ++ [text "RAW: " ++ line; summary line].
Proof.
  destruct (contains (text "MAIN:") line) eqn:C.
  - destruct (reading_flags line C) as (Hraw & _ & [v Hv]).
    set (w0 := set_log_sink (log_sink w ++ [text "RAW: " ++ line]) w).
    set (w1 := set_objects (objects w0 ++ [reading line]) w0).
    destruct (summarize_text (length (objects w0)) line w1 C)
      as (w2 & Hsum & Hobj & Hself & Hdisk & Hout & Hlog & Hdis & _);
      [by apply list_lookup_middle|].
    assert (objects w2 !! length (objects w0) = Some (reading line)) as Hlook.
    { rewrite Hobj. by apply list_lookup_middle. }
    assert (∃ w3, runs (v' ← on_objects (getitem (length (objects w0)) "main_value");
                        match v' with VNone => mret () | _ => update_callback v' end)
                    w2 () w3 ∧
                  self w3 = self w2 ∧ disk w3 = disk w2 ∧ stdout w3 = stdout w2 ∧
                  log_sink w3 = log_sink w2 ∧
                  display_sink w3 = display_sink w2 ++ shown line)
      as (w3 & Hshow & Hself3 & Hdisk3 & Hout3 & Hlog3 & Hdis3).
    { pose proof (measured_shape) as Hshape.
      assert (v = VNone ∨ ∃ x, v = VFloat x) as [->|[x ->]].
      { unfold reading in Hv.
        destruct (contains_split1 _ _ C) as (pre & post & _ & Hs).
        rewrite Hs in Hv. simplify_map_eq.
        unfold measured_value. repeat case_match; by eauto. }
      - eexists. split.
        + eapply runs_bind; [by eapply runs_getitem|]. cbn beta iota. run_one.
        + unfold shown. rewrite Hv. by rewrite app_nil_r.
      - eexists. split.
        + eapply runs_bind; [by eapply runs_getitem|]. cbn beta iota. run_one.
        + unfold shown. by rewrite Hv. }
    eexists. split.
    + unfold report. eapply runs_bind; [apply runs_log_callback|]. cbn beta.
      eapply runs_bind; [apply runs_parse|]. cbn beta.
      eapply runs_bind; [eapply runs_dict_contains; by apply list_lookup_middle|].
      cbn beta. rewrite Hraw.
      change (bool_decide (is_Some (@None value))) with false. cbn iota.
      eapply runs_bind; [exact Hsum|]. cbn beta.
      eapply runs_bind; [by eapply runs_dict_contains|]. cbn beta.
      rewrite Hv. change (bool_decide (is_Some (Some v))) with true. cbn iota.
      eapply runs_bind; [exact Hshow|]. cbn beta.
      apply runs_log_callback.
    + fields. rewrite Hself3, Hdisk3, Hout3, Hlog3, Hdis3.
      rewrite Hself, Hdisk, Hout, Hlog, Hdis. subst w1 w0. fields.
      split_and!; try done. by rewrite <- app_assoc.
  - pose proof (reading_raw line C) as Hd.
    eexists. split.
    + unfold report. eapply runs_bind; [apply runs_log_callback|]. cbn beta.
      eapply runs_bind; [apply runs_parse|]. cbn beta.
      eapply runs_bind; [eapply runs_dict_contains; by apply list_lookup_middle|].
      cbn beta. rewrite Hd. rewrite lookup_singleton_eq.
      change (bool_decide (is_Some (Some (VStr line)))) with true. cbn iota.
      eapply runs_bind.
      { eapply runs_bind;
          [eapply runs_getitem; [by apply list_lookup_middle|apply lookup_singleton_eq]|].
        cbn beta. apply runs_ret. }
      cbn beta.
      eapply runs_bind;
        [eapply runs_dict_contains; simpl; by apply list_lookup_middle|].
      cbn beta. rewrite lookup_singleton_ne by done.
      change (bool_decide (is_Some (@None value))) with false. cbn iota.
      eapply runs_bind; [apply runs_ret|]. cbn beta.
      apply runs_log_callback.
    + fields. unfold shown, summary. rewrite C, Hd.
      rewrite lookup_singleton_ne by done. rewrite app_nil_r.
      split_and!; try done. by rewrite <- app_assoc.
Qed.

Lemma open_on_demand_sinks (ev : env) (w : world) :
  ∃ w', open_on_demand ev w = (Ok (), w') ∧
        same_rest w w' ∧
        logging_enabled (self w') = logging_enabled (self w) ∧
        log_sink w' = log_sink w ++
          (if logging_enabled (self w) then open_errors ev w else
             open_errors ev (set_self (set_logging_enabled true (self w)) w)).
Proof.
  unfold open_on_demand, open_errors, same_rest, mbind, M_bind, bind, gets,
    try_except, call, modify, log_callback.
  destruct w as [h [s l f p] lo ls ds so dk]. cbn.
  destruct f as [f|]; [|destruct p as [[|c path]|]];
    try (eexists; split; [done|]; destruct l; cbn; by rewrite ?app_nil_r).
  destruct (open_append ev (c :: path)) as [[]|e];
    eexists; (split; [done|]); destruct l; cbn; by rewrite ?app_nil_r.
Qed.

Lemma preserves_write_any (P : world → Prop) (ev : env) :
  (∀ w t, P w → P (set_self t w)) →
  (∀ w d, P w → P (set_disk d w)) →
  preserves P (write_csv_line ev).
Proof.
  intros Hself Hdisk. unfold write_csv_line. cbn zeta.
  do 6 (apply preserves_bind; [apply preserves_load|]; intros ?).
  apply preserves_bind.
  - intros w HP. unfold csv_write.
    destruct (csv_file (self w)) as [f|]; [|done].
    destruct (f_closed f); [done|]. by apply Hself.
  - intros _ w HP. unfold csv_flush.
    destruct (csv_file (self w)) as [f|]; [|done].
    destruct (f_closed f); [done|]. cbn. by apply Hdisk, Hself.
Qed.

Lemma log_to_csv_sinks (ev : env) (w : world) :
  same_rest w (snd (log_to_csv ev w)) ∧
  log_sink (snd (log_to_csv ev w)) = log_sink w ++ open_errors ev w.
Proof.
  unfold log_to_csv, mbind, M_bind, bind, gets. cbn beta iota.
  destruct (logging_enabled (self w)) eqn:Hen.
  - destruct (open_on_demand_sinks ev w) as (w1 & -> & Hrest & _ & Hlog).
    rewrite Hen in Hlog. cbn beta iota.
    destruct (csv_file (self w1)) as [f|].
    + apply (preserves_write_any
               (λ x, same_rest w x ∧ log_sink x = log_sink w ++ open_errors ev w));
        [by intros ? ? [[? [? [? ?]]] ?]..|done].
    + done.
  - cbn. unfold open_errors. rewrite Hen. by rewrite app_nil_r.
Qed.

(** The sinks after a pass that handles a line. *)
Lemma pass_line_sinks (ev : env) (n : N) (decoded : str) (w : world) :
  in_waiting ev = Ok n → (0 <? n) = true →
  readline_decoded ev = Ok decoded → strip decoded ≠ [] →
  ∃ w', pass ev w = (Ok (), w') ∧
        display_sink w' = display_sink w ++ shown (strip decoded) ∧
        log_sink w' = log_sink w
          ++ [text "RAW: " ++ strip decoded; summary (strip decoded)]
          ++ open_errors ev w.
Proof.
  intros H1 H2 H3 H4.
  destruct (report_sinks (strip decoded) w)
    as (w1 & Hrep & Hself & Hdisk & Hout & Hdis & Hlog).
  destruct (log_to_csv_sinks ev w1) as ((_ & _ & Hdis2 & _) & Hlog2).
  assert (open_errors ev w1 = open_errors ev w) as Herr.
  { unfold open_errors. by rewrite Hself. }
  rewrite (pass_handles ev n decoded w H1 H2 H3 H4).
  unfold try_except, handle_line. rewrite (bind_ok _ _ _ _ _ Hrep).
  destruct (log_to_csv ev w1) as [[[]|e] w2]; cbn in *.
  - eexists. split; [done|]. rewrite Hdis2, Hlog2, Hdis, Hlog, Herr.
    by rewrite <- app_assoc.
  - eexists. split; [done|]. fields. rewrite Hdis2, Hlog2, Hdis, Hlog, Herr.
    by rewrite <- app_assoc.
Qed.

(** X8: for a line that is not blank, the display callback receives the
    main value of that line when the reading has one, and nothing
    otherwise; a line without [MAIN:] never reaches the display. *)
Theorem display_gets_main_value (ev : env) (n : N) (decoded : str) (w : world) :
  in_waiting ev = Ok n → (0 <? n) = true →
  readline_decoded ev = Ok decoded → strip decoded ≠ [] →
  ∃ w' d,
    pass ev w = (Ok (), w') ∧
    parse_all_measurements (strip decoded) (objects w)
      = (Ok (length (objects w)), objects w ++ [d]) ∧
    display_sink w' = display_sink w ++
      match d !! "main_value" with
      | Some (VFloat x) => [VFloat x]
      | _ => []
      end ∧
    (contains (text "MAIN:") (strip decoded) = false →
     display_sink w' = display_sink w).
Proof.
  intros H1 H2 H3 H4.
  destruct (pass_line_sinks ev n decoded w H1 H2 H3 H4) as (w' & Hpass & Hdis & _).
  exists w', (reading (strip decoded)). split_and!; try done.
  - apply parse_reading.
  - intros C. rewrite Hdis. unfold shown. rewrite (reading_raw _ C).
    rewrite lookup_singleton_ne by done. by rewrite app_nil_r.
Qed.

(** X9: for a line that is not blank, the logging callback receives
    ["RAW: "] followed by the line, then the summary of the line, and
    after that only the error of a refused open, if one was tried.  In
    the summary a missing value reads [None] and a missing unit is
    empty. *)
Theorem line_logged_raw_then_summary (ev : env) (n : N) (decoded : str) (w : world) :
  in_waiting ev = Ok n → (0 <? n) = true →
  readline_decoded ev = Ok decoded → strip decoded ≠ [] →
  ∃ w' extra,
    pass ev w = (Ok (), w') ∧
    log_sink w' = log_sink w
      ++ [text "RAW: " ++ strip decoded; summary (strip decoded)] ++ extra ∧
    (extra = [] ∨
     ∃ path e, logging_enabled (self w) = true ∧ csv_file (self w) = None ∧
               csv_path (self w) = Some path ∧ open_append ev path = Raise e ∧
               extra = [text "CSV Open Error: " ++ exn_str e]).
Proof.
  intros H1 H2 H3 H4.
  destruct (pass_line_sinks ev n decoded w H1 H2 H3 H4) as (w' & Hpass & _ & Hlog).
  exists w', (open_errors ev w). split_and!; try done.
  unfold open_errors.
  destruct (logging_enabled (self w)); [|by left].
  destruct (csv_file (self w)); [by left|].
  destruct (csv_path (self w)) as [[|c path]|]; try by left.
  destruct (open_append ev (c :: path)) as [[]|e] eqn:E; [by left|].
  right. by exists (c :: path), e.
Qed.

(** ** The files *)

Lemma pass_cases (ev : env) (w : world) :
  pass ev w = (Ok (), w) ∨
  (∃ e, pass ev w = (Ok (), set_stdout (stdout w ++ [reading_error e]) w)) ∨
  (∃ n decoded, in_waiting ev = Ok n ∧ (0 <? n) = true ∧
                readline_decoded ev = Ok decoded ∧ strip decoded ≠ []).
Proof.
  destruct (in_waiting ev) as [n|e] eqn:H1.
  - destruct (0 <? n) eqn:H2.
    + destruct (readline_decoded ev) as [decoded|e] eqn:H3.
      * destruct (strip decoded) as [|c line] eqn:H4.
        -- left. by eapply pass_idle_blank.
        -- right. right. exists n, decoded. split_and!; try done. by rewrite H4.
      * right. left. exists e. apply pass_port_error. right. by exists n.
    + left. apply pass_idle_none. apply N.ltb_ge in H2.
      rewrite H1. f_equal. lia.
  - right. left. exists e. apply pass_port_error. by left.
Qed.

Lemma pass_logging_off (ev : env) (w : world) :
  logging_enabled (self w) = false →
  self (snd (pass ev w)) = self w ∧ disk (snd (pass ev w)) = disk w.
Proof.
  intros Hoff.
  destruct (pass_cases ev w) as [->|[[e ->]|(n & decoded & H1 & H2 & H3 & H4)]];
    [done..|].
  rewrite (pass_handles ev n decoded w H1 H2 H3 H4).
  destruct (report_frame (strip decoded) w) as (w1 & Hrep & Hself & Hdisk & _).
  unfold try_except, handle_line. rewrite (bind_ok _ _ _ _ _ Hrep).
  unfold log_to_csv, mbind, M_bind, bind, gets. cbn beta iota.
  by rewrite Hself, Hoff.
Qed.

(** X10: while logging is switched off and the other thread asks for
    nothing, the loop keeps running and no pass changes a file or the
    thread's attributes, whatever arrives on the port. *)
Theorem nothing_written_while_logging_off (schedule : list tick) (w : world) :
  logging_enabled (self w) = false →
  stop_event (self w) = false →
  Forall (λ t, requests t = []) schedule →
  ∃ w', run schedule w = Looping w' ∧ self w' = self w ∧ disk w' = disk w.
Proof.
  intros Hoff Hstop Hsched. revert w Hoff Hstop.
  induction Hsched as [|t schedule Ht _ IH]; intros w Hoff Hstop.
  - by exists w.
  - simpl. rewrite Ht. simpl. rewrite Hstop.
    destruct (pass_ok (environment t) w) as [w1 Hpass].
    destruct (pass_logging_off (environment t) w Hoff) as [Hself Hdisk].
    rewrite Hpass in *. simpl in *.
    destruct (IH w1) as (w' & Hrun & Hself' & Hdisk'); [by rewrite Hself..|].
    exists w'. split_and!; [done|congruence|congruence].
Qed.

Lemma extends_refl (d : gmap str str) : extends d d.
Proof. intros p old H. exists []. by rewrite app_nil_r. Qed.

Lemma extends_trans (d1 d2 d3 : gmap str str) :
  extends d1 d2 → extends d2 d3 → extends d1 d3.
Proof.
  intros H12 H23 p old H. destruct (H12 p old H) as [m1 H1].
  destruct (H23 p _ H1) as [m2 H2]. exists (m1 ++ m2). by rewrite app_assoc.
Qed.

Lemma extends_append_to (path data : str) (d : gmap str str) :
  extends d (append_to path data d).
Proof.
  intros p old H. unfold append_to. destruct data as [|c data].
  - exists []. by rewrite app_nil_r.
  - destruct (decide (p = path)) as [->|Hne].
    + rewrite lookup_insert_eq, H. by eauto.
    + rewrite lookup_insert_ne by done. exists []. by rewrite app_nil_r.
Qed.

Lemma extends_create (path : str) (d : gmap str str) :
  extends d (create_if_missing path d).
Proof.
  intros p old H. unfold create_if_missing.
  destruct (d !! path) eqn:E.
  - exists []. by rewrite app_nil_r.
  - destruct (decide (p = path)) as [->|Hne]; [congruence|].
    rewrite lookup_insert_ne by done. exists []. by rewrite app_nil_r.
Qed.

Lemma serve_disk_settled (q : request) (w : world) :
  file_settled w → disk (snd (serve q w)) = disk w.
Proof.
  unfold file_settled. destruct q as [|[|] path]; by_cases_on_file w; try done.
  by intros [_ ->].
Qed.

Lemma serve_csv_path (q : request) (w : world) :
  csv_path (self (snd (serve q w)))
  = match q with
    | SetLogging true p' => p'
    | _ => csv_path (self w)
    end.
Proof. destruct q as [|[|] path]; by by_cases_on_file w. Qed.

Lemma serve_csv_file (q : request) (w : world) :
  file_settled w →
  csv_file (self (snd (serve q w)))
  = match q with
    | SetLogging false _ => None
    | _ => csv_file (self w)
    end.
Proof. destruct q as [|[|] path]; by by_cases_on_file w. Qed.

Lemma pass_extends (d0 : gmap str str) (ev : env) :
  preserves (λ w, file_settled w ∧ extends d0 (disk w)) (pass ev).
Proof.
  apply preserves_pass.
  - intros w1 w2 Hs Hd. unfold file_settled. by rewrite Hs, Hd.
  - intros ev'. apply preserves_open_on_demand.
    + intros w1 w2 Hs Hd. unfold file_settled. by rewrite Hs, Hd.
    + intros w1 path _ [_ Hext]. split; [done|]. fields.
      eapply extends_trans; [exact Hext|apply extends_create].
  - intros ev'. apply preserves_write_csv_line; [by intros w1 [? _]|].
    intros w1 path data Hf [Hs Hext]. split.
    + unfold file_settled. fields. by rewrite Hf.
    + fields. eapply extends_trans; [exact Hext|apply extends_append_to].
Qed.

(** X11: the loop only ever appends.  From a world with nothing
    unflushed, whatever the schedule (requests of the other thread,
    lines, failures, the stop signal), every file that existed is still
    there at the end, and its old content is a prefix of the new one. *)
Theorem files_only_grow (schedule : list tick) (w : world) :
  file_settled w →
  extends (disk w) (disk (final_world (run schedule w))).
Proof.
  intros Hs.
  assert (∀ w1, file_settled w1 ∧ extends (disk w) (disk w1) →
                extends (disk w) (disk (final_world (run schedule w1)))) as H.
  { induction schedule as [|t schedule IH]; intros w1 [Hs1 Hext]; [done|].
    simpl.
    assert (file_settled (serve_all (requests t) w1) ∧
            extends (disk w) (disk (serve_all (requests t) w1))) as [Hs2 Hext2].
    { revert w1 Hs1 Hext. generalize (requests t). intros qs.
      induction qs as [|q qs IHq]; intros w1 Hs1 Hext; [done|].
      simpl. apply IHq; [by apply serve_settled|].
      by rewrite serve_disk_settled. }
    destruct (stop_event (self (serve_all (requests t) w1))).
    - destruct (finish_run (serve_all (requests t) w1)) as (w2 & -> & _ & _ & Hd).
      simpl. by rewrite Hd.
    - destruct (pass_ok (environment t) (serve_all (requests t) w1)) as [w2 Hpass].
      rewrite Hpass. apply IH.
      replace w2 with (snd (pass (environment t) (serve_all (requests t) w1)))
        by (by rewrite Hpass).
      by apply pass_extends. }
  apply H. split; [done|apply extends_refl].
Qed.

(** X12: a file is never touched unless it is the log file.  If [p] is
    neither the stored path nor the name of the open file, and no request
    names it as the path, then its content (or its absence) is the same
    at the end of any schedule. *)
Theorem other_files_untouched (p : str) (schedule : list tick) (w : world) :
  file_settled w →
  csv_path (self w) ≠ Some p →
  (∀ f, csv_file (self w) = Some f → f_name f ≠ p) →
  Forall (λ t, Forall (λ q, names_path p q = false) (requests t)) schedule →
  disk (final_world (run schedule w)) !! p = disk w !! p.
Proof.
  set (P := λ w1 : world,
         file_settled w1 ∧ csv_path (self w1) ≠ Some p ∧
         (∀ f, csv_file (self w1) = Some f → f_name f ≠ p) ∧
         disk w1 !! p = disk w !! p).
  assert (P_local : ∀ w1 w2, self w2 = self w1 → disk w2 = disk w1 → P w1 → P w2).
  { intros w1 w2 Hs Hd. unfold P, file_settled. by rewrite Hs, Hd. }
  assert (P_pass : ∀ ev, preserves P (pass ev)).
  { apply preserves_pass; [done| |].
    - intros ev. intros w1 HP. pose proof HP as (Hs1 & Hp1 & Hf1 & Hd1).
      unfold open_on_demand, mbind, M_bind, bind, gets. cbn beta iota.
      destruct (csv_file (self w1)) as [f|] eqn:Hf; [done|].
      destruct (csv_path (self w1)) as [[|c path]|] eqn:Hp; [done| |done].
      unfold try_except, call, modify. cbn.
      destruct (open_append ev (c :: path)) as [[]|e]; cbn.
      + unfold P, file_settled. fields. split_and!.
        * done.
        * done.
        * by rewrite Hp.
        * intros f [= <-]. simpl. congruence.
        * rewrite <- Hd1. unfold create_if_missing.
          destruct (disk w1 !! (c :: path)); [done|].
          apply lookup_insert_ne. congruence.
      + by apply (P_local w1).
    - intros ev. apply preserves_write_csv_line; [by intros w1 [? _]|].
      intros w1 path data Hf (Hs1 & Hp1 & Hf1 & Hd1).
      unfold P, file_settled. fields. rewrite Hf. split_and!; try done.
      + by rewrite <- Hf.
      + rewrite append_to_other; [done|]. intros ->. by apply (Hf1 _ Hf). }
  assert (P_serve : ∀ q w1, names_path p q = false → P w1 → P (snd (serve q w1))).
  { intros q w1 Hq (Hs1 & Hp1 & Hf1 & Hd1). unfold P.
    split; [by apply serve_settled|].
    rewrite (serve_disk_settled q w1 Hs1). split_and!; [| |done].
    - rewrite serve_csv_path. destruct q as [|[|] [p'|]]; try done.
      simpl in Hq. apply bool_decide_eq_false in Hq. congruence.
    - rewrite serve_csv_file by done. by destruct q as [|[|] p']. }
  intros Hs Hp Hf Hsched.
  assert (P w) as Hw by done. clear Hs Hp Hf.
  assert (∀ w1, P w1 → disk (final_world (run schedule w1)) !! p = disk w !! p) as H;
    [|by apply H].
  induction Hsched as [|t schedule Ht _ IH]; intros w1 Hw1.
  { by destruct Hw1 as (_ & _ & _ & ?). }
  simpl.
  assert (P (serve_all (requests t) w1)) as Hw2.
  { revert w1 Hw1. induction Ht as [|q qs Hq _ IHq]; intros w1 Hw1; [done|].
    simpl. apply IHq. by apply P_serve. }
  destruct (stop_event (self (serve_all (requests t) w1))).
  - destruct Hw2 as (Hs2 & _ & _ & Hd2).
    destruct (finish_run (serve_all (requests t) w1)) as (w2 & -> & _ & _ & Hd).
    simpl. by rewrite Hd.
  - destruct (pass_ok (environment t) (serve_all (requests t) w1)) as [w2 Hpass].
    rewrite Hpass. apply IH.
    replace w2 with (snd (pass (environment t) (serve_all (requests t) w1)))
      by (by rewrite Hpass).
    by apply P_pass.
Qed.

(** ** Switching logging off and on *)


Lemma open_on_demand_no_path (ev : env) (w : world) :
  csv_path (self w) = None ∨ csv_path (self w) = Some [] →
  runs (open_on_demand ev) w () w.
Proof.
  intros Hp. unfold open_on_demand.
  eapply runs_bind; [apply runs_gets|]. cbn beta.
  eapply runs_bind; [apply runs_gets|]. cbn beta.
  destruct (csv_file (self w)); [apply runs_ret|].
  destruct Hp as [-> | ->]; apply runs_ret.
Qed.

(** X14: logging enabled without a usable path (none stored, or an empty
    one) is harmless: a pass that receives a line ends normally, opens
    nothing, writes nothing and prints nothing. *)
Theorem no_path_no_row (ev : env) (w : world) (n : N) (decoded : str) :
  in_waiting ev = Ok n → (0 <? n) = true →
  readline_decoded ev = Ok decoded → strip decoded ≠ [] →
  logging_enabled (self w) = true →
  csv_file (self w) = None →
  csv_path (self w) = None ∨ csv_path (self w) = Some [] →
  ∃ w', pass ev w = (Ok (), w') ∧
        self w' = self w ∧ disk w' = disk w ∧ stdout w' = stdout w.
Proof.
  intros H1 H2 H3 H4 Hen Hf Hp.
  destruct (report_frame (strip decoded) w) as (w1 & Hrep & Hself & Hdisk & Hout).
  exists w1. split; [|done].
  eapply pass_line; try done.
  unfold handle_line. rewrite (bind_ok _ _ _ _ _ Hrep).
  unfold log_to_csv. erewrite bind_ok by apply runs_gets.
  rewrite Hself, Hen.
  erewrite bind_ok by (apply open_on_demand_no_path; by rewrite Hself).
  erewrite bind_ok by apply runs_gets. by rewrite Hself, Hf.
Qed.

(** ** Lines without [MAIN:] while logging *)

(** X15: the first line of a session, when it has no [MAIN:] and the log
    file is open: the six variables of the row were never assigned, the
    row raises [UnboundLocalError] for [flags_str], the handler prints it,
    and the file is left as it was. *)
Theorem first_raw_line_leaves_no_row
    (ev : env) (w : world) (n : N) (decoded path : str) :
  in_waiting ev = Ok n → (0 <? n) = true →
  readline_decoded ev = Ok decoded → strip decoded ≠ [] →
  contains (text "MAIN:") (strip decoded) = false →
  logging_enabled (self w) = true →
  csv_file (self w) = Some (File path false []) →
  locals w !! "flags_str" = None →
  ∃ w', pass ev w = (Ok (), w') ∧
        disk w' = disk w ∧ self w' = self w ∧
        stdout w' = stdout w ++
          [text "Error in serial reading: " ++ exn_str (UnboundLocalError "flags_str")].
Proof.
  intros H1 H2 H3 H4 C Hen Hf Hloc.
  destruct (report_raw (strip decoded) w C) as (w1 & Hrep & Hself & Hdisk & Hout & Hl & _).
  rewrite (pass_handles ev n decoded w H1 H2 H3 H4).
  unfold try_except, handle_line. rewrite (bind_ok _ _ _ _ _ Hrep).
  assert (log_to_csv ev w1 = (Raise (UnboundLocalError "flags_str"), w1)) as ->.
  { unfold log_to_csv. erewrite bind_ok by apply runs_gets.
    rewrite Hself, Hen.
    erewrite bind_ok by (eapply open_on_demand_open; by rewrite Hself).
    erewrite bind_ok by apply runs_gets. rewrite Hself, Hf.
    unfold write_csv_line. cbn zeta. apply bind_raise.
    unfold load. by rewrite Hl, Hloc. }
  cbn. eexists. split; [done|]. fields. by rewrite Hdisk, Hself, Hout.
Qed.

Lemma pass_line_locals (ev : env) (n : N) (decoded : str) (w w1 : world) :
  in_waiting ev = Ok n → (0 <? n) = true →
  readline_decoded ev = Ok decoded → strip decoded ≠ [] →
  report (strip decoded) w = (Ok (), w1) →
  locals (snd (pass ev w)) = locals w1.
Proof.
  intros H1 H2 H3 H4 Hrep.
  rewrite (pass_handles ev n decoded w H1 H2 H3 H4).
  unfold try_except, handle_line. rewrite (bind_ok _ _ _ _ _ Hrep).
  destruct (log_to_csv_sinks ev w1) as ((_ & Hl & _) & _).
  by destruct (log_to_csv ev w1) as [[[]|e] w2].
Qed.

(** X16: a line without [MAIN:] that follows a structured line, the log
    file being open: the row written for it holds the reading of the
    earlier line once more, under the new timestamp. *)
Theorem raw_line_repeats_last_reading
    (ev1 ev2 : env) (w : world) (n1 n2 : N) (decoded1 decoded2 path : str) :
  in_waiting ev1 = Ok n1 → (0 <? n1) = true →
  readline_decoded ev1 = Ok decoded1 →
  contains (text "MAIN:") (strip decoded1) = true →
  logging_enabled (self w) = true →
  log_file_ready ev1 w path →
  in_waiting ev2 = Ok n2 → (0 <? n2) = true →
  readline_decoded ev2 = Ok decoded2 → strip decoded2 ≠ [] →
  contains (text "MAIN:") (strip decoded2) = false →
  ∃ w1 w2 d,
    pass ev1 w = (Ok (), w1) ∧ pass ev2 w1 = (Ok (), w2) ∧
    parse_all_measurements (strip decoded1) (objects w)
      = (Ok (length (objects w)), objects w ++ [d]) ∧
    disk w2 = append_to path (csv_row (strftime ev2) d)
                (append_to path (csv_row (strftime ev1) d) (disk w)).
Proof.
  intros H1 H2 H3 C1 Hen Hready H5 H6 H7 H8 C2.
  destruct (pass_structured ev1 w n1 decoded1 path) as (w1 & Hpass1 & Hdisk1 & Hf1 & _);
    try done.
  assert (locals w1 = line_locals (reading (strip decoded1)) (locals w)) as Hloc1.
  { destruct (report_structured _ w C1) as (wr & Hrep & _ & _ & _ & _ & Hl).
    rewrite <- Hl.
    rewrite <- (pass_line_locals ev1 n1 decoded1 w wr); try done.
    - by rewrite Hpass1.
    - by apply (contains_nonempty (text "MAIN:")). }
  assert (logging_enabled (self w1) = true) as Hen1.
  { destruct (pass_same_flags ev1 w) as (_ & He & _).
    rewrite Hpass1 in He. simpl in He. congruence. }
  destruct (report_raw (strip decoded2) w1 C2)
    as (wr & Hrep & Hself & Hdisk & Hout & Hl & _).
  destruct (write_csv_line_run ev2 (strip decoded1) path (locals w) wr C1)
    as (w2 & Hwrite & _ & _ & Hdisk2).
  { by rewrite Hself. }
  { by rewrite Hl. }
  exists w1, w2, (reading (strip decoded1)). split_and!; try done.
  - eapply pass_line; try done.
    unfold handle_line. rewrite (bind_ok _ _ _ _ _ Hrep).
    unfold log_to_csv. erewrite bind_ok by apply runs_gets.
    rewrite Hself, Hen1.
    erewrite bind_ok by (eapply open_on_demand_open; by rewrite Hself).
    erewrite bind_ok by apply runs_gets. by rewrite Hself, Hf1.
  - apply parse_reading.
  - by rewrite Hdisk2, Hdisk, Hdisk1.
Qed.

(** X17: [set_logging(False)] always returns; afterwards logging is off
    and no file is held, what an open file still had buffered is on disk,
    the stored path and the stop flag are as before; a second call
    changes nothing. *)
Theorem set_logging_off_closes (w : world) (p p' : option str) :
  ∃ w1,
    set_logging false p w = (Ok (), w1) ∧
    logging_enabled (self w1) = false ∧
    csv_file (self w1) = None ∧
    csv_path (self w1) = csv_path (self w) ∧
    stop_event (self w1) = stop_event (self w) ∧
    disk w1 = match csv_file (self w) with
              | Some f =>
                  if f_closed f then disk w
                  else append_to (f_name f) (f_buffer f) (disk w)
              | None => disk w
              end ∧
    set_logging false p' w1 = (Ok (), w1).
Proof. by_cases_on_file w; eexists; by split_and!. Qed.

(** ** The window *)

Lemma pass_file_at_path (ev : env) (w : world) :
  file_at_path w → file_at_path (snd (pass ev w)).
Proof.
  apply (preserves_pass file_at_path).
  - intros w1 w2 Hself _. unfold file_at_path. by rewrite Hself.
  - intros ev' w1 HP. unfold open_on_demand, mbind, M_bind, bind, gets. cbn.
    destruct (csv_file (self w1)) as [f|] eqn:Hf; [done|].
    destruct (csv_path (self w1)) as [[|c path]|] eqn:Hp; [done| |done].
    unfold try_except, call, modify. cbn.
    destruct (open_append ev' (c :: path)) as [[]|e]; cbn.
    + unfold file_at_path. fields. by rewrite Hp.
    + unfold file_at_path. fields. by rewrite Hf.
  - intros ev'. apply preserves_write_csv_line.
    + intros w1 HP. unfold file_at_path in HP. unfold file_settled.
      destruct (csv_file (self w1)); [|done]. by destruct HP as (? & ? & ?).
    + intros w1 path data Hf HP. unfold file_at_path in *. fields.
      by rewrite Hf in *.
Qed.

Lemma on_process_snd {A} (c : M world A) (g : gui) :
  snd (on_process c g) = set_process (snd (c (process g))) g.
Proof. unfold on_process. by destruct (c (process g)). Qed.

Ltac window_fields :=
  cbn [com_var combobox_values csv_path_var command_entry connect_button_text
       logging_button_text logging_button_state send_button_state serial_conn
       reader_thread connected logging_active dialogs destroyed process
       set_com_var set_combobox_values set_csv_path_var set_command_entry
       set_connect_button_text set_logging_button_text set_logging_button_state
       set_send_button_state set_serial_conn set_reader_thread set_connected
       set_logging_active set_dialogs set_destroyed set_process
       port baudrate timeout is_open written].

Ltac open_window g :=
  destruct g as [selection ? ? ? ? ? ? ? [[? ? ? [|] ?]|] [|] [|] [|] ? ?
                 [? [? ? [[? [|] ?]|] ?] ? ? ? ? ?]];
  unfold window_invariant, widgets_agree, connection_agrees, thread_agrees,
    log_file_agrees, file_at_path;
  cbn;
  intros (Hw & (Hrt & Hconn & Hact) & Ht & (Hfile & Hheld));
  try discriminate;
  try (specialize (Hact eq_refl); discriminate);
  try (destruct Hconn as (? & [= <-] & ? & ?); discriminate);
  try (by destruct Hfile as (? & ? & ?));
  try (by destruct Hheld as [? ?]).

Ltac window_run :=
  unfold perform, toggle_connection, connect, disconnect, toggle_logging,
    start_logging, stop_logging, send_command, on_closing, refresh_com_ports,
    browse_csv, messagebox, append_log, set_logging, stop, finish, csv_close,
    log_callback, print, try_except, call, on_process,
    mbind, M_bind, bind, gets, modify, mret, M_ret, ret, raise;
  cbn.

#[local] Set Warnings "-clear-no-such-hyp".
#[local] Arguments strip : simpl never.
#[local] Arguments extract_device_from_selection : simpl never.

Ltac split_text f :=
  try match goal with
      | |- context [f ?x] => destruct (f x) as [|? ?] eqn:?; cbn
      end.

Lemma stop_logging_invariant (g : gui) :
  window_invariant g → window_invariant (snd (stop_logging g)).
Proof. open_window g; window_run; naive_solver. Qed.

Lemma start_logging_invariant (g : gui) :
  window_invariant g → logging_active g = false →
  window_invariant (snd (start_logging g)).
Proof.
  open_window g; intros Hoff; try discriminate.
  all: window_run; split_text strip; naive_solver.
Qed.

Lemma extract_selected_device (selection : str) :
  extract_device_from_selection selection = Some (selected_device selection).
Proof. apply split_on_head. Qed.

Lemma connect_invariant (opened : result ()) (g : gui) :
  window_invariant g → connected g = false →
  window_invariant (snd (connect opened g)).
Proof.
  open_window g; intros Hoff; try discriminate.
  all: window_run; rewrite extract_selected_device.
  all: destruct selection, opened as [[]|e]; cbn; naive_solver.
Qed.

Lemma disconnect_invariant (g : gui) :
  window_invariant g → window_invariant (snd (disconnect g)).
Proof. open_window g; window_run; naive_solver. Qed.

Lemma on_closing_invariant (g : gui) :
  window_invariant g → window_invariant (snd (on_closing g)).
Proof. open_window g; window_run; naive_solver. Qed.

Lemma send_command_invariant (sent : result ()) (g : gui) :
  window_invariant g → window_invariant (snd (send_command sent g)).
Proof.
  open_window g; window_run; split_text strip; destruct sent as [[]|e]; cbn;
    naive_solver.
Qed.

Lemma reader_pass_invariant (ev : env) (g : gui) :
  window_invariant g → window_invariant (snd (perform (ReaderPass ev) g)).
Proof.
  intros Hinv. pose proof Hinv as (Hw & Hc & Ht & Hf & Hheld).
  unfold perform, mbind, M_bind, bind, gets. cbn beta iota.
  destruct (reader_thread g) eqn:Hrt; [|exact Hinv].
  rewrite on_process_snd.
  destruct (pass_same_flags ev (process g)) as (Hstop & Hen & Hpath).
  split_and!.
  - done.
  - exact Hc.
  - intros _. window_fields. rewrite Hstop, Hen, Hpath. by apply Ht.
  - split; window_fields; [by apply pass_file_at_path|].
    intros Hopen. split; [exact Hrt|].
    destruct (Ht Hrt) as (_ & Hlog & _). rewrite <- Hlog.
    destruct (logging_enabled (self (process g))) eqn:Hoff; [done|].
    destruct (pass_logging_off ev (process g) Hoff) as [Hself _].
    rewrite Hself in Hopen. by destruct (Hheld Hopen) as [_ <-].
Qed.

Lemma perform_invariant (a : action) (g : gui) :
  window_invariant g → window_invariant (snd (perform a g)).
Proof.
  destruct a.
  - unfold perform, toggle_connection, mbind, M_bind, bind, gets. cbn beta iota.
    destruct (connected g) eqn:Hcon;
      [apply disconnect_invariant|].
    intros Hinv. by apply connect_invariant.
  - unfold perform, toggle_logging, mbind, M_bind, bind, gets. cbn beta iota.
    destruct (logging_active g) eqn:Hact;
      [apply stop_logging_invariant|].
    intros Hinv. by apply start_logging_invariant.
  - apply send_command_invariant.
  - open_window g; window_run; destruct (list_com_ports ports); naive_solver.
  - open_window g; window_run; destruct file_path; naive_solver.
  - apply on_closing_invariant.
  - open_window g; window_run;
      match goal with |- context [?l !! i] => destruct (l !! i) end; naive_solver.
  - open_window g; window_run; naive_solver.
  - open_window g; window_run; naive_solver.
  - apply reader_pass_invariant.
Qed.

Lemma SerialGUI_invariant (ports : list port_info) (files : gmap str str) :
  window_invariant (SerialGUI ports files).
Proof.
  unfold window_invariant, widgets_agree, connection_agrees, thread_agrees,
    log_file_agrees, file_at_path. cbn. naive_solver.
Qed.

Lemma session_invariant (actions : list action) (g : gui) :
  window_invariant g → window_invariant (session actions g).
Proof.
  revert g. induction actions as [|a actions IH]; intros g Hg; [done|].
  simpl. apply IH. by apply perform_invariant.
Qed.

(** *** What the window guarantees *)

(** X18: after any sequence of actions and reader passes, the buttons
    show the state and the state is coherent: [connected] holds exactly
    when a port opened at 115200 baud with a one second timeout is held
    open and a reader thread exists, and logging is active only while
    connected. *)
Theorem widgets_follow_connection (ports : list port_info) (files : gmap str str)
    (actions : list action) :
  let g := session actions (SerialGUI ports files) in
  widgets_agree g ∧ connection_agrees g.
Proof.
  intros g.
  by destruct (session_invariant actions _ (SerialGUI_invariant ports files))
    as (? & ? & _).
Qed.

(** X19: the reader thread's flags follow the window: while a thread
    exists it has not been asked to stop, its [logging_enabled] equals the
    window's [logging_active], and while logging it holds a non-empty
    path. *)
Theorem thread_follows_window (ports : list port_info) (files : gmap str str)
    (actions : list action) :
  thread_agrees (session actions (SerialGUI ports files)).
Proof.
  by destruct (session_invariant actions _ (SerialGUI_invariant ports files))
    as (_ & _ & ? & _).
Qed.

(** X20: when the window's actions and the passes of the reader follow
    one another (no action falls inside a pass), a log file is open only
    while a thread exists and logging is active, it is the file at the
    path the thread stores, and nothing is left unflushed. *)
Theorem log_file_follows_window (ports : list port_info) (files : gmap str str)
    (actions : list action) :
  log_file_agrees (session actions (SerialGUI ports files)).
Proof.
  by destruct (session_invariant actions _ (SerialGUI_invariant ports files))
    as (_ & _ & _ & ?).
Qed.

Lemma on_closing_closes (g : gui) :
  window_invariant g →
  closed_down (snd (on_closing g)) ∧
  disk (process (snd (on_closing g))) = disk (process g).
Proof. unfold closed_down. open_window g; window_run; naive_solver. Qed.

(** X21: closing the window, in whatever state it is, leaves nothing
    connected, nothing logging, no thread and no open file, and the files
    are as they were: every row had been flushed already. *)
Theorem closing_shuts_everything (ports : list port_info) (files : gmap str str)
    (actions : list action) :
  let g := session actions (SerialGUI ports files) in
  let g' := snd (perform OnClosing g) in
  closed_down g' ∧ disk (process g') = disk (process g).
Proof.
  intros g g'. apply on_closing_closes.
  apply session_invariant, SerialGUI_invariant.
Qed.

Lemma disconnect_closes (g : gui) :
  window_invariant g →
  let g' := snd (disconnect g) in
  connected g' = false ∧ logging_active g' = false ∧
  reader_thread g' = false ∧ serial_conn g' = None ∧
  csv_file (self (process g')) = None ∧
  (connected g = true → stop_event (self (process g')) = true) ∧
  disk (process g') = disk (process g) ∧
  dialogs g' = dialogs g
    ++ [showinfo (text "Disconnected") (text "Serial connection closed.")].
Proof. open_window g; window_run; naive_solver. Qed.

(** X22: the connect button of a connected window disconnects: logging
    is stopped, the thread is told to stop and has ended, the port is
    given up, no file stays open, the files keep their contents and one
    dialog reports it; the answer of a port is not asked for. *)
Theorem disconnect_stops_logging (ports : list port_info) (files : gmap str str)
    (actions : list action) (opened : result ()) :
  let g := session actions (SerialGUI ports files) in
  connected g = true →
  let g' := snd (perform (ToggleConnection opened) g) in
  connected g' = false ∧ logging_active g' = false ∧
  reader_thread g' = false ∧ serial_conn g' = None ∧
  csv_file (self (process g')) = None ∧
  stop_event (self (process g')) = true ∧
  disk (process g') = disk (process g) ∧
  dialogs g' = dialogs g
    ++ [showinfo (text "Disconnected") (text "Serial connection closed.")].
Proof.
  intros g Hcon g'.
  assert (window_invariant g) as Hinv
    by apply session_invariant, SerialGUI_invariant.
  destruct (disconnect_closes g Hinv) as (? & ? & ? & ? & ? & Hstop & ? & ?).
  unfold g', perform, toggle_connection, mbind, M_bind, bind, gets.
  cbn beta iota. rewrite Hcon. split_and!; try done. by apply Hstop.
Qed.

(** X23: a command that is not sent is logged as sent all the same.
    When no open port is held, or the write fails, [send_command] still
    passes ["Sent: <command>"] to the log and empties the entry; nothing
    is added to what the port received. *)
Theorem unsent_command_still_logged (g : gui) (sent : result ()) (command : str) :
  strip (command_entry g) = command → command ≠ [] →
  (∀ c, serial_conn g = Some c → is_open c = true → ∃ e, sent = Raise e) →
  let g' := snd (send_command sent g) in
  sent_so_far g' = sent_so_far g ∧
  log_sink (process g') = log_sink (process g) ++ [text "Sent: " ++ command] ∧
  command_entry g' = [].
Proof.
  intros Hcommand Hne Hfail.
  destruct g as [? ? ? ? ? ? ? ? [[? ? ? [|] ?]|] ? ? ? ? ? ?];
    cbn in Hcommand, Hfail |- *.
  - destruct (Hfail _ eq_refl eq_refl) as [e ->].
    window_run. rewrite Hcommand. by destruct command.
  - window_run. rewrite Hcommand. by destruct command.
  - window_run. rewrite Hcommand. by destruct command.
Qed.

(** X24: with an open port that accepts the write, [send_command] writes
    the stripped command followed by a newline, logs it, empties the
    entry and changes nothing else. *)
Theorem command_written_with_newline (g : gui) (c : serial_port) (command : str) :
  strip (command_entry g) = command → command ≠ [] →
  serial_conn g = Some c → is_open c = true →
  send_command (Ok ()) g
  = (Ok (),
     set_command_entry []
       (set_process
          (set_log_sink (log_sink (process g) ++ [text "Sent: " ++ command])
             (process g))
          (set_serial_conn
             (Some (Serial (port c) (baudrate c) (timeout c) true
                      (written c ++ [command ++ newline]))) g))).
Proof.
  intros Hcommand Hne Hconn Hopen.
  destruct g as [? ? ? ? ? ? ? ? ? ? ? ? ? ? ?], c as [? ? ? ? ?].
  cbn in Hcommand, Hconn, Hopen. subst. window_run. by destruct (strip _).
Qed.

(** X25: a port that cannot be opened leaves the window as it was, but
    for one dialog that names the device of the selection (the text
    before its first [" - "]) and the error. *)
Theorem failed_connect_changes_nothing (g : gui) (e : exn) :
  connected g = false → com_var g ≠ [] →
  perform (ToggleConnection (Raise e)) g
  = (Ok (),
     set_dialogs
       (dialogs g
          ++ [showerror (text "Serial Error")
                (text "Could not open " ++ selected_device (com_var g)
                   ++ text ":" ++ newline ++ exn_str e)]) g).
Proof.
  intros Hcon Hsel.
  destruct g as [selection ? ? ? ? ? ? ? ? ? ? ? ? ? ?]. cbn in Hcon, Hsel.
  subst. window_run. rewrite extract_selected_device. by destruct selection.
Qed.

(** X26: refreshing the list, picking an entry and connecting opens the
    device that [comports()] reported for that entry, at 115200 baud with
    a timeout of one second, provided no [" - "] starts inside the device
    name; a thread is started and the window is connected. *)
Theorem connect_opens_selected_device (g : gui) (ports : list port_info)
    (i : nat) (chosen : port_info) :
  connected g = false →
  ports !! i = Some chosen →
  contains (text " - ") (device chosen ++ text " -") = false →
  let g' := session [RefreshComPorts ports; SelectPort i; ToggleConnection (Ok ())] g in
  serial_conn g' = Some (Serial (device chosen) 115200 1 true []) ∧
  connected g' = true ∧ reader_thread g' = true ∧
  self (process g') = Thread false false None None.
Proof.
  intros Hcon Hi Hdev.
  assert (list_com_ports ports !! i
          = Some (device chosen ++ text " - " ++ description chosen)) as Hentry.
  { unfold list_com_ports. by rewrite list_lookup_fmap, Hi. }
  destruct g as [? ? ? ? ? ? ? ? ? ? ? ? ? ? ?]. cbn in Hcon. subst.
  cbn [session]. window_run.
  destruct (list_com_ports ports) as [|first rest] eqn:Hports; [done|].
  cbn. rewrite Hentry. cbn.
  rewrite (extract_listed_entry chosen Hdev).
  by destruct (device chosen).
Qed.



(** X28: the logging button does not start logging while the window is
    not connected or the path entry is blank: one dialog says which, and
    neither the window nor the thread changes otherwise. *)
Theorem logging_refused_without_port_or_path (g : gui) :
  logging_active g = false →
  connected g = false ∨ serial_conn g = None ∨ strip (csv_path_var g) = [] →
  perform ToggleLogging g
  = (Ok (), set_dialogs (dialogs g ++ [logging_refusal g]) g).
Proof.
  intros Hact Hwhy.
  destruct g as [? ? ? ? ? ? ? ? [c|] ? [|] ? ? ? ?]; cbn in Hact, Hwhy; subst;
    window_run; [|done..].
  destruct Hwhy as [|[|Hblank]]; [done..|]. by rewrite Hblank.
Qed.

End Program.

(** ** Worked examples

    The theorems above applied to the sample inputs, and the inputs on
    which the code does not do what a sentence of the specification
    says. *)

(** C7 at ["garbage text"]. *)
Lemma garbage_text_example :
  contains (text "MAIN:") (text "garbage text") = false ∧
  ∃ d, parse_all_measurements no_class no_digit no_class (text "garbage text") []
         = (Ok 0%nat, [d]) ∧
       d !! "raw" = Some (VStr (text "garbage text")) ∧
       ∀ key, key ≠ "raw" → d !! key = None.
Proof.
  split; [reflexivity|].
  apply (no_main_gives_raw no_class no_digit no_class (text "garbage text") []).
  reflexivity.
Defined.

(** C2, amended, at the line of the full example. *)
Lemma full_line_aux_example :
  contains (text "MAIN:") (text "AUTO MAIN: -3.2 mV AUX: 100 Hz LOW BAT") = true ∧
  ∃ pre post d,
    first_cut (text "MAIN:") (text "AUTO MAIN: -3.2 mV AUX: 100 Hz LOW BAT") pre post ∧
    parse_all_measurements no_class no_digit no_class
      (text "AUTO MAIN: -3.2 mV AUX: 100 Hz LOW BAT") [] = (Ok 0%nat, [d]) ∧
    d !! "main_value" = Some (measured_value no_class no_digit no_class post) ∧
    d !! "main_unit" = Some (measured_unit no_class no_digit no_class post) ∧
    (contains (text "AUX:") post = false →
       d !! "aux_value" = Some VNone ∧ d !! "aux_unit" = Some VNone) ∧
    (∀ skipped aux_part, first_cut (text "AUX:") post skipped aux_part →
       d !! "aux_value" = Some (measured_value no_class no_digit no_class aux_part) ∧
       d !! "aux_unit" = Some (measured_unit no_class no_digit no_class aux_part)).
Proof.
  split; [reflexivity|].
  apply (aux_from_text_after_main no_class no_digit no_class
           (text "AUTO MAIN: -3.2 mV AUX: 100 Hz LOW BAT") []).
  reflexivity.
Defined.

(** C2 as worded fails on ["MAIN: AUX: 5 V"]: the main match is ["5 V"],
    nothing remains after it, and yet the auxiliary value is 5.0. *)
Lemma aux_before_main_match :
  ¬ aux_from_remaining no_class no_digit no_class (text "MAIN: AUX: 5 V").
Proof.
  intros H.
  destruct (H [] (text " AUX: 5 V")
              (reading no_class no_digit no_class (text "MAIN: AUX: 5 V")) [])
    as [Hnone _].
  - split; [reflexivity|]. intros j Hj. simpl in Hj. lia.
  - apply parse_reading.
  - destruct (Hnone eq_refl) as [Hval _]. vm_compute in Hval. discriminate.
Qed.

(** C9 at ["MAIN: 123"]: the value is 12.0 and the unit is ["3"]. *)
Lemma main_123_example :
  ∃ d, parse_all_measurements no_class no_digit no_class (text "MAIN: 123") []
         = (Ok 0%nat, [d]) ∧
       d !! "main_value" = Some (VFloat (S754_finite false 6755399441055744 (-49))) ∧
       d !! "main_unit" = Some (VStr (text "3")).
Proof.
  destruct (last_digit_becomes_unit no_class no_digit no_class
              (text "MAIN: 123") [] (text " ") [] (text "2") [] 49 51 [])
    as (n & d & Hn & Hparse & Hvalue & Hunit).
  - split; [reflexivity|]. intros j Hj. simpl in Hj. lia.
  - repeat constructor.
  - left. reflexivity.
  - repeat constructor.
  - reflexivity.
  - split; [exists [], []; repeat split; constructor|].
    intros (c & t & Hrest & _). discriminate.
  - exists d. split; [exact Hparse|]. split; [|exact Hunit].
    assert (n = 12) as -> by (vm_compute in Hn; congruence).
    exact Hvalue.
Defined.

(** The same split with a sign, with a character outside the unit class
    behind the digits, and with blanks before such a character: the
    values are -12.0 and 12.0, the unit is ["3"]. *)
Example last_digit_unit_examples :
  reading no_class no_digit no_class (text "MAIN: -123") !! "main_value"
  = Some (VFloat (S754_finite true 6755399441055744 (-49))) ∧
  reading no_class no_digit no_class (text "MAIN: -123") !! "main_unit"
  = Some (VStr (text "3")) ∧
  reading no_class no_digit no_class (text "MAIN: 123;") !! "main_value"
  = Some (VFloat (S754_finite false 6755399441055744 (-49))) ∧
  reading no_class no_digit no_class (text "MAIN: 123;") !! "main_unit"
  = Some (VStr (text "3")) ∧
  reading no_class no_digit no_class (text "MAIN: 123 (ol)") !! "main_value"
  = Some (VFloat (S754_finite false 6755399441055744 (-49))) ∧
  reading no_class no_digit no_class (text "MAIN: 123 (ol)") !! "main_unit"
  = Some (VStr (text "3")).
Proof. repeat split; by vm_compute. Qed.

(** X29 at ["MAIN: 12.5 V DC"] with the file still to open. *)
Lemma first_row_example :
  ∃ w' d,
    pass no_class no_digit no_class sample_float_repr sample_list_repr
      (env_line "MAIN: 12.5 V DC") world_enabled = (Ok (), w') ∧
    parse_all_measurements no_class no_digit no_class
      (strip no_class (text "MAIN: 12.5 V DC")) (objects world_enabled)
      = (Ok (length (objects world_enabled)), objects world_enabled ++ [d]) ∧
    disk w' = append_to sample_path (csv_row sample_float_repr sample_time d)
                (disk world_enabled) ∧
    csv_file (self w') = Some (File sample_path false []) ∧
    stdout w' = stdout world_enabled.
Proof.
  apply (structured_line_logged no_class no_digit no_class
           sample_float_repr sample_list_repr
           (env_line "MAIN: 12.5 V DC") world_enabled 1 (text "MAIN: 12.5 V DC")
           sample_path); try reflexivity.
  right. split_and!; try reflexivity. discriminate.
Defined.

(** C1: with logging enabled and the log file open, a line without
    [MAIN:] gets no row of its own.  The row is built from [flags_str],
    [main_val] and the other locals of [run] that only the branch for a
    structured line assigns.  When ["garbage text"] is the first line of
    the session, reading [flags_str] raises [UnboundLocalError]; the
    handler of the pass prints it, the file stays open and nothing is
    appended, so the sentence "every non-empty line has its own row"
    fails there. *)
Theorem raw_line_gets_no_row :
  ¬ every_line_logged no_class no_digit no_class sample_float_repr sample_list_repr
      (env_line "garbage text") world_open ∧
  ∃ w',
    pass no_class no_digit no_class sample_float_repr sample_list_repr
      (env_line "garbage text") world_open = (Ok (), w') ∧
    disk w' = disk world_open ∧
    csv_file (self w') = csv_file (self world_open) ∧
    stdout w'
    = [text "Error in serial reading: " ++ exn_str (UnboundLocalError "flags_str")].
Proof.
  split.
  - intros H.
    destruct (H 1 (text "garbage text") eq_refl eq_refl eq_refl
                ltac:(vm_compute; discriminate) eq_refl)
      as (w' & path & d & Hpass & _ & Hdisk).
    assert (disk w' = disk world_open) as Hsame.
    { change w' with (snd (Ok (), w')). rewrite <- Hpass. by vm_compute. }
    rewrite Hsame in Hdisk. symmetry in Hdisk.
    apply append_to_changes in Hdisk; [done|apply csv_row_nonempty].
  - exists (snd (pass no_class no_digit no_class sample_float_repr sample_list_repr
                   (env_line "garbage text") world_open)).
    by vm_compute.
Qed.

(** The same slip later in a session: a line without [MAIN:] that follows
    a structured line has the row of that earlier line written again. *)
Example raw_line_repeats_previous_row :
  ∃ w1 w2 row,
    pass no_class no_digit no_class sample_float_repr sample_list_repr
      (env_line "MAIN: 12.5 V DC") world_open = (Ok (), w1) ∧
    pass no_class no_digit no_class sample_float_repr sample_list_repr
      (env_line "garbage text") w1 = (Ok (), w2) ∧
    row = csv_row sample_float_repr sample_time
            (reading no_class no_digit no_class (text "MAIN: 12.5 V DC")) ∧
    disk w1 !! sample_path = Some row ∧
    disk w2 !! sample_path = Some (row ++ row).
Proof.
  exists (snd (pass no_class no_digit no_class sample_float_repr sample_list_repr
                 (env_line "MAIN: 12.5 V DC") world_open)).
  exists (snd (pass no_class no_digit no_class sample_float_repr sample_list_repr
                 (env_line "garbage text")
                 (snd (pass no_class no_digit no_class sample_float_repr sample_list_repr
                         (env_line "MAIN: 12.5 V DC") world_open)))).
  exists (csv_row sample_float_repr sample_time
            (reading no_class no_digit no_class (text "MAIN: 12.5 V DC"))).
  split_and!; vm_compute; reflexivity.
Qed.

(** C3 at a structured line with the open refused. *)
Lemma denied_open_example :
  ∃ w',
    pass no_class no_digit no_class sample_float_repr sample_list_repr
      (env_line_denied "MAIN: 12.5 V DC") world_enabled = (Ok (), w') ∧
    last (log_sink w') = Some (text "CSV Open Error: " ++ text "Permission denied") ∧
    disk w' = disk world_enabled ∧
    csv_file (self w') = None ∧
    stdout w' = stdout world_enabled ∧
    ∀ schedule,
      run no_class no_digit no_class sample_float_repr sample_list_repr
        (Tick [] (env_line_denied "MAIN: 12.5 V DC") :: schedule) world_enabled
      = run no_class no_digit no_class sample_float_repr sample_list_repr schedule w'.
Proof.
  apply (open_failure_reported no_class no_digit no_class
           sample_float_repr sample_list_repr
           (env_line_denied "MAIN: 12.5 V DC") world_enabled 1
           (text "MAIN: 12.5 V DC") sample_path
           (OSError (text "Permission denied")));
    try reflexivity; discriminate.
Defined.

(** C5 on a schedule with a line, a failing port and then the stop
    signal: the thread returns, normally. *)
Lemma stop_after_error_example :
  ∃ w',
    run no_class no_digit no_class sample_float_repr sample_list_repr
      [Tick [SetLogging true (Some sample_path)] (env_line "MAIN: 12.5 V DC");
       Tick [] env_port_error;
       Tick [Stop] (env_line "MAIN: 12.6 V DC")]
      (init ∅)
    = Returned (Ok ()) w'.
Proof.
  apply (loop_ends_only_on_stop no_class no_digit no_class
           sample_float_repr sample_list_repr).
  apply Exists_cons_tl, Exists_cons_tl, Exists_cons_hd. reflexivity.
Defined.

(** C10 with the file at [sample_path] open and a new path given. *)
Lemma second_path_example :
  ∃ w1,
    set_logging true (Some (text "/tmp/other.csv")) world_open = (Ok (), w1) ∧
    w1 = set_self (set_csv_path (Some (text "/tmp/other.csv")) (self world_open)) world_open ∧
    csv_file (self w1) = Some (File sample_path false []) ∧
    ∀ schedule, Forall (λ t, logging_left_on t = true) schedule →
      ∃ w2,
        run no_class no_digit no_class sample_float_repr sample_list_repr schedule w1
          = Looping w2 ∧
        csv_file (self w2) = Some (File sample_path false []) ∧
        (∀ p, p ≠ sample_path → disk w2 !! p = disk world_open !! p) ∧
        ∀ ev n decoded,
          in_waiting ev = Ok n → (0 <? n) = true →
          readline_decoded ev = Ok decoded →
          contains (text "MAIN:") (strip no_class decoded) = true →
          ∃ w3 d,
            pass no_class no_digit no_class sample_float_repr sample_list_repr ev w2
              = (Ok (), w3) ∧
            parse_all_measurements no_class no_digit no_class
              (strip no_class decoded) (objects w2)
              = (Ok (length (objects w2)), objects w2 ++ [d]) ∧
            disk w3 = append_to sample_path
                        (csv_row sample_float_repr (strftime ev) d) (disk w2).
Proof.
  apply (set_logging_keeps_open_file no_class no_digit no_class
           sample_float_repr sample_list_repr world_open sample_path
           (text "/tmp/other.csv")); reflexivity.
Defined.

(** ** Worked examples of the further properties *)

(** X1 at the full sample line. *)
Lemma sample_line_channels :
  ∃ d, parse_all_measurements no_class no_digit no_class sample_line []
         = (Ok 0%nat, [d]) ∧
       measurement_shape no_digit no_class (d !! "main_value") (d !! "main_unit") ∧
       measurement_shape no_digit no_class (d !! "aux_value") (d !! "aux_unit").
Proof.
  apply (channels_complete_or_missing no_class no_digit no_class sample_line []).
  reflexivity.
Defined.

(** X2 at the full sample line. *)
Lemma sample_line_keys :
  ∃ d, parse_all_measurements no_class no_digit no_class sample_line []
         = (Ok 0%nat, [d]) ∧
       (∀ key, is_Some (d !! key) ↔
               key ∈ ["flags"; "main_value"; "main_unit";
                      "aux_value"; "aux_unit"; "low_battery"]) ∧
       ∃ b, d !! "low_battery" = Some (VBool b).
Proof.
  apply (structured_reading_keys no_class no_digit no_class sample_line []).
  reflexivity.
Defined.

(** X3 at the full sample line. *)
Lemma sample_line_flags :
  ∃ pre post d fl,
    first_cut (text "MAIN:") sample_line pre post ∧
    parse_all_measurements no_class no_digit no_class sample_line []
      = (Ok 0%nat, [d]) ∧
    d !! "flags" = Some (VList fl) ∧
    fl = split no_class (strip no_class pre) ∧
    Forall (token no_class) fl ∧
    split no_class (join (text " ") fl) = fl.
Proof.
  apply (flags_are_words no_class no_digit no_class sample_line []).
  reflexivity.
Defined.

(** X4 at a list of one port. *)
Lemma sample_port_device :
  extract_device_from_selection <$> list_com_ports [sample_port_info]
  = [Some (text "COM3")].
Proof.
  apply (device_of_listed_port [sample_port_info]).
  constructor; [reflexivity|constructor].
Defined.

(** X6 with nothing waiting on the port. *)
Lemma idle_pass_example :
  pass no_class no_digit no_class sample_float_repr sample_list_repr
    env_idle world_open = (Ok (), world_open).
Proof.
  apply (idle_pass_changes_nothing no_class no_digit no_class
           sample_float_repr sample_list_repr env_idle world_open).
  left. reflexivity.
Defined.

(** X7 with a port that fails. *)
Lemma port_error_example :
  ∃ w', pass no_class no_digit no_class sample_float_repr sample_list_repr
          env_port_error world_open = (Ok (), w') ∧
        stdout w' = stdout world_open
          ++ [text "Error in serial reading: "
                ++ exn_str (SerialException (text "device disconnected"))] ∧
        objects w' = objects world_open ∧ self w' = self world_open ∧
        locals w' = locals world_open ∧
        log_sink w' = log_sink world_open ∧
        display_sink w' = display_sink world_open ∧
        disk w' = disk world_open.
Proof.
  apply (port_error_only_printed no_class no_digit no_class
           sample_float_repr sample_list_repr env_port_error
           (SerialException (text "device disconnected")) world_open).
  left. reflexivity.
Defined.

(** X8 at ["MAIN: 12.5 V DC"]. *)
Lemma display_example :
  ∃ w' d,
    pass no_class no_digit no_class sample_float_repr sample_list_repr
      (env_line "MAIN: 12.5 V DC") world_enabled = (Ok (), w') ∧
    parse_all_measurements no_class no_digit no_class
      (strip no_class (text "MAIN: 12.5 V DC")) (objects world_enabled)
      = (Ok (length (objects world_enabled)), objects world_enabled ++ [d]) ∧
    display_sink w' = display_sink world_enabled ++
      match d !! "main_value" with
      | Some (VFloat x) => [VFloat x]
      | _ => []
      end ∧
    (contains (text "MAIN:") (strip no_class (text "MAIN: 12.5 V DC")) = false →
     display_sink w' = display_sink world_enabled).
Proof.
  apply (display_gets_main_value no_class no_digit no_class
           sample_float_repr sample_list_repr
           (env_line "MAIN: 12.5 V DC") 1 (text "MAIN: 12.5 V DC") world_enabled);
    try reflexivity.
  vm_compute. discriminate.
Defined.

(** X9 at ["garbage text"]. *)
Lemma log_window_example :
  ∃ w' extra,
    pass no_class no_digit no_class sample_float_repr sample_list_repr
      (env_line "garbage text") world_enabled = (Ok (), w') ∧
    log_sink w' = log_sink world_enabled
      ++ [text "RAW: " ++ strip no_class (text "garbage text");
          summary no_class no_digit no_class sample_float_repr sample_list_repr
            (strip no_class (text "garbage text"))] ++ extra ∧
    (extra = [] ∨
     ∃ path e, logging_enabled (self world_enabled) = true ∧
               csv_file (self world_enabled) = None ∧
               csv_path (self world_enabled) = Some path ∧
               open_append (env_line "garbage text") path = Raise e ∧
               extra = [text "CSV Open Error: " ++ exn_str e]).
Proof.
  apply (line_logged_raw_then_summary no_class no_digit no_class
           sample_float_repr sample_list_repr
           (env_line "garbage text") 1 (text "garbage text") world_enabled);
    try reflexivity.
  vm_compute. discriminate.
Defined.

(** X10: a structured line arrives while logging is off. *)
Lemma logging_off_example :
  ∃ w', run no_class no_digit no_class sample_float_repr sample_list_repr
          quiet_turn (init ∅) = Looping w' ∧
        self w' = self (init ∅) ∧ disk w' = disk (init ∅).
Proof.
  apply (nothing_written_while_logging_off no_class no_digit no_class
           sample_float_repr sample_list_repr quiet_turn (init ∅)).
  - reflexivity.
  - reflexivity.
  - repeat constructor.
Defined.

(** X11: a row is added to the open file. *)
Lemma files_grow_example :
  extends (disk world_open)
    (disk (final_world
             (run no_class no_digit no_class sample_float_repr sample_list_repr
                quiet_turn world_open))).
Proof.
  apply (files_only_grow no_class no_digit no_class
           sample_float_repr sample_list_repr quiet_turn world_open).
  split; reflexivity.
Defined.

(** X12: another file keeps its content. *)
Lemma other_file_example :
  disk (final_world
          (run no_class no_digit no_class sample_float_repr sample_list_repr
             quiet_turn world_open)) !! text "/tmp/other.csv"
  = disk world_open !! text "/tmp/other.csv".
Proof.
  apply (other_files_untouched no_class no_digit no_class
           sample_float_repr sample_list_repr
           (text "/tmp/other.csv") quiet_turn world_open).
  - split; reflexivity.
  - vm_compute. discriminate.
  - intros f Hf. vm_compute in Hf. injection Hf as <-. vm_compute. discriminate.
  - repeat constructor.
Defined.


(** X14: logging is on, but no path was given. *)
Lemma no_path_example :
  ∃ w', pass no_class no_digit no_class sample_float_repr sample_list_repr
          (env_line "MAIN: 12.5 V DC") world_no_path = (Ok (), w') ∧
        self w' = self world_no_path ∧ disk w' = disk world_no_path ∧
        stdout w' = stdout world_no_path.
Proof.
  apply (no_path_no_row no_class no_digit no_class
           sample_float_repr sample_list_repr
           (env_line "MAIN: 12.5 V DC") world_no_path 1 (text "MAIN: 12.5 V DC"));
    try reflexivity.
  - vm_compute. discriminate.
  - left. reflexivity.
Defined.

(** X15: the first line of a session has no [MAIN:]. *)
Lemma first_raw_line_example :
  ∃ w', pass no_class no_digit no_class sample_float_repr sample_list_repr
          (env_line "garbage text") world_open = (Ok (), w') ∧
        disk w' = disk world_open ∧ self w' = self world_open ∧
        stdout w' = stdout world_open ++
          [text "Error in serial reading: "
             ++ exn_str (UnboundLocalError "flags_str")].
Proof.
  apply (first_raw_line_leaves_no_row no_class no_digit no_class
           sample_float_repr sample_list_repr
           (env_line "garbage text") world_open 1 (text "garbage text")
           sample_path); try reflexivity.
  vm_compute. discriminate.
Defined.

(** X16: a structured line, then a line without [MAIN:]. *)
Lemma repeated_row_example :
  ∃ w1 w2 d,
    pass no_class no_digit no_class sample_float_repr sample_list_repr
      (env_line "MAIN: 12.5 V DC") world_open = (Ok (), w1) ∧
    pass no_class no_digit no_class sample_float_repr sample_list_repr
      (env_line "garbage text") w1 = (Ok (), w2) ∧
    parse_all_measurements no_class no_digit no_class
      (strip no_class (text "MAIN: 12.5 V DC")) (objects world_open)
      = (Ok (length (objects world_open)), objects world_open ++ [d]) ∧
    disk w2 = append_to sample_path
                (csv_row sample_float_repr (strftime (env_line "garbage text")) d)
                (append_to sample_path
                   (csv_row sample_float_repr
                      (strftime (env_line "MAIN: 12.5 V DC")) d)
                   (disk world_open)).
Proof.
  apply (raw_line_repeats_last_reading no_class no_digit no_class
           sample_float_repr sample_list_repr
           (env_line "MAIN: 12.5 V DC") (env_line "garbage text") world_open
           1 1 (text "MAIN: 12.5 V DC") (text "garbage text") sample_path);
    try reflexivity.
  - left. reflexivity.
  - vm_compute. discriminate.
Defined.

(** X19 after connecting, typing a path and starting to log. *)
Lemma logging_thread_example :
  thread_agrees
    (session no_class no_digit no_class sample_float_repr sample_list_repr
       (actions_ready ++ [ToggleLogging]) (SerialGUI [sample_port_info] ∅)).
Proof.
  apply (thread_follows_window no_class no_digit no_class
           sample_float_repr sample_list_repr
           [sample_port_info] ∅ (actions_ready ++ [ToggleLogging])).
Defined.

(** X22 while logging. *)
Lemma disconnect_example :
  let g := session no_class no_digit no_class sample_float_repr sample_list_repr
             (actions_ready ++ [ToggleLogging]) (SerialGUI [sample_port_info] ∅) in
  let g' := snd (perform no_class no_digit no_class sample_float_repr
                   sample_list_repr (ToggleConnection (Ok ())) g) in
  connected g' = false ∧ logging_active g' = false ∧
  reader_thread g' = false ∧ serial_conn g' = None ∧
  csv_file (self (process g')) = None ∧
  stop_event (self (process g')) = true ∧
  disk (process g') = disk (process g) ∧
  dialogs g' = dialogs g
    ++ [showinfo (text "Disconnected") (text "Serial connection closed.")].
Proof.
  apply (disconnect_stops_logging no_class no_digit no_class
           sample_float_repr sample_list_repr
           [sample_port_info] ∅ (actions_ready ++ [ToggleLogging]) (Ok ())).
  reflexivity.
Defined.

(** X23 without a connection. *)
Lemma unsent_command_example :
  let g' := snd (send_command no_class (Ok ()) window_with_command) in
  sent_so_far g' = sent_so_far window_with_command ∧
  log_sink (process g')
  = log_sink (process window_with_command) ++ [text "Sent: " ++ text "READ?"] ∧
  command_entry g' = [].
Proof.
  apply (unsent_command_still_logged no_class window_with_command (Ok ())
           (text "READ?")).
  - reflexivity.
  - vm_compute. discriminate.
  - intros c Hc. vm_compute in Hc. discriminate.
Defined.

(** X24 with an open port. *)
Lemma sent_command_example :
  send_command no_class (Ok ()) window_with_port
  = (Ok (),
     set_command_entry []
       (set_process
          (set_log_sink
             (log_sink (process window_with_port) ++ [text "Sent: " ++ text "READ?"])
             (process window_with_port))
          (set_serial_conn
             (Some (Serial (text "COM3") 115200 1 true
                      ([] ++ [text "READ?" ++ newline]))) window_with_port))).
Proof.
  apply (command_written_with_newline no_class window_with_port
           (Serial (text "COM3") 115200 1 true []) (text "READ?")).
  - reflexivity.
  - vm_compute. discriminate.
  - reflexivity.
  - reflexivity.
Defined.

(** X25 at a port that is busy. *)
Lemma failed_connect_example :
  perform no_class no_digit no_class sample_float_repr sample_list_repr
    (ToggleConnection (Raise (SerialException (text "could not open port"))))
    (SerialGUI [sample_port_info] ∅)
  = (Ok (),
     set_dialogs
       (dialogs (SerialGUI [sample_port_info] ∅)
          ++ [showerror (text "Serial Error")
                (text "Could not open "
                   ++ selected_device (com_var (SerialGUI [sample_port_info] ∅))
                   ++ text ":" ++ newline
                   ++ exn_str (SerialException (text "could not open port")))])
       (SerialGUI [sample_port_info] ∅)).
Proof.
  apply (failed_connect_changes_nothing no_class no_digit no_class
           sample_float_repr sample_list_repr (SerialGUI [sample_port_info] ∅)
           (SerialException (text "could not open port"))).
  - reflexivity.
  - vm_compute. discriminate.
Defined.

(** X26 from a window that started with no port in the list. *)
Lemma connect_example :
  let g' := session no_class no_digit no_class sample_float_repr sample_list_repr
              [RefreshComPorts [sample_port_info]; SelectPort 0;
               ToggleConnection (Ok ())] (SerialGUI [] ∅) in
  serial_conn g' = Some (Serial (device sample_port_info) 115200 1 true []) ∧
  connected g' = true ∧ reader_thread g' = true ∧
  self (process g') = Thread false false None None.
Proof.
  apply (connect_opens_selected_device no_class no_digit no_class
           sample_float_repr sample_list_repr (SerialGUI [] ∅)
           [sample_port_info] 0 sample_port_info).
  - reflexivity.
  - reflexivity.
  - reflexivity.
Defined.


(** X28 before connecting. *)
Lemma refused_logging_example :
  perform no_class no_digit no_class sample_float_repr sample_list_repr
    ToggleLogging (SerialGUI [sample_port_info] ∅)
  = (Ok (),
     set_dialogs
       (dialogs (SerialGUI [sample_port_info] ∅)
          ++ [logging_refusal (SerialGUI [sample_port_info] ∅)])
       (SerialGUI [sample_port_info] ∅)).
Proof.
  apply (logging_refused_without_port_or_path no_class no_digit no_class
           sample_float_repr sample_list_repr (SerialGUI [sample_port_info] ∅)).
  - reflexivity.
  - left. reflexivity.
Defined.
